(** * finetrainers: the training orchestrator of [finetrainers/trainer.py]

    A shallow embedding of the [Trainer] class: the flow-matching step
    (sigma lookup, noise injection and loss), caption dropout, the loading
    of the components, the precomputation phase and the collate function
    of its dataloader, the step budget, the epoch/step loop with gradient
    accumulation, the validation loop and the files of its artifacts, the
    adapter save and load hooks and the training dtype.

    Conventions.
    - A float tensor of shape [(B, d1, ..., dk)] is a list of [B] rows, each
      row holding the [d1 * ... * dk] entries of one example in row-major
      order.  Scalars are exact rationals ([Q]): rounding of the device
      dtype is not modelled, so equalities between computed values are
      stated with [Qeq].
    - Code that can raise returns [result]; code that mutates [self] or the
      file system passes the mutated part explicitly.
    - Functions of torch, diffusers, accelerate, peft and of the parts of
      finetrainers that trainer.py imports are taken as record fields
      ([Externals], [ModelConfig]) or given a small model whose comment
      names the library routine it stands for. *)

From Stdlib Require Import QArith Qround Lia Lqa.
From stdpp Require Import gmap strings list.

(** * Part I: the model *)

(** ** Python exceptions *)

Inductive exn : Type :=
| ValueError (msg : string)
| KeyError (key : string)
| IndexError
| ZeroDivisionError
| UnboundLocalError (name : string).

Definition result (A : Type) : Type := (exn + A)%type.

Definition ret {A : Type} (x : A) : result A := inr x.

Definition raise {A : Type} (e : exn) : result A := inl e.

Definition bind {A B : Type} (r : result A) (k : A -> result B) : result B :=
  match r with
  | inl e => inl e
  | inr x => k x
  end.

Notation "'do' x <- e ; k" := (bind e (fun x => k))
  (at level 10, x name, e at level 100, k at level 200).

Notation "'do' ' p <- e ; k" := (bind e (fun x => let 'p := x in k))
  (at level 10, p pattern, e at level 100, k at level 200).

(** [a % b] on non-negative Python ints. *)
Definition py_mod (a b : nat) : result nat :=
  if Nat.eqb b 0 then raise ZeroDivisionError else ret (a mod b).

(** [math.ceil(a / b)] on non-negative Python ints (the float division is
    taken exact). *)
Definition ceil_div (a b : nat) : result nat :=
  if Nat.eqb b 0 then raise ZeroDivisionError else ret ((a + b - 1) / b).

(** ** Tensors *)

Module Tensor.

(** A float tensor [(B, M)]: one row of [M] entries per example. *)
Definition ftensor : Type := list (list Q).

(** Tensors as stored in the condition dictionaries: float data or a
    boolean mask. *)
Inductive tensor : Type :=
| FloatTensor (data : list (list Q))
| BoolTensor (data : list (list bool)).

(** [t.shape], as the list of row lengths. *)
Definition shape (A : ftensor) : list nat := map (@length Q) A.

(** torch type promotion of a mask used in float arithmetic. *)
Definition as_float (t : tensor) : ftensor :=
  match t with
  | FloatTensor d => d
  | BoolTensor d => map (map (fun b : bool => if b then 1%Q else 0%Q)) d
  end.

(** Broadcasting of the trailing dimensions: a row of one entry is
    stretched over the other row.  torch raises on rows that do not
    broadcast; the model cuts to the shorter row there. *)
Definition bcast_row (f : Q -> Q -> Q) (a b : list Q) : list Q :=
  match a, b with
  | [x], _ => map (f x) b
  | _, [y] => map (fun u => f u y) a
  | _, _ => zip_with f a b
  end.

Definition bcast (f : Q -> Q -> Q) (A B : ftensor) : ftensor :=
  zip_with (bcast_row f) A B.

Definition tadd : ftensor -> ftensor -> ftensor := bcast Qplus.
Definition tsub : ftensor -> ftensor -> ftensor := bcast Qminus.
Definition tmul : ftensor -> ftensor -> ftensor := bcast Qmult.

(** [c - t] for a Python scalar [c]. *)
Definition rsub (c : Q) (A : ftensor) : ftensor := map (map (fun x => c - x)%Q) A.

(** [t.pow(2)]. *)
Definition pow2 (A : ftensor) : ftensor := map (map (fun x => x ^ 2)%Q) A.

Definition sum (l : list Q) : Q := foldr Qplus 0%Q l.

(** [t.mean()] of a one-dimensional tensor. *)
Definition mean (l : list Q) : Q := (sum l / inject_Z (Z.of_nat (length l)))%Q.

(** [t.mean(list(range(1, t.ndim)))]: the mean over every non-batch
    dimension, one value per example. *)
Definition mean_non_batch (A : ftensor) : list Q := map mean A.

(** [expand_tensor_to_dims(t, ndim)] on a tensor of shape [(B,)]: trailing
    dimensions of size one are appended, giving shape [(B, 1, ..., 1)]. *)
Definition expand_tensor_to_dims (t : list Q) : ftensor := map (fun s => [s]) t.

(** [torch.randn(shape, generator=...)]: a tensor of the requested shape
    whose entry [(b, j)] is the draw [g b j]. *)
Definition randn (shp : list nat) (g : nat -> nat -> Q) : ftensor :=
  imap (fun b m => map (g b) (seq 0 m)) shp.

(** [t.fill_(v)] keeps the shape and the dtype and overwrites every entry;
    the Python values [0] and [False] both become the zero of the dtype. *)
Definition fill_zero (t : tensor) : tensor :=
  match t with
  | FloatTensor d => FloatTensor (map (map (fun _ => 0%Q)) d)
  | BoolTensor d => BoolTensor (map (map (fun _ => false)) d)
  end.

(** [q.long()]: truncation toward zero. *)
Definition long (q : Q) : Z := Z.quot (Qnum q) (Zpos (Qden q)).

(** [table[i]] with Python's negative indices. *)
Definition py_index (table : list Q) (i : Z) : result Q :=
  let n := Z.of_nat (length table) in
  let j := if (i <? 0)%Z then (i + n)%Z else i in
  if ((0 <=? j)%Z && (j <? n)%Z)%bool
  then match table !! Z.to_nat j with
       | Some v => ret v
       | None => raise IndexError
       end
  else raise IndexError.

(** Entry [(b, j)]. *)
Definition tget (A : ftensor) (b j : nat) : option Q :=
  match A !! b with
  | Some row => row !! j
  | None => None
  end.

(** Entrywise equality of values. *)
Definition tensor_eq (A B : ftensor) : Prop := Forall2 (Forall2 Qeq) A B.

Definition same_shape (A B : ftensor) : Prop := shape A = shape B.

(** Every entry is the zero of the dtype. *)
Definition all_zero (t : tensor) : Prop :=
  match t with
  | FloatTensor d => Forall (Forall (fun x => x = 0%Q)) d
  | BoolTensor d => Forall (Forall (fun b => b = false)) d
  end.

Definition tshape (t : tensor) : list nat :=
  match t with
  | FloatTensor d => map (@length Q) d
  | BoolTensor d => map (@length bool) d
  end.

End Tensor.

Import Tensor.

(** ** Flow matching: noise injection and loss (train, lines 683-718) *)

(** Line 700-701:
    [sigmas = expand_tensor_to_dims(sigmas, ndim)] and
    [noisy_latents = (1.0 - sigmas) * latents + sigmas * noise]. *)
Definition noisy_latents (sigmas : list Q) (latents noise : ftensor) : ftensor :=
  let sigmas := expand_tensor_to_dims sigmas in
  tadd (tmul (rsub 1 sigmas) latents) (tmul sigmas noise).

(** One example of the batch: the row line 701 forms for it. *)
Definition noisy_row (s : Q) (xr nr : list Q) : list Q :=
  zip_with Qplus (map (Qmult (1 - s)%Q) xr) (map (Qmult s) nr).

(** Line 712: [target = noise - latents]. *)
Definition target (noise latents : ftensor) : ftensor := tsub noise latents.

(** Lines 706-718.  [weighting] is diffusers'
    [compute_loss_weighting_for_sd3] for the configured scheme; it acts
    entry by entry on the expanded sigmas. *)
Definition flow_matching_loss (weighting : Q -> Q) (sigmas : list Q)
    (pred noise latents : ftensor) : Q :=
  let sigmas := expand_tensor_to_dims sigmas in
  let weights := map (map weighting) sigmas in
  let target := target noise latents in
  let loss := tmul weights (pow2 (tsub pred target)) in
  let loss := mean_non_batch loss in
  mean loss.

(** The loss in the words of the specification: per example, the weight of
    its sigma times the squared error against [noise - clean], averaged
    over the entries of the example; then the average over the batch. *)
Fixpoint example_errors (w : Q) (p n x : list Q) : list Q :=
  match p, n, x with
  | pv :: p', nv :: n', xv :: x' =>
      (w * (pv - (nv - xv)) ^ 2)%Q :: example_errors w p' n' x'
  | _, _, _ => []
  end.

Fixpoint batch_errors (weighting : Q -> Q) (sigmas : list Q)
    (pred noise latents : ftensor) : list Q :=
  match sigmas, pred, noise, latents with
  | s :: ss, p :: ps, n :: ns, x :: xs =>
      mean (example_errors (weighting s) p n x) :: batch_errors weighting ss ps ns xs
  | _, _, _, _ => []
  end.

Definition loss_spec (weighting : Q -> Q) (sigmas : list Q)
    (pred noise latents : ftensor) : Q :=
  mean (batch_errors weighting sigmas pred noise latents).

(** ** Configuration and collaborators *)

(** The fields of [Args] the modelled methods read. *)
Record Args : Type := {
  precompute_conditions : bool;
  batch_size : nat;
  caption_dropout_p : Q;
  caption_dropout_technique : string;
  flow_weighting_scheme : string;
  gradient_accumulation_steps : nat;
  checkpointing_steps : nat;
  validation_every_n_steps : option nat;
  validation_every_n_epochs : option nat;
  mixed_precision : string;
  validation_prompts : list string;
}.

(** The fields of [self.state.accelerator] the modelled methods read;
    [is_deepspeed] is [distributed_type == DistributedType.DEEPSPEED]. *)
Record Accelerator : Type := {
  num_processes : nat;
  process_index : nat;
  is_main_process : bool;
  is_deepspeed : bool;
}.

(** [self.model_config]: the callables of the model family.
    [prepare_conditions] receives the prompts (a single prompt is the
    one-element batch), [prepare_latents] the [precompute] flag and the
    video, [forward_pass] the timesteps and the two condition
    dictionaries.  [post_latent_preparation] is an optional key. *)
Record ModelConfig : Type := {
  prepare_conditions : list string -> gmap string tensor;
  prepare_latents : bool -> ftensor -> gmap string tensor;
  post_latent_preparation : option (gmap string tensor -> gmap string tensor);
  forward_pass : list Z -> gmap string tensor -> gmap string tensor -> gmap string tensor;
}.

(** A precomputed artifact under [<data_root>/precomputed]:
    [conditions/conditions-<i>-<index>.pt] or
    [latents/latents-<rank>-<index>.pt]. *)
Inductive Artifact : Type :=
| ConditionsFile (i index : nat)
| LatentsFile (rank index : nat).

#[global] Instance Artifact_eq_dec : EqDecision Artifact.
Proof. solve_decision. Defined.

(** Library routines trainer.py calls and inputs drawn by torch:
    diffusers' [compute_loss_weighting_for_sd3] (per scheme, entry by
    entry) and [DiagonalGaussianDistribution(t).sample(generator)],
    finetrainers' [make_contiguous] and [should_perform_precomputation]
    (a function of the files under the data root), and the values returned
    by [compute_density_for_timestep_sampling] for a batch size. *)
Record Externals : Type := {
  compute_loss_weighting_for_sd3 : string -> Q -> Q;
  diagonal_gaussian_sample : tensor -> tensor;
  make_contiguous : gmap string tensor -> gmap string tensor;
  should_perform_precomputation : list Artifact -> bool;
  compute_density_for_timestep_sampling : nat -> list Q;
}.

(** Python's global [random] generator: the stream of values
    [random.random()] returns and how many were consumed. *)
Record Random : Type := {
  draws : nat -> Q;
  cursor : nat;
}.

Definition random_random (r : Random) : Q * Random :=
  (draws r (cursor r), {| draws := draws r; cursor := S (cursor r) |}).

(** The generator after one call of [random.random()]. *)
Definition advance (rng : Random) : Random := snd (random_random rng).

(** [a < b] on floats. *)
Definition Qltb (a b : Q) : bool := negb (Qle_bool b a).

(** [d[k]]. *)
Definition dict_get (d : gmap string tensor) (k : string) : result tensor :=
  match d !! k with
  | Some v => ret v
  | None => raise (KeyError k)
  end.

(** ** Conditions of one training step and caption dropout
       (train, lines 631-680) *)

(** What the dataloader yields: videos and prompts when conditions are
    encoded live, the two stored dictionaries when they were precomputed. *)
Inductive Batch : Type :=
| LiveBatch (videos : ftensor) (prompts : list string)
| PrecomputedBatch (latent_conditions text_conditions : gmap string tensor).

(** Observable actions of the conditions part of a step, in order. *)
Inductive StepEvent : Type :=
| PromptsReplaced
| PrepareLatentsCall (videos : ftensor)
| PrepareConditionsCall (prompts : list string)
| EmbedsZeroed.

Record StepConditions : Type := {
  sc_latent_conditions : gmap string tensor;
  sc_text_conditions : gmap string tensor;
  sc_batch_size : nat;
  sc_random : Random;
  sc_events : list StepEvent;
}.

(** Lines 636-638: the "empty" technique, on the prompts of a live batch. *)
Definition drop_prompts (args : Args) (prompts : list string) (batch_size : nat)
    (rng : Random) : list string * Random * list StepEvent :=
  if String.eqb (caption_dropout_technique args) "empty" then
    let '(u, rng) := random_random rng in
    if Qltb u (caption_dropout_p args)
    then (replicate batch_size EmptyString, rng, [PromptsReplaced])
    else (prompts, rng, [])
  else (prompts, rng, []).

(** Lines 631-668: the conditions of the batch, encoded live or loaded. *)
Definition batch_conditions (ext : Externals) (mc : ModelConfig) (args : Args)
    (batch : Batch) (rng : Random) : result StepConditions :=
  if negb (precompute_conditions args) then
    match batch with
    | LiveBatch videos prompts =>
        let batch_size := length prompts in
        let '(prompts, rng, dropped) := drop_prompts args prompts batch_size rng in
        let latent_conditions := prepare_latents mc false videos in
        let text_conditions := prepare_conditions mc prompts in
        ret {| sc_latent_conditions := latent_conditions;
               sc_text_conditions := text_conditions;
               sc_batch_size := batch_size;
               sc_random := rng;
               sc_events := dropped ++ [PrepareLatentsCall videos;
                                        PrepareConditionsCall prompts] |}
    | PrecomputedBatch _ _ => raise (KeyError "videos")
    end
  else
    match batch with
    | PrecomputedBatch latent_conditions text_conditions =>
        do latents <- dict_get latent_conditions "latents";
        let latent_conditions :=
          <["latents" := diagonal_gaussian_sample ext latents]> latent_conditions in
        let latent_conditions :=
          match post_latent_preparation mc with
          | Some f => f latent_conditions
          | None => latent_conditions
          end in
        (* align_device_and_dtype(...): the returned dictionaries are
           dropped and the values of the tensors are not changed. *)
        do latents <- dict_get latent_conditions "latents";
        ret {| sc_latent_conditions := latent_conditions;
               sc_text_conditions := text_conditions;
               sc_batch_size := length (as_float latents);
               sc_random := rng;
               sc_events := [] |}
    | LiveBatch _ _ => raise (KeyError "latent_conditions")
    end.

(** Lines 673-680: the "zero" technique, on the text conditions. *)
Definition zero_embeds (args : Args) (text_conditions : gmap string tensor)
    (rng : Random) : result (gmap string tensor * Random * list StepEvent) :=
  if String.eqb (caption_dropout_technique args) "zero" then
    let '(u, rng) := random_random rng in
    if Qltb u (caption_dropout_p args) then
      do embeds <- dict_get text_conditions "prompt_embeds";
      let text_conditions := <["prompt_embeds" := fill_zero embeds]> text_conditions in
      do mask <- dict_get text_conditions "prompt_attention_mask";
      let text_conditions := <["prompt_attention_mask" := fill_zero mask]> text_conditions in
      let text_conditions :=
        match text_conditions !! "pooled_prompt_embeds" with
        | Some pooled => <["pooled_prompt_embeds" := fill_zero pooled]> text_conditions
        | None => text_conditions
        end in
      ret (text_conditions, rng, [EmbedsZeroed])
    else ret (text_conditions, rng, [])
  else ret (text_conditions, rng, []).

(** Lines 631-680. *)
Definition step_conditions (ext : Externals) (mc : ModelConfig) (args : Args)
    (batch : Batch) (rng : Random) : result StepConditions :=
  do sc <- batch_conditions ext mc args batch rng;
  let latent_conditions := make_contiguous ext (sc_latent_conditions sc) in
  let text_conditions := make_contiguous ext (sc_text_conditions sc) in
  do '(text_conditions, rng, zeroed) <- zero_embeds args text_conditions (sc_random sc);
  ret {| sc_latent_conditions := latent_conditions;
         sc_text_conditions := text_conditions;
         sc_batch_size := sc_batch_size sc;
         sc_random := rng;
         sc_events := sc_events sc ++ zeroed |}.

(** ** The rest of the step (train, lines 683-718) *)

(** [self.scheduler]: the sigma table and [config.num_train_timesteps]. *)
Record Scheduler : Type := {
  scheduler_sigmas : list Q;
  num_train_timesteps : Z;
}.

Record StepOutput : Type := {
  so_conditions : StepConditions;
  so_sigmas : list Q;
  so_timesteps : list Z;
  so_noise : ftensor;
  so_noisy_latents : ftensor;
  so_target : ftensor;
  so_loss : Q;
}.

Fixpoint map_result {A B : Type} (f : A -> result B) (l : list A) : result (list B) :=
  match l with
  | [] => ret []
  | a :: l' => do b <- f a; do bs <- map_result f l'; ret (b :: bs)
  end.

(** One micro-batch up to the loss; [gauss] are the draws of
    [torch.randn]. *)
Definition train_step (ext : Externals) (mc : ModelConfig) (args : Args)
    (scheduler : Scheduler) (gauss : nat -> nat -> Q)
    (batch : Batch) (rng : Random) : result StepOutput :=
  do sc <- step_conditions ext mc args batch rng;
  let latent_conditions := sc_latent_conditions sc in
  let text_conditions := sc_text_conditions sc in
  let weights := compute_density_for_timestep_sampling ext (sc_batch_size sc) in
  let indices := map (fun w => long (w * inject_Z (num_train_timesteps scheduler))) weights in
  do sigmas <- map_result (py_index (scheduler_sigmas scheduler)) indices;
  let timesteps := map (fun s => long (s * 1000)) sigmas in
  do latents <- dict_get latent_conditions "latents";
  let latents := as_float latents in
  let noise := randn (shape latents) gauss in
  let noisy := noisy_latents sigmas latents noise in
  let latent_conditions := <["noisy_latents" := FloatTensor noisy]> latent_conditions in
  let pred := forward_pass mc timesteps latent_conditions text_conditions in
  let target := target noise latents in
  do pred_latents <- dict_get pred "latents";
  let loss :=
    flow_matching_loss (compute_loss_weighting_for_sd3 ext (flow_weighting_scheme args))
                       sigmas (as_float pred_latents) noise latents in
  ret {| so_conditions := sc;
         so_sigmas := sigmas;
         so_timesteps := timesteps;
         so_noise := noise;
         so_noisy_latents := noisy;
         so_target := target;
         so_loss := loss |}.

(** ** Precomputation (prepare_precomputations, lines 177-341) *)

(** [self.dataloader]: the bucketed loader of [prepare_dataset] or the
    loader over [PrecomputedDataset(data_root)] with its batch size. *)
Inductive Dataloader : Type :=
| BucketedLoader
| PrecomputedLoader (batch_size : nat).

(** Observable actions of the method, in order.  Log events carry the
    fixed part of the message; debug lines are not recorded. *)
Inductive Event : Type :=
| LogInfo (msg : string)
| LogWarning (msg : string)
| LoadConditionModels
| LoadLatentModels
| PrepareConditions (prompt : string)
| PrepareLatents (video : list Q)
| TorchSave (file : Artifact)
| DeleteComponents
| WaitForEveryone.

(** An item of [self.dataset]. *)
Record Sample : Type := {
  prompt : string;
  video : list Q;
}.

(** What the method changes, as one process sees it: the files of
    [<data_root>/precomputed] that the process found on entry or wrote
    itself, [self.dataloader], and the actions performed so far.  The
    directory is shared: the other processes write their own shards to it,
    and those files are not part of [w_files]. *)
Record World : Type := {
  w_files : list Artifact;
  w_dataloader : Dataloader;
  w_trace : list Event;
}.

(** Computations over the world that may raise; the world reached when the
    exception is raised is kept. *)
Definition M (A : Type) : Type := World -> result A * World.

Definition mret {A : Type} (x : A) : M A := fun w => (ret x, w).

Definition mraise {A : Type} (e : exn) : M A := fun w => (raise e, w).

Definition mbind {A B : Type} (m : M A) (k : A -> M B) : M B :=
  fun w =>
    match m w with
    | (inl e, w') => (inl e, w')
    | (inr x, w') => k x w'
    end.

Notation "m1 >> m2" := (mbind m1 (fun _ => m2))
  (at level 100, m2 at level 200, right associativity).

Definition lift {A : Type} (r : result A) : M A := fun w => (r, w).

Definition emit (e : Event) : M unit :=
  fun w => (ret tt, {| w_files := w_files w;
                       w_dataloader := w_dataloader w;
                       w_trace := w_trace w ++ [e] |}).

(** [torch.save(..., filename)]: the file is created, or overwritten when
    it exists. *)
Definition torch_save (f : Artifact) : M unit :=
  fun w => (ret tt, {| w_files := if decide (f ∈ w_files w) then w_files w
                                  else w_files w ++ [f];
                       w_dataloader := w_dataloader w;
                       w_trace := w_trace w ++ [TorchSave f] |}).

(** [self.dataloader = torch.utils.data.DataLoader(PrecomputedDataset(...),
    shuffle=True, ...)] (lines 208 and 334).  [PrecomputedDataset] is not
    among the sources; the loader is modelled over a cache in which it
    finds items, where the construction succeeds.  Over a cache without
    items the shuffling sampler of torch raises ValueError instead. *)
Definition set_dataloader (d : Dataloader) : M unit :=
  fun w => (ret tt, {| w_files := w_files w;
                       w_dataloader := d;
                       w_trace := w_trace w |}).

Definition when (b : bool) (m : M unit) : M unit := if b then m else mret tt.

(** Lines 251-274: [for i, data in enumerate(self.dataset)], from item [i]
    on, with the running [index]. *)
Fixpoint conditions_loop (acc : Accelerator) (i : nat) (items : list Sample)
    (index : nat) : M unit :=
  match items with
  | [] => mret tt
  | data :: rest =>
      mbind (lift (py_mod i (num_processes acc))) (fun r =>
        if negb (r =? process_index acc) then
          conditions_loop acc (S i) rest index
        else
          emit (PrepareConditions (prompt data)) >>
          torch_save (ConditionsFile i index) >>
          conditions_loop acc (S i) rest (index + 1))
  end.

(** Lines 303-323. *)
Fixpoint latents_loop (acc : Accelerator) (i : nat) (items : list Sample)
    (index : nat) : M unit :=
  match items with
  | [] => mret tt
  | data :: rest =>
      mbind (lift (py_mod i (num_processes acc))) (fun r =>
        if negb (r =? process_index acc) then
          latents_loop acc (S i) rest index
        else
          emit (PrepareLatents (video data)) >>
          torch_save (LatentsFile (process_index acc) index) >>
          latents_loop acc (S i) rest (index + 1))
  end.

Definition batch_size_error : string :=
  "Precomputation is only supported with batch size 1. This will be supported in future.".

Definition dropout_warning : string :=
  "Caption dropout is not supported with precomputation yet. This will be supported in the future.".

(** Lines 240-341: both encoding phases and the switch of the dataloader. *)
Definition encode_and_store (args : Args) (acc : Accelerator) (dataset : list Sample)
    : M unit :=
  conditions_loop acc 0 dataset 0 >>
  emit DeleteComponents >>
  emit (LogInfo "Memory after precomputing conditions") >>
  emit LoadLatentModels >>
  latents_loop acc 0 dataset 0 >>
  emit DeleteComponents >>
  emit WaitForEveryone >>
  emit (LogInfo "Precomputation complete") >>
  emit (LogInfo "Memory after precomputing latents") >>
  set_dataloader (PrecomputedLoader (batch_size args)).

(** Lines 240-331: the two encoding phases alone, up to the barrier and
    the log lines after it; what [encode_and_store] does before it builds
    the dataloader. *)
Definition encode_phases (acc : Accelerator) (dataset : list Sample) : M unit :=
  conditions_loop acc 0 dataset 0 >>
  emit DeleteComponents >>
  emit (LogInfo "Memory after precomputing conditions") >>
  emit LoadLatentModels >>
  latents_loop acc 0 dataset 0 >>
  emit DeleteComponents >>
  emit WaitForEveryone >>
  emit (LogInfo "Precomputation complete") >>
  emit (LogInfo "Memory after precomputing latents").

(** Lines 177-238, then [encode_and_store]. *)
Definition prepare_precomputations (ext : Externals) (args : Args)
    (acc : Accelerator) (dataset : list Sample) : M unit :=
  if negb (precompute_conditions args) then mret tt
  else
    emit (LogInfo "Initializing precomputations") >>
    if negb (batch_size args =? 1) then mraise (ValueError batch_size_error)
    else
      mbind (fun w => (ret (should_perform_precomputation ext (w_files w)), w))
        (fun should_precompute =>
      if negb should_precompute then
        emit (LogInfo "Precomputed conditions and latents found. Loading precomputed data.") >>
        set_dataloader (PrecomputedLoader (batch_size args))
      else
        emit (LogInfo "Precomputed conditions and latents not found. Running precomputation.") >>
        emit LoadConditionModels >>
        when (Qltb 0 (caption_dropout_p args)
              && String.eqb (caption_dropout_technique args) "empty")
             (emit (LogWarning dropout_warning)) >>
        encode_and_store args acc dataset).

(** The world after the events [es]. *)
Definition after (es : list Event) (w : World) : World :=
  {| w_files := w_files w;
     w_dataloader := w_dataloader w;
     w_trace := w_trace w ++ es |}.

(** [m] raises only exceptions in [R] and appends only events in [P]. *)
Definition grows {A : Type} (R : exn -> Prop) (P : Event -> Prop) (m : M A) : Prop :=
  forall w,
    match fst (m w) with inl e => R e | inr _ => True end
    /\ exists new, w_trace (snd (m w)) = w_trace w ++ new /\ Forall P new.


(** ** The epoch and step loops (train, lines 587-780) *)

(** What [prepare_for_training] leaves in [self.state] and the length of
    the prepared dataloader. *)
Record TrainPlan : Type := {
  train_steps : nat;
  train_epochs : nat;
  num_update_steps_per_epoch : nat;
  dataloader_length : nat;
}.

(** Lines 552-558, for a dataloader of [len_dataloader] batches. *)
Definition prepare_for_training (args : Args) (len_dataloader : nat)
    (train_steps train_epochs : nat) (overwrote_max_train_steps : bool)
    : result TrainPlan :=
  do per_epoch <- ceil_div len_dataloader (gradient_accumulation_steps args);
  let train_steps :=
    if overwrote_max_train_steps then train_epochs * per_epoch else train_steps in
  do train_epochs <- ceil_div train_steps per_epoch;
  ret {| train_steps := train_steps;
         train_epochs := train_epochs;
         num_update_steps_per_epoch := per_epoch;
         dataloader_length := len_dataloader |}.

(** Modelled from the spec: [get_latest_ckpt_path_to_resume_from] of
    finetrainers.utils.checkpointing, which trainer.py imports.  The
    argument is the step encoded in the checkpoint resumed from, if any;
    the result is [(initial_global_step, global_step, first_epoch)]: a
    cold-start tuple without a checkpoint, and for a checkpoint at step [s]
    with [e] updates per epoch, [initial_step = s] and
    [first_epoch = s // e]. *)
Definition get_latest_ckpt_path_to_resume_from (resume_step : option nat)
    (num_update_steps_per_epoch : nat) : nat * nat * nat :=
  match resume_step with
  | None => (0, 0, 0)
  | Some s => (s, s, s / num_update_steps_per_epoch)
  end.

(** accelerate's [Accelerator._do_sync], run when [accumulate] is entered
    for batch [step] of a dataloader of [len] batches: at the end of the
    dataloader gradients are synchronised and the counter is reset,
    otherwise the counter is advanced and gradients are synchronised when
    it is a multiple of the accumulation steps.  Returns
    [(sync_gradients, counter)]. *)
Definition do_sync (accumulation_steps len : nat) (counter step : nat)
    : result (bool * nat) :=
  if step + 1 =? len then ret (true, 0)
  else do r <- py_mod (counter + 1) accumulation_steps;
       ret (r =? 0, counter + 1).

(** What happened on one micro-batch: whether gradients were synchronised
    (the optimizer updated the parameters), [global_step] afterwards,
    whether a checkpoint was saved and whether [validate] was called. *)
Record MicroBatch : Type := {
  mb_epoch : nat;
  mb_step : nat;
  mb_sync_gradients : bool;
  mb_global_step : nat;
  mb_checkpoint : bool;
  mb_validation : bool;
}.

Inductive LoopEvent : Type :=
| Micro (m : MicroBatch)
| EpochValidation (epoch : nat) (global_step : nat).

Record LoopState : Type := {
  global_step : nat;
  accelerator_step : nat;
  loop_trace : list LoopEvent;
}.

(** Lines 630-766 for batch [step] of [epoch]; the body of [accumulate]
    is the step modelled by [train_step]. *)
Definition micro_batch (args : Args) (acc : Accelerator) (plan : TrainPlan)
    (epoch step : nat) (st : LoopState) : result LoopState :=
  do '(sync_gradients, counter) <-
     do_sync (gradient_accumulation_steps args) (dataloader_length plan)
             (accelerator_step st) step;
  do '(global_step, checkpoint) <-
     (if sync_gradients then
        let global_step := global_step st + 1 in
        if (is_deepspeed acc || is_main_process acc)%bool then
          do r <- py_mod global_step (checkpointing_steps args);
          ret (global_step, r =? 0)
        else ret (global_step, false)
      else ret (global_step st, false));
  do should_run_validation <-
     match validation_every_n_steps args with
     | None => ret false
     | Some n => do r <- py_mod global_step n; ret (r =? 0)
     end;
  ret {| global_step := global_step;
         accelerator_step := counter;
         loop_trace :=
           loop_trace st ++
           [Micro {| mb_epoch := epoch;
                     mb_step := step;
                     mb_sync_gradients := sync_gradients;
                     mb_global_step := global_step;
                     mb_checkpoint := checkpoint;
                     mb_validation := should_run_validation |}] |}.

(** Lines 626-769: [for step, batch in enumerate(self.dataloader)] with the
    [break] of line 769. *)
Fixpoint step_loop (args : Args) (acc : Accelerator) (plan : TrainPlan)
    (epoch : nat) (steps : list nat) (st : LoopState) : result LoopState :=
  match steps with
  | [] => ret st
  | step :: rest =>
      do st <- micro_batch args acc plan epoch step st;
      if train_steps plan <=? global_step st then ret st
      else step_loop args acc plan epoch rest st
  end.

(** Lines 620-780: one epoch and the epoch-triggered validation. *)
Definition epoch_body (args : Args) (acc : Accelerator) (plan : TrainPlan)
    (epoch : nat) (st : LoopState) : result LoopState :=
  do st <- step_loop args acc plan epoch (seq 0 (dataloader_length plan)) st;
  do should_run_validation <-
     match validation_every_n_epochs args with
     | None => ret false
     | Some n => do r <- py_mod (epoch + 1) n; ret (r =? 0)
     end;
  ret (if should_run_validation
       then {| global_step := global_step st;
               accelerator_step := accelerator_step st;
               loop_trace := loop_trace st ++ [EpochValidation epoch (global_step st)] |}
       else st).

Fixpoint epoch_loop (args : Args) (acc : Accelerator) (plan : TrainPlan)
    (epochs : list nat) (st : LoopState) : result LoopState :=
  match epochs with
  | [] => ret st
  | epoch :: rest =>
      do st <- epoch_body args acc plan epoch st;
      epoch_loop args acc plan rest st
  end.

(** Lines 587-780: the resume point, then
    [for epoch in range(first_epoch, self.state.train_epochs)].
    [counter] is the accumulation counter of the accelerator when the
    loop starts. *)
Definition train (args : Args) (acc : Accelerator) (plan : TrainPlan)
    (resume_step : option nat) (counter : nat) : result LoopState :=
  let '(_, global_step, first_epoch) :=
    get_latest_ckpt_path_to_resume_from resume_step (num_update_steps_per_epoch plan) in
  epoch_loop args acc plan
    (seq first_epoch (train_epochs plan - first_epoch))
    {| global_step := global_step; accelerator_step := counter; loop_trace := [] |}.

(** The micro-batches of a run, in order. *)
Definition micro_batches (st : LoopState) : list MicroBatch :=
  omap (fun e => match e with Micro m => Some m | EpochValidation _ _ => None end)
       (loop_trace st).

(** ** Validation (validate, lines 808-920) *)

Inductive ValidationEvent : Type :=
| NoValidationSamples
| Generate (i : nat) (prompt : string).

(** Lines 854-920: [for i in range(num_validation_samples)], from the
    indices [is] on. *)
Fixpoint validation_loop (args : Args) (acc : Accelerator) (indices : list nat)
    : result (list ValidationEvent) :=
  match indices with
  | [] => ret []
  | i :: rest =>
      do r <- py_mod i (num_processes acc);
      if negb (r =? process_index acc) then validation_loop args acc rest
      else
        match validation_prompts args !! i with
        | None => raise IndexError
        | Some prompt =>
            do events <- validation_loop args acc rest;
            ret (Generate i prompt :: events)
        end
  end.

Definition validate (args : Args) (acc : Accelerator) : result (list ValidationEvent) :=
  let num_validation_samples := length (validation_prompts args) in
  if num_validation_samples =? 0 then ret [NoValidationSamples]
  else validation_loop args acc (seq 0 num_validation_samples).

(** The prompt indices a process generated. *)
Definition generated (events : list ValidationEvent) : list nat :=
  omap (fun e => match e with Generate i _ => Some i | NoValidationSamples => None end)
       events.

(** The process of rank [rank] among [P]. *)
Definition process (P rank : nat) : Accelerator :=
  {| num_processes := P;
     process_index := rank;
     is_main_process := rank =? 0;
     is_deepspeed := false |}.

(** The set of prompt indices the process of rank [rank] generates. *)
Definition assigned (args : Args) (P rank : nat) : gset nat :=
  match validate args (process P rank) with
  | inr events => list_to_set (generated events)
  | inl _ => ∅
  end.

(** ** The adapter load hook (load_model_hook, lines 423-463) *)

Inductive dtype : Type := float32 | float16 | bfloat16.

Record Param : Type := {
  p_name : string;
  p_requires_grad : bool;
  p_dtype : dtype;
}.

(** A model: its class and its parameters. *)
Record Model : Type := {
  m_class : string;
  m_parameters : list Param;
}.

(** diffusers' [cast_training_params(models, dtype)]: every parameter that
    requires a gradient is cast to [dtype]. *)
Definition cast_parameter (dt : dtype) (p : Param) : Param :=
  if p_requires_grad p
  then {| p_name := p_name p; p_requires_grad := true; p_dtype := dt |}
  else p.

Definition cast_training_params (model : Model) (dt : dtype) : Model :=
  {| m_class := m_class model;
     m_parameters := map (cast_parameter dt) (m_parameters model) |}.

(** Lines 425-435: [while len(models) > 0: model = models.pop()], over the
    models in the order they are popped; [transformer_] is the last one
    assigned. *)
Fixpoint pop_models (transformer_class : string) (popped : list Model)
    (transformer_ : option Model) : result (option Model) :=
  match popped with
  | [] => ret transformer_
  | model :: rest =>
      if String.eqb (m_class model) transformer_class
      then pop_models transformer_class rest (Some model)
      else raise (ValueError "Unexpected save model")
  end.

(** The hook.  [transformer] is [self.transformer]; [from_pretrained] is
    the transformer rebuilt from the pretrained weights with the adapter
    added (lines 437-440); [load_adapter] is lines 442-456, which read the
    adapter state of [input_dir] and copy it into the parameters of
    [transformer_] with peft's [set_peft_model_state_dict]. *)
Definition load_model_hook (args : Args) (acc : Accelerator) (transformer : Model)
    (from_pretrained : Model) (load_adapter : Model -> Model)
    (models : list Model) : result Model :=
  do transformer_ <-
     (if negb (is_deepspeed acc) then
        do found <- pop_models (m_class transformer) (rev models) None;
        match found with
        | Some m => ret m
        | None => raise (UnboundLocalError "transformer_")
        end
      else ret from_pretrained);
  let transformer_ := load_adapter transformer_ in
  if String.eqb (mixed_precision args) "fp16"
  then ret (cast_training_params transformer_ float32)
  else ret transformer_.

(** Loading adapter weights copies values into existing parameters: names,
    trainability and dtypes stay as they are. *)
Definition keeps_parameters (load_adapter : Model -> Model) : Prop :=
  forall m, m_parameters (load_adapter m) = m_parameters m.

Definition half_width (dt : dtype) : Prop := dt = float16 \/ dt = bfloat16.

(** Trainable parameters are in full precision. *)
Definition adapter_in_float32 (m : Model) : Prop :=
  Forall (fun p => p_requires_grad p = true -> p_dtype p = float32) (m_parameters m).

(** The model the hook loads the adapter into: the rebuilt transformer
    under DeepSpeed, otherwise the first of [models], all of which must be
    of the class of [self.transformer]. *)
Definition hook_model (acc : Accelerator) (transformer from_pretrained : Model)
    (models : list Model) (m0 : Model) : Prop :=
  (is_deepspeed acc = true /\ m0 = from_pretrained)
  \/ (is_deepspeed acc = false /\ head models = Some m0
      /\ Forall (fun m => m_class m = m_class transformer) models).

(** A transformer in bfloat16 with one adapter weight, as
    [prepare_trainable_parameters] leaves it under bf16. *)
Definition bf16_transformer : Model :=
  {| m_class := "LTXVideoTransformer3DModel";
     m_parameters :=
       [ {| p_name := "to_q.weight"; p_requires_grad := false; p_dtype := bfloat16 |};
         {| p_name := "to_q.lora_A.weight"; p_requires_grad := true; p_dtype := bfloat16 |} ] |}.

(** ** A concrete configuration *)

(** The options of the launch script [train_windows.py] that the model
    reads, with two short validation prompts; the dropout technique is not
    set by the script and is chosen here. *)
Definition launch_args : Args :=
  {| precompute_conditions := true;
     batch_size := 1;
     caption_dropout_p := 5 # 100;
     caption_dropout_technique := "empty";
     flow_weighting_scheme := "none";
     gradient_accumulation_steps := 1;
     checkpointing_steps := 500;
     validation_every_n_steps := None;
     validation_every_n_epochs := None;
     mixed_precision := "bf16";
     validation_prompts := ["afkx A black and white animated scene";
                            "A woman with long brown hair"] |}.

(** The launch configuration with a checkpoint every 7 steps, resumed
    from [checkpoint-7]. *)
Definition resumed_args : Args :=
  {| precompute_conditions := true;
     batch_size := 1;
     caption_dropout_p := 5 # 100;
     caption_dropout_technique := "empty";
     flow_weighting_scheme := "none";
     gradient_accumulation_steps := 1;
     checkpointing_steps := 7;
     validation_every_n_steps := None;
     validation_every_n_epochs := None;
     mixed_precision := "bf16";
     validation_prompts := [] |}.

(** A configuration that accumulates gradients over two micro-batches and
    validates every second step. *)
Definition accumulating_args : Args :=
  {| precompute_conditions := true;
     batch_size := 1;
     caption_dropout_p := 5 # 100;
     caption_dropout_technique := "empty";
     flow_weighting_scheme := "none";
     gradient_accumulation_steps := 2;
     checkpointing_steps := 1;
     validation_every_n_steps := Some 2;
     validation_every_n_epochs := None;
     mixed_precision := "bf16";
     validation_prompts := ["A woman with long brown hair"] |}.

(** Checkpoints are saved on micro-batches that synchronise gradients. *)
Definition checkpoints_at_sync (st : LoopState) : Prop :=
  Forall (fun m => mb_checkpoint m = true -> mb_sync_gradients m = true)
         (micro_batches st).

(** A small model family and environment: prompts are encoded by their
    length, videos are their own latents, the cache is complete when it
    holds four files, and [random.random()] always returns 1/2. *)
Definition toy_model_config : ModelConfig :=
  {| prepare_conditions := fun prompts =>
       <["prompt_embeds" :=
           FloatTensor (map (fun p => [inject_Z (Z.of_nat (String.length p)); 1%Q]) prompts)]>
       (<["prompt_attention_mask" := BoolTensor (map (fun _ => [true; true]) prompts)]> ∅);
     prepare_latents := fun _ videos => <["latents" := FloatTensor videos]> ∅;
     post_latent_preparation := None;
     forward_pass := fun _ latent_conditions _ => latent_conditions |}.

Definition toy_externals : Externals :=
  {| compute_loss_weighting_for_sd3 := fun _ _ => 1%Q;
     diagonal_gaussian_sample := fun t => t;
     make_contiguous := fun d => d;
     should_perform_precomputation := fun files => negb (length files =? 4);
     compute_density_for_timestep_sampling := fun n => replicate n 0%Q |}.

Definition toy_random : Random := {| draws := fun _ => (1 # 2)%Q; cursor := 0 |}.

(** The launch configuration with the given dropout technique and
    probability, encoding live or from the cache. *)
Definition dropout_args (precompute : bool) (technique : string) (p : Q) : Args :=
  {| precompute_conditions := precompute;
     batch_size := 1;
     caption_dropout_p := p;
     caption_dropout_technique := technique;
     flow_weighting_scheme := "none";
     gradient_accumulation_steps := 1;
     checkpointing_steps := 500;
     validation_every_n_steps := None;
     validation_every_n_epochs := None;
     mixed_precision := "bf16";
     validation_prompts := [] |}.

(** A stored batch of one example. *)
Definition toy_latent_conditions : gmap string tensor :=
  <["latents" := FloatTensor [[1; 2; 3]]%Q]> ∅.

Definition toy_text_conditions : gmap string tensor :=
  <["prompt_embeds" := FloatTensor [[4; 5]]%Q]>
  (<["prompt_attention_mask" := BoolTensor [[true; true]]]> ∅).

(** No micro-batch of the run was left with [global_step] above the final
    one. *)
Definition steps_bounded (st : LoopState) : Prop :=
  Forall (fun m => mb_global_step m <= global_step st) (micro_batches st).

(** The moduli of the loop are non-zero, so that no [%] raises. *)
Definition valid_divisors (args : Args) : Prop :=
  gradient_accumulation_steps args <> 0
  /\ checkpointing_steps args <> 0
  /\ (forall n, validation_every_n_steps args = Some n -> n <> 0)
  /\ (forall n, validation_every_n_epochs args = Some n -> n <> 0).

(** Whether batch [step] synchronises gradients in an epoch entered with
    the accumulation counter at 0, and the number of such batches among the
    [n] batches from [k] on. *)
Definition sync_at (G L step : nat) : bool :=
  (step + 1 =? L) || ((step + 1) mod G =? 0).

Fixpoint syncs (G L k n : nat) : nat :=
  match n with
  | 0 => 0
  | S n' => (if sync_at G L k then 1 else 0) + syncs G L (S k) n'
  end.

(** A batch of three examples of two entries, with sigmas 0, 1 and 1/2, and
    a batch of two examples with a prediction. *)
Definition toy_sigmas : list Q := [0; 1; 1 # 2]%Q.
Definition toy_latents : ftensor := [[1; 2]; [3; 4]; [5; 6]]%Q.
Definition toy_noise : ftensor := [[7; 8]; [9; 10]; [11; 12]]%Q.

Definition pair_sigmas : list Q := [1 # 4; 3 # 4]%Q.
Definition pair_pred : ftensor := [[1; 0]; [2; 2]]%Q.
Definition pair_noise : ftensor := [[3; 1]; [0; 5]]%Q.
Definition pair_latents : ftensor := [[1; 1]; [1; 2]]%Q.
Definition pair_weighting (s : Q) : Q := (1 + s)%Q.

(** The launch configuration with a batch size of 4, and with fp16. *)
Definition batched_args : Args :=
  {| precompute_conditions := true;
     batch_size := 4;
     caption_dropout_p := 5 # 100;
     caption_dropout_technique := "empty";
     flow_weighting_scheme := "none";
     gradient_accumulation_steps := 1;
     checkpointing_steps := 500;
     validation_every_n_steps := None;
     validation_every_n_epochs := None;
     mixed_precision := "bf16";
     validation_prompts := [] |}.

Definition fp16_args : Args :=
  {| precompute_conditions := true;
     batch_size := 1;
     caption_dropout_p := 5 # 100;
     caption_dropout_technique := "empty";
     flow_weighting_scheme := "none";
     gradient_accumulation_steps := 1;
     checkpointing_steps := 500;
     validation_every_n_steps := None;
     validation_every_n_epochs := None;
     mixed_precision := "fp16";
     validation_prompts := [] |}.

Definition fp16_transformer : Model :=
  {| m_class := "LTXVideoTransformer3DModel";
     m_parameters :=
       [ {| p_name := "to_q.weight"; p_requires_grad := false; p_dtype := float16 |};
         {| p_name := "to_q.lora_A.weight"; p_requires_grad := true; p_dtype := float16 |} ] |}.

(** A dataset of two samples, a data root without a cache and one whose
    cache holds the four artifacts of that dataset. *)
Definition two_samples : list Sample :=
  [{| prompt := "a cat"; video := [1; 2]%Q |}; {| prompt := "a dog"; video := [3; 4]%Q |}].

Definition empty_world : World :=
  {| w_files := []; w_dataloader := BucketedLoader; w_trace := [] |}.

Definition cached_world : World :=
  {| w_files := [ConditionsFile 0 0; ConditionsFile 1 1; LatentsFile 0 0; LatentsFile 0 1];
     w_dataloader := BucketedLoader;
     w_trace := [] |}.


(** ** Further vocabulary for the loops *)

(** The optimizer updates of a run: its micro-batches that synchronised
    gradients. *)
Definition updates (st : LoopState) : nat :=
  length (filter (fun m => mb_sync_gradients m = true) (micro_batches st)).

(** The tests of lines 741-759 as they stand in the code: a checkpoint is
    saved when gradients were synchronised, the process is the main one (or
    DeepSpeed is used) and [global_step] is a multiple of
    [checkpointing_steps]; [validate] is called when [global_step] is a
    multiple of [validation_every_n_steps], synchronised or not. *)
Definition triggers_as_coded (args : Args) (acc : Accelerator) (m : MicroBatch) : Prop :=
  mb_checkpoint m
  = (mb_sync_gradients m && (is_deepspeed acc || is_main_process acc)
     && (mb_global_step m mod checkpointing_steps args =? 0))%bool
  /\ mb_validation m
     = match validation_every_n_steps args with
       | None => false
       | Some n => mb_global_step m mod n =? 0
       end.

(** The step a run starts from. *)
Definition start_step (resume_step : option nat) : nat :=
  match resume_step with
  | None => 0
  | Some s => s
  end.


(** ** The step budget (prepare_optimizer, lines 471-472 and 513-516) *)

(** [train_steps] is [args.train_steps], [None] when only epochs are
    configured; the result is [self.state.train_steps] and
    [self.state.overwrote_max_train_steps], whose value on entry is
    [overwrote]. *)
Definition prepare_optimizer_steps (args : Args) (len_dataloader : nat)
    (train_steps : option nat) (train_epochs : nat) (overwrote : bool)
    : result (nat * bool) :=
  do per_epoch <- ceil_div len_dataloader (gradient_accumulation_steps args);
  match train_steps with
  | None => ret (train_epochs * per_epoch, true)
  | Some t => ret (t, overwrote)
  end.

(** [prepare_optimizer] on a dataloader of [len_before] batches, then
    [prepare_for_training] on the prepared dataloader of [len_after]
    batches. *)
Definition prepare_steps (args : Args) (len_before len_after : nat)
    (train_steps : option nat) (train_epochs : nat) (overwrote : bool)
    : result TrainPlan :=
  do '(steps, overwrote) <-
     prepare_optimizer_steps args len_before train_steps train_epochs overwrote;
  prepare_for_training args len_after steps train_epochs overwrote.


(** ** Vocabulary for the encoding phases *)

(** The dataset indices encoded by the process of rank [rank] among [P],
    for a dataset of [n] samples (lines 253 and 305). *)
Definition shard (P rank n : nat) : list nat :=
  filter (fun i => i mod P = rank) (seq 0 n).

(** The artifacts that process writes: the conditions of its [k]-th sample,
    of dataset index [i], go to [conditions-<i>-<k>.pt], its latents to
    [latents-<rank>-<k>.pt]. *)
Definition shard_files (P rank n : nat) : list Artifact :=
  imap (fun k i => ConditionsFile i k) (shard P rank n)
  ++ map (LatentsFile rank) (seq 0 (length (shard P rank n))).

(** The files written, the prompts and the videos encoded, in the order of
    a trace. *)
Definition saved (tr : list Event) : list Artifact :=
  omap (fun e => match e with TorchSave f => Some f | _ => None end) tr.

Definition encoded_prompts (tr : list Event) : list string :=
  omap (fun e => match e with PrepareConditions s => Some s | _ => None end) tr.

Definition encoded_videos (tr : list Event) : list (list Q) :=
  omap (fun e => match e with PrepareLatents v => Some v | _ => None end) tr.

(** A directory listing after the writes [fs]. *)
Definition add_files (files fs : list Artifact) : list Artifact :=
  foldl (fun listing f => if decide (f ∈ listing) then listing else listing ++ [f])
        files fs.

(** The samples of the dataset with their indices, from index [i] on, that
    a process keeps. *)
Definition kept (acc : Accelerator) (i : nat) (items : list Sample) : list (nat * Sample) :=
  filter (fun p : nat * Sample => p.1 mod num_processes acc = process_index acc)
         (zip (seq i (length items)) items).


(** The files a computation writes when run from the world [w]. *)
Definition written (m : M unit) (w : World) : list Artifact :=
  saved (drop (length (w_trace w)) (w_trace (snd (m w)))).


(** ** collate_fn of the cache-backed dataloader (lines 186-203) *)

(** A value of a stored dictionary: a tensor or anything else. *)
Inductive stored : Type :=
| StoredTensor (t : tensor)
| StoredOther (v : string).

(** [torch.is_tensor]. *)
Definition is_tensor (v : stored) : bool :=
  match v with
  | StoredTensor _ => true
  | StoredOther _ => false
  end.

(** A Python dict, in insertion order. *)
Definition pydict : Type := list (string * stored).

(** [d[k]]. *)
Fixpoint pydict_get (d : pydict) (k : string) : result stored :=
  match d with
  | [] => raise (KeyError k)
  | (k', v) :: d' => if String.eqb k' k then ret v else pydict_get d' k
  end.

(** An item of the precomputed dataset. *)
Record Item : Type := {
  item_latent_conditions : pydict;
  item_text_conditions : pydict;
}.

(** Lines 191-196 (and 197-202): one pass over the keys of the first
    dictionary.  [cat] is [torch.cat(..., dim=0)]; the list
    [[x[key] for x in dicts]] is built in both branches. *)
Fixpoint collate_fields (cat : list stored -> result stored) (first : pydict)
    (dicts : list pydict) : result pydict :=
  match first with
  | [] => ret []
  | (key, v0) :: rest =>
      do values <- map_result (fun x => pydict_get x key) dicts;
      do v <- (if is_tensor v0 then cat values
               else match values with
                    | v :: _ => ret v
                    | [] => raise IndexError
                    end);
      do rest' <- collate_fields cat rest dicts;
      ret ((key, v) :: rest')
  end.

Definition collate_fn (cat : list stored -> result stored) (batch : list Item)
    : result Item :=
  let latent_conditions := map item_latent_conditions batch in
  let text_conditions := map item_text_conditions batch in
  match latent_conditions with
  | [] => raise IndexError
  | first_latent :: _ =>
      do batched_latent_conditions <- collate_fields cat first_latent latent_conditions;
      match text_conditions with
      | [] => raise IndexError
      | first_text :: _ =>
          do batched_text_conditions <- collate_fields cat first_text text_conditions;
          ret {| item_latent_conditions := batched_latent_conditions;
                 item_text_conditions := batched_text_conditions |}
      end
  end.

(** How an entry of the result relates to the entry of the first
    dictionary at the same position: same key; the value is the
    concatenation of the values of all dictionaries at that key when the
    first value is a tensor, and the value of the first dictionary
    otherwise. *)
Definition collated (cat : list stored -> result stored) (dicts : list pydict)
    (entry out : string * stored) : Prop :=
  out.1 = entry.1
  /\ exists values,
       map_result (fun x => pydict_get x entry.1) dicts = inr values
       /\ if is_tensor entry.2 then cat values = inr out.2
          else head values = Some out.2.

(** Two items of one example each, the second with a key the first lacks. *)
Definition item_a : Item :=
  {| item_latent_conditions :=
       [("latents"%string, StoredTensor (FloatTensor [[1; 2]]%Q));
        ("num_frames"%string, StoredOther "49")];
     item_text_conditions :=
       [("prompt_embeds"%string, StoredTensor (FloatTensor [[3]]%Q))] |}.

Definition item_b : Item :=
  {| item_latent_conditions :=
       [("latents"%string, StoredTensor (FloatTensor [[5; 6]]%Q));
        ("num_frames"%string, StoredOther "25");
        ("height"%string, StoredOther "512")];
     item_text_conditions :=
       [("prompt_embeds"%string, StoredTensor (FloatTensor [[7]]%Q))] |}.

(** Concatenation of float tensors along the batch dimension; anything
    else is refused. *)
Fixpoint cat_rows (values : list stored) : result (list (list Q)) :=
  match values with
  | [] => ret []
  | StoredTensor (FloatTensor d) :: rest => do ds <- cat_rows rest; ret (d ++ ds)
  | _ :: _ => raise (ValueError "unsupported")
  end.

Definition float_cat (values : list stored) : result stored :=
  do d <- cat_rows values; ret (StoredTensor (FloatTensor d)).

(** [torch.cat] on any stored tensors: a single tensor is returned as it
    is, several float tensors are concatenated along the batch
    dimension. *)
Definition toy_cat (values : list stored) : result stored :=
  match values with
  | [v] => ret v
  | _ => float_cat values
  end.


(** ** The adapter save hook (save_model_hook, lines 400-421) *)

(** [if weights: weights.pop()]. *)
Definition pop_weight {W : Type} (weights : list W) : list W :=
  match weights with
  | [] => weights
  | _ :: _ => take (length weights - 1) weights
  end.

(** Lines 404-416: the loop over [models]; [layers] is
    [transformer_lora_layers_to_save], [get_state] is peft's
    [get_peft_model_state_dict].  The weights left are returned also when
    the loop raises. *)
Fixpoint save_loop {W SD : Type} (transformer_class : string) (get_state : Model -> SD)
    (models : list Model) (layers : option SD) (weights : list W)
    : result (option SD) * list W :=
  match models with
  | [] => (ret layers, weights)
  | model :: rest =>
      if String.eqb (m_class model) transformer_class
      then save_loop transformer_class get_state rest (Some (get_state model))
                     (pop_weight weights)
      else (raise (ValueError "Unexpected save model"), weights)
  end.

(** The hook.  The first component is [None] when [save_lora_weights] was
    not called and otherwise the [transformer_lora_layers] it was called
    with; the second is [weights] after the hook. *)
Definition save_model_hook {W SD : Type} (acc : Accelerator) (transformer : Model)
    (get_state : Model -> SD) (models : list Model) (weights : list W)
    : result (option (option SD)) * list W :=
  if is_main_process acc then
    match save_loop (m_class transformer) get_state models None weights with
    | (inr layers, weights) => (ret (Some layers), weights)
    | (inl e, weights) => (inl e, weights)
    end
  else (ret None, weights).

(** ** The weight dtype (_get_training_dtype, lines 1023-1042) *)







(** ** The components of the trainer (lines 127-175) *)

(** The ten component attributes of the trainer; a component is [None] or
    a loaded object of type [C]. *)
Record Components (C : Type) : Type := {
  self_tokenizer : option C;
  self_tokenizer_2 : option C;
  self_tokenizer_3 : option C;
  self_text_encoder : option C;
  self_text_encoder_2 : option C;
  self_text_encoder_3 : option C;
  self_transformer : option C;
  self_unet : option C;
  self_vae : option C;
  self_scheduler : option C;
}.
Arguments self_tokenizer {C}.
Arguments self_tokenizer_2 {C}.
Arguments self_tokenizer_3 {C}.
Arguments self_text_encoder {C}.
Arguments self_text_encoder_2 {C}.
Arguments self_text_encoder_3 {C}.
Arguments self_transformer {C}.
Arguments self_unet {C}.
Arguments self_vae {C}.
Arguments self_scheduler {C}.

(** [components.get(key, default)]: a key that is present wins, also with
    the value [None]. *)
Definition get_default {C : Type} (components : gmap string (option C)) (key : string)
    (default : option C) : option C :=
  match components !! key with
  | Some value => value
  | None => default
  end.

Definition _set_components {C : Type} (components : gmap string (option C))
    (self : Components C) : Components C :=
  {| self_tokenizer := get_default components "tokenizer" (self_tokenizer self);
     self_tokenizer_2 := get_default components "tokenizer_2" (self_tokenizer_2 self);
     self_tokenizer_3 := get_default components "tokenizer_3" (self_tokenizer_3 self);
     self_text_encoder := get_default components "text_encoder" (self_text_encoder self);
     self_text_encoder_2 := get_default components "text_encoder_2" (self_text_encoder_2 self);
     self_text_encoder_3 := get_default components "text_encoder_3" (self_text_encoder_3 self);
     self_transformer := get_default components "transformer" (self_transformer self);
     self_unet := get_default components "unet" (self_unet self);
     self_vae := get_default components "vae" (self_vae self);
     self_scheduler := get_default components "scheduler" (self_scheduler self) |}.

Definition _delete_components {C : Type} (self : Components C) : Components C :=
  {| self_tokenizer := None; self_tokenizer_2 := None; self_tokenizer_3 := None;
     self_text_encoder := None; self_text_encoder_2 := None; self_text_encoder_3 := None;
     self_transformer := None; self_unet := None; self_vae := None;
     self_scheduler := None |}.

(** [components.update(other)]: the keys of [other] replace those already
    there. *)
Definition dict_update {C : Type} (components other : gmap string (option C))
    : gmap string (option C) :=
  other ∪ components.

Inductive VaeCall : Type :=
| EnableSlicing
| EnableTiling.

(** prepare_models.  The three loaders of the model configuration are given
    by the dictionaries they return; the result is the trainer's components,
    the calls made on the VAE and [transformer_config]. *)
Definition prepare_models {C Cfg : Type} (args : Args) (enable_slicing enable_tiling : bool)
    (config_of : C -> Cfg)
    (load_condition_models load_latent_models load_diffusion_models : gmap string (option C))
    (self : Components C) : Components C * list VaeCall * option Cfg :=
  let '(condition_components, latent_components, diffusion_components) :=
    if negb (precompute_conditions args)
    then (load_condition_models, load_latent_models, load_diffusion_models)
    else (∅, ∅, ∅) in
  let components := ∅ in
  let components := dict_update components condition_components in
  let components := dict_update components latent_components in
  let components := dict_update components diffusion_components in
  let self := _set_components components self in
  let calls :=
    match self_vae self with
    | Some _ => (if enable_slicing then [EnableSlicing] else [])
                ++ (if enable_tiling then [EnableTiling] else [])
    | None => []
    end in
  (self, calls, config_of <$> self_transformer self).

(** The attribute of the trainer a component name stands for. *)
Definition component {C : Type} (self : Components C) (name : string) : option C :=
  if String.eqb name "tokenizer" then self_tokenizer self
  else if String.eqb name "tokenizer_2" then self_tokenizer_2 self
  else if String.eqb name "tokenizer_3" then self_tokenizer_3 self
  else if String.eqb name "text_encoder" then self_text_encoder self
  else if String.eqb name "text_encoder_2" then self_text_encoder_2 self
  else if String.eqb name "text_encoder_3" then self_text_encoder_3 self
  else if String.eqb name "transformer" then self_transformer self
  else if String.eqb name "unet" then self_unet self
  else if String.eqb name "vae" then self_vae self
  else if String.eqb name "scheduler" then self_scheduler self
  else None.

Definition component_names : list string :=
  ["tokenizer"; "tokenizer_2"; "tokenizer_3"; "text_encoder"; "text_encoder_2";
   "text_encoder_3"; "transformer"; "unet"; "vae"; "scheduler"]%string.

(** A trainer that holds an old VAE and nothing else. *)
Definition toy_components : Components string :=
  {| self_tokenizer := None; self_tokenizer_2 := None; self_tokenizer_3 := None;
     self_text_encoder := None; self_text_encoder_2 := None; self_text_encoder_3 := None;
     self_transformer := None; self_unet := None; self_vae := Some "old vae"%string;
     self_scheduler := None |}.

Definition toy_condition_models : gmap string (option string) :=
  {[ "vae"%string := Some "condition vae"%string ]}.

Definition toy_latent_models : gmap string (option string) :=
  {[ "vae"%string := Some "latent vae"%string ]}.

Definition toy_diffusion_models : gmap string (option string) :=
  {[ "transformer"%string := Some "dit"%string ]}.


(** ** The sigmas of a step (train, lines 690-691) *)

(** [indices = (weights * num_train_timesteps).long()] and
    [sigmas = scheduler_sigmas[indices]], for the density [weights] of the
    batch. *)
Definition sample_sigmas (scheduler : Scheduler) (weights : list Q) : result (list Q) :=
  map_result (py_index (scheduler_sigmas scheduler))
             (map (fun w => long (w * inject_Z (num_train_timesteps scheduler))) weights).

(** A scheduler with four training timesteps. *)
Definition toy_scheduler : Scheduler :=
  {| scheduler_sigmas := [1; 3 # 4; 1 # 2; 1 # 4]%Q; num_train_timesteps := 4 |}.


(** ** Random numbers drawn by caption dropout (train, lines 636-638, 673-675) *)

(** The number of calls of [random.random()] in the conditions part of one
    step: one under "empty" when the conditions are encoded live, one under
    "zero". *)
Definition dropout_draws (args : Args) : nat :=
  (if (negb (precompute_conditions args)
       && String.eqb (caption_dropout_technique args) "empty")%bool then 1 else 0)
  + (if String.eqb (caption_dropout_technique args) "zero" then 1 else 0).

(** The keys the "zero" technique overwrites. *)
Definition zeroed_keys : list string :=
  ["prompt_embeds"; "prompt_attention_mask"; "pooled_prompt_embeds"]%string.

(** ** Saving the artifacts of a validation sample (validate, lines 888-920) *)

(** A file name below [output_dir]:
    [validation-{step}-{process_index}-{prompt_filename}.{extension}]. *)
Record ArtifactFile : Type := {
  af_step : nat;
  af_process : nat;
  af_prompt : string;
  af_extension : string;
}.

#[global] Instance ArtifactFile_eq_dec : EqDecision ArtifactFile.
Proof. solve_decision. Defined.

(** What is appended to [all_processes_artifacts]. *)
Inductive Logged : Type :=
| WandbImage (file : ArtifactFile)
| WandbVideo (file : ArtifactFile) (caption : string).

(** Lines 889-894: the entries of [artifacts] in insertion order, each with
    its type and its value ([None] for Python's None): the input image, the
    input video, then what the pipeline returned. *)
Definition artifact_entries {V : Type} (image video : option V)
    (validation_artifacts : list (string * option V)) : list (string * option V) :=
  ("image"%string, image) :: ("video"%string, video) :: validation_artifacts.

(** Lines 901-920 for one entry: nothing for an unknown type or a value of
    None, otherwise the file written, the value written to it and the
    object logged. *)
Definition save_artifact {V : Type} (step process_index : nat) (prompt_filename prompt : string)
    (entry : string * option V) : option (ArtifactFile * V * Logged) :=
  let '(artifact_type, artifact_value) := entry in
  match artifact_value with
  | None => None
  | Some value =>
      if negb (String.eqb artifact_type "image" || String.eqb artifact_type "video")
      then None
      else
        let extension := if String.eqb artifact_type "image" then "png" else "mp4" in
        let filename := {| af_step := step; af_process := process_index;
                           af_prompt := prompt_filename;
                           af_extension := extension |} in
        Some (filename, value,
              if String.eqb artifact_type "image" then WandbImage filename
              else WandbVideo filename prompt)
  end.

(** Lines 888-920 for one validation sample; [string_to_filename] is the
    helper of the utilities, and [[:25]] keeps the first 25 characters. *)
Definition save_artifacts {V : Type} (string_to_filename : string -> string)
    (step process_index : nat) (prompt : string) (image video : option V)
    (validation_artifacts : list (string * option V)) : list (ArtifactFile * V * Logged) :=
  let prompt_filename := String.substring 0 25 (string_to_filename prompt) in
  omap (save_artifact step process_index prompt_filename prompt)
       (artifact_entries image video validation_artifacts).

(** The content of [file] after the writes, in order: the last value
    written to it. *)
Definition file_content {V : Type} (saved : list (ArtifactFile * V * Logged))
    (file : ArtifactFile) : option V :=
  (fun w => snd (fst w)) <$> last (filter (fun w => fst (fst w) = file) saved).

(** The values of the entries of one type, in order. *)
Definition values_of_type {V : Type} (artifact_type : string)
    (entries : list (string * option V)) : list V :=
  omap (fun entry => if String.eqb (fst entry) artifact_type then snd entry else None) entries.

Definition validation_file (string_to_filename : string -> string) (step process_index : nat)
    (prompt extension : string) : ArtifactFile :=
  {| af_step := step; af_process := process_index;
     af_prompt := String.substring 0 25 (string_to_filename prompt);
     af_extension := extension |}.

(** * Part II: properties *)

(** ** Flow-matching interpolation *)

Section FlowMatching.

Local Open Scope Q_scope.

Lemma bcast_row_same_length (f : Q -> Q -> Q) (a b : list Q) :
  length a = length b -> bcast_row f a b = zip_with f a b.
Proof.
  destruct a as [|x [|x' a]], b as [|y [|y' b]]; simpl; intros Hlen;
    try discriminate; reflexivity.
Qed.

Lemma bcast_row_scalar (f : Q -> Q -> Q) (s : Q) (b : list Q) :
  bcast_row f [s] b = map (f s) b.
Proof. reflexivity. Qed.

Lemma noisy_latents_cons (s : Q) (ss : list Q) (xr nr : list Q) (xs ns : ftensor) :
  length xr = length nr ->
  noisy_latents (s :: ss) (xr :: xs) (nr :: ns)
  = noisy_row s xr nr :: noisy_latents ss xs ns.
Proof.
  intros Hlen. unfold noisy_latents, tadd, tmul, bcast. simpl. f_equal.
  apply bcast_row_same_length. rewrite !length_map. exact Hlen.
Qed.

Lemma noisy_row_lookup (s : Q) (xr nr : list Q) (j : nat) (xv nv : Q) :
  xr !! j = Some xv -> nr !! j = Some nv ->
  noisy_row s xr nr !! j = Some ((1 - s) * xv + s * nv).
Proof.
  intros Hx Hn. unfold noisy_row.
  rewrite lookup_zip_with, !list_lookup_fmap, Hx, Hn. reflexivity.
Qed.

Lemma same_shape_cons_inv (xr nr : list Q) (xs ns : ftensor) :
  same_shape (xr :: xs) (nr :: ns) -> length xr = length nr /\ same_shape xs ns.
Proof. unfold same_shape, shape. simpl. intros H. injection H. auto. Qed.

Lemma same_shape_nil_inv (A : ftensor) :
  (same_shape [] A \/ same_shape A []) -> A = [].
Proof.
  unfold same_shape, shape. destruct A; simpl; [reflexivity|].
  intros [H|H]; discriminate H.
Qed.

Lemma noisy_latents_tget (sigmas : list Q) (x n : ftensor) :
  same_shape x n ->
  forall (b j : nat) (s xv nv : Q),
    sigmas !! b = Some s -> tget x b j = Some xv -> tget n b j = Some nv ->
    tget (noisy_latents sigmas x n) b j = Some ((1 - s) * xv + s * nv).
Proof.
  revert x n. induction sigmas as [|s0 ss IH]; intros x n Hshape b j s xv nv Hs Hx Hn.
  - rewrite lookup_nil in Hs. discriminate.
  - destruct x as [|xr xs]; [destruct b; discriminate Hx|].
    destruct n as [|nr ns]; [destruct b; discriminate Hn|].
    apply same_shape_cons_inv in Hshape as [Hlen Hshape].
    rewrite noisy_latents_cons by exact Hlen.
    destruct b as [|b].
    + simpl in Hs. injection Hs as ->. unfold tget in *. simpl in *.
      apply noisy_row_lookup; assumption.
    + unfold tget in *. simpl in *. apply (IH xs ns Hshape b j); assumption.
Qed.

Lemma noisy_latents_shape (sigmas : list Q) (x n : ftensor) :
  same_shape x n -> length sigmas = length x ->
  same_shape (noisy_latents sigmas x n) x.
Proof.
  revert x n. induction sigmas as [|s ss IH]; intros [|xr xs] [|nr ns] Hshape Hlen;
    try discriminate Hlen; try discriminate Hshape; try reflexivity.
  apply same_shape_cons_inv in Hshape as [Hrow Hshape].
  rewrite noisy_latents_cons by exact Hrow.
  unfold same_shape, shape in *. simpl. f_equal.
  - unfold noisy_row. rewrite length_zip_with, !length_map. lia.
  - apply (IH xs ns Hshape). simpl in Hlen. lia.
Qed.

(** Rows agree entrywise with [h] applied to the clean and the noise entry
    whenever the convex combination does. *)
Lemma noisy_row_pointwise (h : Q -> Q -> Q) (s : Q) (xr nr : list Q) :
  (forall xv nv, (1 - s) * xv + s * nv == h xv nv) ->
  Forall2 Qeq (noisy_row s xr nr) (zip_with h xr nr).
Proof.
  intros Hh. revert nr. induction xr as [|xv xr IH]; intros [|nv nr]; simpl;
    try constructor.
  - apply Hh.
  - apply IH.
Qed.

Lemma noisy_latents_pointwise (P : Q -> Prop) (h : Q -> Q -> Q) :
  (forall s xv nv, P s -> (1 - s) * xv + s * nv == h xv nv) ->
  forall (sigmas : list Q) (x n : ftensor),
    same_shape x n -> length sigmas = length x -> Forall P sigmas ->
    tensor_eq (noisy_latents sigmas x n) (zip_with (zip_with h) x n).
Proof.
  intros Hh. induction sigmas as [|s ss IH]; intros [|xr xs] [|nr ns] Hshape Hlen HP;
    try discriminate Hlen; try discriminate Hshape.
  - constructor.
  - apply same_shape_cons_inv in Hshape as [Hrow Hshape].
    rewrite noisy_latents_cons by exact Hrow.
    apply Forall_cons_1 in HP as [Hs HP].
    constructor.
    + apply noisy_row_pointwise. intros xv nv. apply Hh, Hs.
    + apply IH; [exact Hshape | simpl in Hlen; lia | exact HP].
Qed.

Lemma zip_with_fst_same_shape (x n : ftensor) :
  same_shape x n -> zip_with (zip_with (fun a _ : Q => a)) x n = x.
Proof.
  revert n. induction x as [|xr xs IH]; intros [|nr ns] Hshape;
    try discriminate Hshape; try reflexivity.
  apply same_shape_cons_inv in Hshape as [Hrow Hshape]. simpl. f_equal.
  - clear -Hrow. revert nr Hrow. induction xr as [|a xr IHr]; intros [|c nr] Hrow;
      try discriminate Hrow; try reflexivity.
    simpl. f_equal. apply IHr. simpl in Hrow. lia.
  - apply IH, Hshape.
Qed.

Lemma zip_with_snd_same_shape (x n : ftensor) :
  same_shape x n -> zip_with (zip_with (fun _ c : Q => c)) x n = n.
Proof.
  revert n. induction x as [|xr xs IH]; intros [|nr ns] Hshape;
    try discriminate Hshape; try reflexivity.
  apply same_shape_cons_inv in Hshape as [Hrow Hshape]. simpl. f_equal.
  - clear -Hrow. revert nr Hrow. induction xr as [|a xr IHr]; intros [|c nr] Hrow;
      try discriminate Hrow; try reflexivity.
    simpl. f_equal. apply IHr. simpl in Hrow. lia.
  - apply IH, Hshape.
Qed.

(** C1: for a clean latent [x], a noise tensor [n] of the same shape and one
    sigma per example, every entry of the noisy input formed at line 701 is
    [(1 - sigma) * x + sigma * n] and the noisy input has the shape of [x];
    when every sigma is 0 the noisy input is the clean latent, when every
    sigma is 1 it is the noise, and when every sigma is 1/2 it is the
    arithmetic mean of the two. *)
Theorem C1_noisy_latents_interpolation (sigmas : list Q) (x n : ftensor) :
  same_shape x n ->
  length sigmas = length x ->
  (forall (b j : nat) (s xv nv : Q),
      sigmas !! b = Some s -> tget x b j = Some xv -> tget n b j = Some nv ->
      tget (noisy_latents sigmas x n) b j = Some ((1 - s) * xv + s * nv))
  /\ same_shape (noisy_latents sigmas x n) x
  /\ (Forall (fun s => s == 0) sigmas -> tensor_eq (noisy_latents sigmas x n) x)
  /\ (Forall (fun s => s == 1) sigmas -> tensor_eq (noisy_latents sigmas x n) n)
  /\ (Forall (fun s => s == 1 # 2) sigmas ->
      tensor_eq (noisy_latents sigmas x n)
                (zip_with (zip_with (fun xv nv => (xv + nv) / 2)) x n)).
Proof.
  intros Hshape Hlen. repeat split.
  - apply noisy_latents_tget, Hshape.
  - apply noisy_latents_shape; assumption.
  - intros H0. rewrite <- (zip_with_fst_same_shape x n Hshape) at 2.
    apply (noisy_latents_pointwise (fun s => s == 0)); try assumption.
    intros s xv nv Hs. rewrite Hs. ring.
  - intros H1. rewrite <- (zip_with_snd_same_shape x n Hshape) at 2.
    apply (noisy_latents_pointwise (fun s => s == 1)); try assumption.
    intros s xv nv Hs. rewrite Hs. ring.
  - intros Hhalf.
    apply (noisy_latents_pointwise (fun s => s == 1 # 2)); try assumption.
    intros s xv nv Hs. rewrite Hs. field.
Qed.

Lemma C1_noisy_latents_interpolation_witness :
  same_shape toy_latents toy_noise
  /\ length toy_sigmas = length toy_latents
  /\ tget (noisy_latents toy_sigmas toy_latents toy_noise) 2 1
     = Some ((1 - (1 # 2)) * 6 + (1 # 2) * 12)
  /\ same_shape (noisy_latents toy_sigmas toy_latents toy_noise) toy_latents.
Proof.
  destruct (C1_noisy_latents_interpolation toy_sigmas toy_latents toy_noise eq_refl eq_refl)
    as (Hget & Hshape & _).
  split; [reflexivity|]. split; [reflexivity|]. split.
  - apply Hget; reflexivity.
  - exact Hshape.
Defined.

(** *** Regression target and loss *)

Lemma bcast_tget (f : Q -> Q -> Q) (A B : ftensor) :
  same_shape A B ->
  forall (b j : nat) (u v : Q),
    tget A b j = Some u -> tget B b j = Some v ->
    tget (bcast f A B) b j = Some (f u v).
Proof.
  revert B. induction A as [|ar A IH]; intros [|br B] Hshape b j u v Hu Hv;
    try (destruct b; discriminate Hu); try (destruct b; discriminate Hv).
  apply same_shape_cons_inv in Hshape as [Hrow Hshape].
  unfold bcast. simpl. rewrite bcast_row_same_length by exact Hrow.
  destruct b as [|b]; unfold tget in *; simpl in *.
  - rewrite lookup_zip_with, Hu, Hv. reflexivity.
  - apply (IH B Hshape b j); assumption.
Qed.

Lemma example_errors_row (w : Q) (p n x : list Q) :
  length n = length x -> length p = length x ->
  bcast_row Qmult [w] (map (fun v => v ^ 2) (bcast_row Qminus p (bcast_row Qminus n x)))
  = example_errors w p n x.
Proof.
  intros Hn Hp.
  rewrite (bcast_row_same_length Qminus n x) by exact Hn.
  rewrite (bcast_row_same_length Qminus p) by (rewrite length_zip_with; lia).
  rewrite bcast_row_scalar.
  revert n x Hn Hp. induction p as [|pv p IH]; intros [|nv n] [|xv x] Hn Hp;
    try discriminate Hn; try discriminate Hp; try reflexivity.
  simpl. f_equal. apply IH; simpl in *; lia.
Qed.

Lemma flow_matching_loss_rows (weighting : Q -> Q) (sigmas : list Q)
    (pred noise latents : ftensor) :
  same_shape noise latents -> same_shape pred latents ->
  mean_non_batch
    (tmul (map (map weighting) (expand_tensor_to_dims sigmas))
          (pow2 (tsub pred (target noise latents))))
  = batch_errors weighting sigmas pred noise latents.
Proof.
  revert pred noise latents.
  induction sigmas as [|s ss IH]; intros [|p ps] [|n ns] [|x xs] Hn Hp;
    try discriminate Hn; try discriminate Hp; try reflexivity.
  apply same_shape_cons_inv in Hn as [Hnrow Hn].
  apply same_shape_cons_inv in Hp as [Hprow Hp].
  specialize (IH ps ns xs Hn Hp).
  unfold target in *.
  unfold mean_non_batch, tmul, pow2, tsub, bcast, expand_tensor_to_dims in *.
  cbn [zip_with map batch_errors].
  rewrite IH. f_equal. f_equal.
  apply (example_errors_row (weighting s) p n x Hnrow Hprow).
Qed.

(** C2: the regression target is [noise - clean_latent] entry by entry, and
    the scalar loss of lines 706-718 is the weight of each example's sigma
    times the squared error between prediction and target, averaged over
    the non-batch entries of each example and then over the batch. *)
Theorem C2_target_and_loss (weighting : Q -> Q) (sigmas : list Q)
    (pred noise latents : ftensor) :
  same_shape noise latents ->
  same_shape pred latents ->
  (forall (b j : nat) (nv xv : Q),
      tget noise b j = Some nv -> tget latents b j = Some xv ->
      tget (target noise latents) b j = Some (nv - xv))
  /\ flow_matching_loss weighting sigmas pred noise latents
     = loss_spec weighting sigmas pred noise latents.
Proof.
  intros Hn Hp. split.
  - intros b j nv xv Hnv Hxv. apply (bcast_tget Qminus noise latents Hn b j nv xv Hnv Hxv).
  - unfold flow_matching_loss, loss_spec. cbv zeta.
    rewrite flow_matching_loss_rows by assumption. reflexivity.
Qed.

Lemma C2_target_and_loss_witness :
  same_shape pair_noise pair_latents
  /\ same_shape pair_pred pair_latents
  /\ tget (target pair_noise pair_latents) 1 1 = Some (5 - 2)
  /\ flow_matching_loss pair_weighting pair_sigmas pair_pred pair_noise pair_latents
     == 75 # 16.
Proof.
  destruct (C2_target_and_loss pair_weighting pair_sigmas pair_pred pair_noise pair_latents
              eq_refl eq_refl) as (Htarget & Hloss).
  split; [reflexivity|]. split; [reflexivity|]. split.
  - apply Htarget; reflexivity.
  - rewrite Hloss. reflexivity.
Defined.

(** *** The step forms its noisy input and loss with these functions *)

Lemma randn_shape (shp : list nat) (g : nat -> nat -> Q) : shape (randn shp g) = shp.
Proof.
  unfold shape, randn. revert g. induction shp as [|m shp IH]; intros g; [reflexivity|].
  rewrite imap_cons. simpl. rewrite length_map, length_seq. f_equal.
  apply (IH (fun b => g (S b))).
Qed.

Lemma train_step_output (ext : Externals) (mc : ModelConfig) (args : Args)
    (scheduler : Scheduler) (gauss : nat -> nat -> Q) (batch : Batch) (rng : Random)
    (out : StepOutput) :
  train_step ext mc args scheduler gauss batch rng = inr out ->
  exists latents pred,
    sc_latent_conditions (so_conditions out) !! "latents"%string = Some latents
    /\ same_shape (as_float latents) (so_noise out)
    /\ so_noisy_latents out
       = noisy_latents (so_sigmas out) (as_float latents) (so_noise out)
    /\ so_target out = target (so_noise out) (as_float latents)
    /\ so_loss out
       = flow_matching_loss
           (compute_loss_weighting_for_sd3 ext (flow_weighting_scheme args))
           (so_sigmas out) pred (so_noise out) (as_float latents).
Proof.
  unfold train_step. intros Hrun.
  destruct (step_conditions ext mc args batch rng) as [e|sc]; [discriminate Hrun|].
  simpl in Hrun.
  destruct (map_result _ _) as [e|sigmas]; [discriminate Hrun|]. simpl in Hrun.
  unfold dict_get in Hrun at 1.
  destruct (sc_latent_conditions sc !! "latents"%string) as [latents|] eqn:Hlat;
    [|discriminate Hrun].
  simpl in Hrun.
  destruct (dict_get _ "latents") as [e|pred]; [discriminate Hrun|]. simpl in Hrun.
  injection Hrun as <-. simpl.
  exists latents, (as_float pred). split; [exact Hlat|].
  split; [|repeat split].
  unfold same_shape. rewrite randn_shape. reflexivity.
Qed.

End FlowMatching.

(** ** Round-robin validation *)

Section Validation.

Lemma py_mod_pos (a b : nat) : b <> 0 -> py_mod a b = ret (a mod b).
Proof.
  intros Hb. unfold py_mod. destruct (Nat.eqb_spec b 0); [contradiction | reflexivity].
Qed.

Lemma validation_loop_generated (args : Args) (acc : Accelerator) (indices : list nat) :
  num_processes acc <> 0 ->
  Forall (fun i => i < length (validation_prompts args)) indices ->
  exists events,
    validation_loop args acc indices = inr events
    /\ generated events
       = filter (fun i => i mod num_processes acc = process_index acc) indices.
Proof.
  intros HP. induction indices as [|i rest IH]; intros Hall.
  - exists []. split; reflexivity.
  - apply Forall_cons_1 in Hall as [Hi Hall].
    destruct (IH Hall) as (events & Hloop & Hgen).
    simpl. rewrite (py_mod_pos i _ HP). simpl.
    rewrite filter_cons.
    destruct (Nat.eqb_spec (i mod num_processes acc) (process_index acc)) as [Heq|Hne];
      simpl.
    + destruct (lookup_lt_is_Some_2 _ _ Hi) as [prompt Hprompt].
      rewrite Hprompt, Hloop. simpl.
      exists (Generate i prompt :: events). split; [reflexivity|].
      rewrite decide_True by exact Heq.
      change (generated (Generate i prompt :: events)) with (i :: generated events).
      rewrite Hgen. reflexivity.
    + exists events. split; [exact Hloop|].
      rewrite decide_False by exact Hne. exact Hgen.
Qed.

Lemma validate_generated (args : Args) (acc : Accelerator) :
  1 <= length (validation_prompts args) ->
  1 <= num_processes acc ->
  exists events,
    validate args acc = inr events
    /\ generated events
       = filter (fun i => i mod num_processes acc = process_index acc)
                (seq 0 (length (validation_prompts args))).
Proof.
  intros HV HP. unfold validate.
  destruct (Nat.eqb_spec (length (validation_prompts args)) 0) as [H0|_]; [lia|].
  apply validation_loop_generated; [lia|].
  apply Forall_forall. intros i Hi. apply elem_of_seq in Hi. lia.
Qed.

Lemma assigned_spec (args : Args) (P rank : nat) :
  1 <= length (validation_prompts args) -> 1 <= P ->
  forall i, i ∈ assigned args P rank
            <-> i < length (validation_prompts args) /\ i mod P = rank.
Proof.
  intros HV HP i. unfold assigned.
  destruct (validate_generated args (process P rank) HV HP) as (events & -> & Hgen).
  rewrite elem_of_list_to_set, Hgen, list_elem_of_filter, elem_of_seq. simpl.
  split; intros; intuition lia.
Qed.

(** C7: with [V >= 1] validation prompts and [P >= 1] processes, the
    validation loop of a process generates exactly the prompts whose index
    is congruent to its rank modulo [P], each once and in increasing
    order of index; the sets assigned to the ranks [0 .. P-1] cover
    [{0 .. V-1}] and are pairwise disjoint. *)
Theorem C7_round_robin_validation (args : Args) (P : nat) :
  1 <= length (validation_prompts args) ->
  1 <= P ->
  (forall acc : Accelerator,
      num_processes acc = P ->
      exists events,
        validate args acc = inr events
        /\ NoDup (generated events)
        /\ forall i, i ∈ generated events
                     <-> i < length (validation_prompts args)
                         /\ i mod P = process_index acc)
  /\ ⋃ (map (assigned args P) (seq 0 P))
     = set_seq 0 (length (validation_prompts args))
  /\ (forall r r', r <> r' -> assigned args P r ## assigned args P r').
Proof.
  intros HV HP. split; [|split].
  - intros acc Hacc. subst P.
    destruct (validate_generated args acc HV HP) as (events & Hval & Hgen).
    exists events. split; [exact Hval|]. rewrite Hgen. split.
    + apply NoDup_filter, NoDup_seq.
    + intros i. rewrite list_elem_of_filter, elem_of_seq. intuition lia.
  - apply set_eq. intros i. rewrite elem_of_union_list, elem_of_set_seq. split.
    + intros (X & HX & Hi). apply list_elem_of_In, in_map_iff in HX as (r & <- & _).
      apply (assigned_spec args P r HV HP) in Hi. lia.
    + intros Hi. exists (assigned args P (i mod P)). split.
      * apply list_elem_of_In, in_map_iff. exists (i mod P). split; [reflexivity|].
        apply in_seq. pose proof (Nat.mod_upper_bound i P). lia.
      * apply (assigned_spec args P (i mod P) HV HP). split; [lia | reflexivity].
  - intros r r' Hne i Hr Hr'.
    apply (assigned_spec args P r HV HP) in Hr.
    apply (assigned_spec args P r' HV HP) in Hr'. lia.
Qed.

Lemma C7_round_robin_validation_witness :
  1 <= length (validation_prompts launch_args) /\ 1 <= 2
  /\ ⋃ (map (assigned launch_args 2) (seq 0 2))
     = set_seq 0 (length (validation_prompts launch_args))
  /\ assigned launch_args 2 0 ## assigned launch_args 2 1.
Proof.
  assert (HV : 1 <= length (validation_prompts launch_args)) by (simpl; lia).
  assert (HP : 1 <= 2) by lia.
  destruct (C7_round_robin_validation launch_args 2 HV HP) as (_ & Hcover & Hdisj).
  split; [exact HV|]. split; [exact HP|]. split; [exact Hcover|].
  apply Hdisj. discriminate.
Defined.

End Validation.

(** ** Precomputation *)

Section Precomputation.

Lemma grows_mret {A : Type} (R : exn -> Prop) (P : Event -> Prop) (x : A) :
  grows R P (mret x).
Proof.
  intros w. split; [exact I|]. exists []. simpl. rewrite app_nil_r. auto.
Qed.

Lemma grows_lift {A : Type} (R : exn -> Prop) (P : Event -> Prop) (r : result A) :
  (forall e, r = inl e -> R e) -> grows R P (lift r).
Proof.
  intros Hr w. split.
  - simpl. destruct r; [apply Hr; reflexivity | exact I].
  - exists []. simpl. rewrite app_nil_r. auto.
Qed.

Lemma grows_emit (R : exn -> Prop) (P : Event -> Prop) (e : Event) :
  P e -> grows R P (emit e).
Proof.
  intros He w. split; [exact I|]. exists [e]. simpl. auto.
Qed.

Lemma grows_torch_save (R : exn -> Prop) (P : Event -> Prop) (f : Artifact) :
  P (TorchSave f) -> grows R P (torch_save f).
Proof.
  intros He w. split; [exact I|]. exists [TorchSave f]. simpl. auto.
Qed.

Lemma grows_set_dataloader (R : exn -> Prop) (P : Event -> Prop) (d : Dataloader) :
  grows R P (set_dataloader d).
Proof.
  intros w. split; [exact I|]. exists []. simpl. rewrite app_nil_r. auto.
Qed.

Lemma grows_mbind {A B : Type} (R : exn -> Prop) (P : Event -> Prop)
    (m : M A) (k : A -> M B) :
  grows R P m -> (forall x, grows R P (k x)) -> grows R P (mbind m k).
Proof.
  intros Hm Hk w. unfold mbind. destruct (Hm w) as (Hr & new & Htr & Hnew).
  destruct (m w) as [[e|x] w1]; simpl in *.
  - split; [exact Hr|]. exists new. auto.
  - destruct (Hk x w1) as (Hr' & new' & Htr' & Hnew').
    split; [exact Hr'|]. exists (new ++ new'). split.
    + rewrite Htr', Htr, app_assoc. reflexivity.
    + apply Forall_app. auto.
Qed.

Lemma grows_when (R : exn -> Prop) (P : Event -> Prop) (b : bool) (m : M unit) :
  grows R P m -> grows R P (when b m).
Proof. intros Hm. destruct b; [exact Hm | apply grows_mret]. Qed.

Lemma py_mod_raises (a b : nat) (e : exn) :
  py_mod a b = inl e -> e = ZeroDivisionError.
Proof.
  unfold py_mod. destruct (b =? 0); intros H; [|discriminate H].
  injection H as <-. reflexivity.
Qed.

Lemma grows_conditions_loop (acc : Accelerator) (P : Event -> Prop) (items : list Sample) :
  (forall d, In d items -> P (PrepareConditions (prompt d))) ->
  (forall f, P (TorchSave f)) ->
  forall i index,
    grows (fun e => e = ZeroDivisionError) P (conditions_loop acc i items index).
Proof.
  intros Hprompt Hsave. induction items as [|d rest IH]; intros i index; simpl.
  - apply grows_mret.
  - assert (IH' : forall i index,
               grows (fun e => e = ZeroDivisionError) P (conditions_loop acc i rest index)).
    { apply IH. intros d' Hd'. apply Hprompt. right. exact Hd'. }
    apply grows_mbind.
    + apply grows_lift. apply py_mod_raises.
    + intros r. destruct (negb (r =? process_index acc)); [apply IH'|].
      apply grows_mbind; [apply grows_emit, Hprompt; left; reflexivity|]. intros _.
      apply grows_mbind; [apply grows_torch_save, Hsave|]. intros _. apply IH'.
Qed.

Lemma grows_latents_loop (acc : Accelerator) (P : Event -> Prop) (items : list Sample) :
  (forall v, P (PrepareLatents v)) ->
  (forall f, P (TorchSave f)) ->
  forall i index,
    grows (fun e => e = ZeroDivisionError) P (latents_loop acc i items index).
Proof.
  intros Hlat Hsave. induction items as [|d rest IH]; intros i index; simpl.
  - apply grows_mret.
  - apply grows_mbind.
    + apply grows_lift. apply py_mod_raises.
    + intros r. destruct (negb (r =? process_index acc)); [apply IH|].
      apply grows_mbind; [apply grows_emit, Hlat|]. intros _.
      apply grows_mbind; [apply grows_torch_save, Hsave|]. intros _. apply IH.
Qed.

Lemma grows_encode_and_store (args : Args) (acc : Accelerator) (dataset : list Sample) :
  grows (fun e => e = ZeroDivisionError)
        (fun e => forall s, e = PrepareConditions s -> In s (map prompt dataset))
        (encode_and_store args acc dataset).
Proof.
  unfold encode_and_store.
  repeat (first
    [ apply grows_set_dataloader
    | apply grows_mbind; [|intros _]
    | apply grows_emit; intros s Hs; discriminate Hs
    | apply grows_latents_loop; intros ? s Hs; discriminate Hs
    | apply grows_conditions_loop;
      [ intros d Hd s Hs; injection Hs as <-; apply in_map; exact Hd
      | intros f s Hs; discriminate Hs ] ]).
Qed.

Lemma prepare_precomputations_enabled (ext : Externals) (args : Args)
    (acc : Accelerator) (dataset : list Sample) (w : World) :
  precompute_conditions args = true ->
  prepare_precomputations ext args acc dataset w
  = if negb (batch_size args =? 1) then
      (inl (ValueError batch_size_error),
       after [LogInfo "Initializing precomputations"] w)
    else if negb (should_perform_precomputation ext (w_files w)) then
      set_dataloader (PrecomputedLoader (batch_size args))
        (after [LogInfo "Initializing precomputations";
                LogInfo "Precomputed conditions and latents found. Loading precomputed data."] w)
    else
      (when (Qltb 0 (caption_dropout_p args)
             && String.eqb (caption_dropout_technique args) "empty")
            (emit (LogWarning dropout_warning)) >>
       encode_and_store args acc dataset)
        (after [LogInfo "Initializing precomputations";
                LogInfo "Precomputed conditions and latents not found. Running precomputation.";
                LoadConditionModels] w).
Proof.
  intros Hpre. unfold prepare_precomputations. rewrite Hpre.
  destruct (negb (batch_size args =? 1)) eqn:Hbs;
    cbn [negb mbind emit fst snd ret]; rewrite ?Hbs; [reflexivity|].
  cbn [w_files]. destruct (negb (should_perform_precomputation ext (w_files w)));
    cbn [negb mbind emit fst snd ret after w_files w_dataloader w_trace];
    rewrite <- ?app_assoc; reflexivity.
Qed.

(** C5: with precomputation enabled and a batch size other than 1,
    [prepare_precomputations] raises the ValueError "Precomputation is only
    supported with batch size 1 ..." having only logged that precomputation
    starts: nothing was encoded and no artifact written.  With batch size 1
    that error is not raised, whatever else the method does. *)
Theorem C5_precomputation_batch_size (ext : Externals) (args : Args)
    (acc : Accelerator) (dataset : list Sample) (w : World) :
  precompute_conditions args = true ->
  (batch_size args <> 1 ->
   prepare_precomputations ext args acc dataset w
   = (inl (ValueError batch_size_error),
      {| w_files := w_files w;
         w_dataloader := w_dataloader w;
         w_trace := w_trace w ++ [LogInfo "Initializing precomputations"] |}))
  /\ (batch_size args = 1 ->
      fst (prepare_precomputations ext args acc dataset w)
      <> inl (ValueError batch_size_error)).
Proof.
  intros Hpre. rewrite (prepare_precomputations_enabled ext args acc dataset w Hpre).
  split.
  - intros Hbs. destruct (Nat.eqb_spec (batch_size args) 1); [contradiction|].
    reflexivity.
  - intros Hbs. rewrite Hbs. simpl.
    destruct (should_perform_precomputation ext (w_files w)); simpl; [|discriminate].
    match goal with |- fst (?m ?w0) <> _ =>
      assert (Hg : grows (fun e => e = ZeroDivisionError) (fun _ => True) m)
    end.
    { apply grows_mbind.
      - apply grows_when, grows_emit. exact I.
      - intros _. intros w0. destruct (grows_encode_and_store args acc dataset w0)
          as (Hr & new & Htr & _).
        split; [exact Hr|]. exists new. split; [exact Htr|].
        apply Forall_forall. intros; exact I. }
    match goal with |- fst (?m ?w0) <> _ => destruct (Hg w0) as [Hr _] end.
    destruct (fst _) as [e|[]]; [subst e|]; discriminate.
Qed.

Lemma C5_precomputation_batch_size_witness :
  precompute_conditions batched_args = true
  /\ batch_size batched_args <> 1
  /\ prepare_precomputations toy_externals batched_args (process 1 0) two_samples
       empty_world
     = (inl (ValueError batch_size_error),
        {| w_files := []; w_dataloader := BucketedLoader;
           w_trace := [LogInfo "Initializing precomputations"] |}).
Proof.
  split; [reflexivity|]. split; [discriminate|].
  apply (C5_precomputation_batch_size toy_externals batched_args (process 1 0)
           two_samples empty_world eq_refl).
  discriminate.
Defined.



Lemma Qltb_true (a b : Q) : (a < b)%Q -> Qltb a b = true.
Proof.
  intros Hlt. unfold Qltb. destruct (Qle_bool b a) eqn:Hle; [|reflexivity].
  apply Qle_bool_iff in Hle. exfalso. apply (Qlt_not_le a b Hlt Hle).
Qed.

Lemma Qltb_false (a b : Q) : ~ (a < b)%Q -> Qltb a b = false.
Proof.
  intros Hnlt. unfold Qltb. destruct (Qle_bool b a) eqn:Hle; [reflexivity|].
  exfalso. apply Hnlt. apply Qnot_le_lt. intros Hba.
  apply Qle_bool_iff in Hba. congruence.
Qed.

(** When precomputation runs with caption dropout configured as "empty",
    the warning of line 236 is logged and the prompts handed to
    [prepare_conditions] are prompts of the dataset. *)
Lemma precomputation_warns_and_keeps_prompts (ext : Externals) (args : Args)
    (acc : Accelerator) (dataset : list Sample) (w : World) :
  precompute_conditions args = true ->
  batch_size args = 1 ->
  should_perform_precomputation ext (w_files w) = true ->
  (0 < caption_dropout_p args)%Q ->
  caption_dropout_technique args = "empty"%string ->
  exists new,
    w_trace (snd (prepare_precomputations ext args acc dataset w)) = w_trace w ++ new
    /\ In (LogWarning dropout_warning) new
    /\ forall s, In (PrepareConditions s) new -> In s (map prompt dataset).
Proof.
  intros Hpre Hbs Hrun Hp Htech.
  rewrite (prepare_precomputations_enabled ext args acc dataset w Hpre).
  rewrite Hbs, Hrun, Htech, (Qltb_true _ _ Hp). simpl.
  unfold mbind at 1. simpl.
  match goal with |- context [encode_and_store args acc dataset ?w0] =>
    destruct (grows_encode_and_store args acc dataset w0) as (_ & new & Htr & Hnew)
  end.
  rewrite Htr. simpl. rewrite <- !app_assoc.
  eexists. split; [reflexivity|]. split.
  - simpl. auto 6.
  - intros s Hs. simpl in Hs.
    destruct Hs as [Hs|[Hs|[Hs|[Hs|Hs]]]]; try discriminate Hs.
    rewrite Forall_forall in Hnew. apply (Hnew (PrepareConditions s)).
    + apply list_elem_of_In. exact Hs.
    + reflexivity.
Qed.

End Precomputation.

(** ** The adapter load hook *)

Section LoadHook.

Lemma pop_models_all (cls : string) (popped : list Model) (found : option Model) :
  Forall (fun m => m_class m = cls) popped ->
  pop_models cls popped found = ret (from_option Some found (last popped)).
Proof.
  revert found. induction popped as [|m rest IH]; intros found Hall; [reflexivity|].
  apply Forall_cons_1 in Hall as [Hm Hall]. simpl.
  rewrite Hm, String.eqb_refl, (IH (Some m) Hall), (last_cons m rest).
  destruct (last rest); reflexivity.
Qed.

Lemma hook_finds_model (args : Args) (acc : Accelerator)
    (transformer from_pretrained : Model) (load_adapter : Model -> Model)
    (models : list Model) (m0 : Model) :
  hook_model acc transformer from_pretrained models m0 ->
  load_model_hook args acc transformer from_pretrained load_adapter models
  = if String.eqb (mixed_precision args) "fp16"
    then ret (cast_training_params (load_adapter m0) float32)
    else ret (load_adapter m0).
Proof.
  intros [[Hds ->]|(Hds & Hhead & Hall)]; unfold load_model_hook; rewrite Hds; simpl.
  - reflexivity.
  - destruct models as [|m rest]; [discriminate Hhead|].
    injection Hhead as ->.
    rewrite (pop_models_all (m_class transformer) (rev (m0 :: rest)) None).
    + simpl rev. rewrite last_snoc. reflexivity.
    + apply Forall_forall. intros m Hm. rewrite Forall_forall in Hall. apply Hall.
      apply list_elem_of_In. apply list_elem_of_In, in_rev in Hm. exact Hm.
Qed.

Lemma cast_parameter_lookup (dt : dtype) (ps : list Param) (i : nat) (p : Param) :
  ps !! i = Some p ->
  exists p', map (cast_parameter dt) ps !! i = Some p'
    /\ p_name p' = p_name p
    /\ p_requires_grad p' = p_requires_grad p
    /\ (p_requires_grad p = true -> p_dtype p' = dt)
    /\ (p_requires_grad p = false -> p_dtype p' = p_dtype p).
Proof.
  intros Hp. exists (cast_parameter dt p). split.
  - change (map (cast_parameter dt) ps) with (cast_parameter dt <$> ps).
    rewrite list_lookup_fmap, Hp. reflexivity.
  - unfold cast_parameter. destruct (p_requires_grad p) eqn:Hg; simpl;
      repeat split; auto; discriminate.
Qed.

(** C9 (amended): in the load hook, once the adapter weights are loaded
    into the model, if mixed precision is "fp16" every trainable
    parameter of that model is cast to float32 and every frozen parameter
    keeps its dtype; for any other setting, bf16 included, the hook casts
    nothing. *)
Theorem C9_load_hook_upcasts_under_fp16 (args : Args) (acc : Accelerator)
    (transformer from_pretrained : Model) (load_adapter : Model -> Model)
    (models : list Model) (m0 : Model) :
  keeps_parameters load_adapter ->
  hook_model acc transformer from_pretrained models m0 ->
  exists m,
    load_model_hook args acc transformer from_pretrained load_adapter models = inr m
    /\ (mixed_precision args = "fp16"%string ->
        adapter_in_float32 m
        /\ forall i p, m_parameters m0 !! i = Some p ->
             exists p', m_parameters m !! i = Some p'
               /\ p_name p' = p_name p
               /\ p_requires_grad p' = p_requires_grad p
               /\ (p_requires_grad p = true -> p_dtype p' = float32)
               /\ (p_requires_grad p = false -> p_dtype p' = p_dtype p))
    /\ (mixed_precision args <> "fp16"%string ->
        m_parameters m = m_parameters m0).
Proof.
  intros Hkeep Hmodel.
  rewrite (hook_finds_model args acc transformer from_pretrained load_adapter models m0 Hmodel).
  destruct (String.eqb_spec (mixed_precision args) "fp16") as [Hfp|Hfp].
  - eexists. split; [reflexivity|]. split; [|intros Hne; contradiction].
    intros _. simpl. rewrite Hkeep. split.
    + unfold adapter_in_float32. simpl. rewrite Hkeep.
      apply Forall_forall. intros p Hp.
      apply list_elem_of_In, in_map_iff in Hp as (q & <- & _).
      unfold cast_parameter. destruct (p_requires_grad q) eqn:Hq; simpl; congruence.
    + intros i p Hp. apply cast_parameter_lookup, Hp.
  - eexists. split; [reflexivity|]. split; [intros Heq; contradiction|].
    intros _. apply Hkeep.
Qed.

Lemma C9_load_hook_upcasts_under_fp16_witness :
  keeps_parameters (fun m => m)
  /\ hook_model (process 1 0) fp16_transformer fp16_transformer [fp16_transformer]
       fp16_transformer
  /\ exists m,
       load_model_hook fp16_args (process 1 0) fp16_transformer fp16_transformer
         (fun m => m) [fp16_transformer] = inr m
       /\ map p_dtype (m_parameters m) = [float16; float32].
Proof.
  assert (Hkeep : keeps_parameters (fun m : Model => m)) by (intros m; reflexivity).
  assert (Hmodel : hook_model (process 1 0) fp16_transformer fp16_transformer
                     [fp16_transformer] fp16_transformer).
  { right. split; [reflexivity|]. split; [reflexivity|]. repeat constructor. }
  split; [exact Hkeep|]. split; [exact Hmodel|].
  destruct (C9_load_hook_upcasts_under_fp16 fp16_args (process 1 0)
              fp16_transformer fp16_transformer (fun m => m) [fp16_transformer]
              fp16_transformer Hkeep Hmodel) as (m & Hrun & _).
  exists m. split; [exact Hrun|].
  vm_compute in Hrun. injection Hrun as <-. reflexivity.
Defined.

(** C9 as stated fails under bf16: the hook returns the model with its
    trainable adapter weight still in bfloat16. *)
Lemma C9_bf16_adapter_not_upcast :
  mixed_precision launch_args = "bf16"%string
  /\ half_width bfloat16
  /\ keeps_parameters (fun m => m)
  /\ load_model_hook launch_args (process 1 0) bf16_transformer bf16_transformer
                     (fun m => m) [bf16_transformer]
     = inr bf16_transformer
  /\ ~ adapter_in_float32 bf16_transformer.
Proof.
  split; [reflexivity|]. split; [right; reflexivity|].
  split; [intros m; reflexivity|]. split; [reflexivity|].
  unfold adapter_in_float32, bf16_transformer. simpl. intros Hall.
  apply Forall_cons_1 in Hall as [_ Hall].
  apply Forall_cons_1 in Hall as [Hlora _].
  specialize (Hlora eq_refl). discriminate Hlora.
Qed.

End LoadHook.

(** ** The training loop *)

Section TrainLoop.

Lemma bind_inr {A B : Type} (r : result A) (k : A -> result B) (y : B) :
  bind r k = inr y -> exists x, r = inr x /\ k x = inr y.
Proof. destruct r as [e|x]; simpl; intros H; [discriminate H | eauto]. Qed.

Lemma micro_batches_snoc (tr : list LoopEvent) (gs c : nat) (m : MicroBatch) :
  micro_batches {| global_step := gs; accelerator_step := c;
                   loop_trace := tr ++ [Micro m] |}
  = omap (fun e => match e with Micro m => Some m | EpochValidation _ _ => None end) tr
    ++ [m].
Proof. unfold micro_batches. simpl. rewrite omap_app. reflexivity. Qed.

(** An invariant of the loop state that every micro-batch and every
    epoch-triggered validation preserves holds after the loops. *)
Lemma step_loop_invariant (I : LoopState -> Prop) (args : Args) (acc : Accelerator)
    (plan : TrainPlan) (epoch : nat) :
  (forall step st st', I st -> micro_batch args acc plan epoch step st = inr st' -> I st') ->
  forall steps st st',
    I st -> step_loop args acc plan epoch steps st = inr st' -> I st'.
Proof.
  intros Hmb. induction steps as [|step rest IH]; intros st st' Hinv Hrun; simpl in Hrun.
  - injection Hrun as <-. exact Hinv.
  - apply bind_inr in Hrun as (st1 & Hstep & Hrun).
    pose proof (Hmb _ _ _ Hinv Hstep) as Hinv1.
    destruct (train_steps plan <=? global_step st1).
    + injection Hrun as <-. exact Hinv1.
    + apply (IH st1 st' Hinv1 Hrun).
Qed.

Lemma epoch_loop_invariant (I : LoopState -> Prop) (args : Args) (acc : Accelerator)
    (plan : TrainPlan) :
  (forall epoch step st st',
      I st -> micro_batch args acc plan epoch step st = inr st' -> I st') ->
  (forall epoch st,
      I st ->
      I {| global_step := global_step st;
           accelerator_step := accelerator_step st;
           loop_trace := loop_trace st ++ [EpochValidation epoch (global_step st)] |}) ->
  forall epochs st st',
    I st -> epoch_loop args acc plan epochs st = inr st' -> I st'.
Proof.
  intros Hmb Hval. induction epochs as [|epoch rest IH]; intros st st' Hinv Hrun;
    simpl in Hrun.
  - injection Hrun as <-. exact Hinv.
  - apply bind_inr in Hrun as (st1 & Hbody & Hrun).
    apply (IH st1 st'); [|exact Hrun].
    unfold epoch_body in Hbody.
    apply bind_inr in Hbody as (st2 & Hsteps & Hbody).
    apply bind_inr in Hbody as (val & _ & Hbody).
    pose proof (step_loop_invariant I args acc plan epoch (Hmb epoch) _ _ _ Hinv Hsteps)
      as Hinv2.
    injection Hbody as <-. destruct val; [apply Hval|]; exact Hinv2.
Qed.

Lemma micro_batch_checkpoints (args : Args) (acc : Accelerator) (plan : TrainPlan)
    (epoch step : nat) (st st' : LoopState) :
  checkpoints_at_sync st ->
  micro_batch args acc plan epoch step st = inr st' ->
  checkpoints_at_sync st'.
Proof.
  intros Hinv Hrun. unfold micro_batch in Hrun.
  apply bind_inr in Hrun as ([sync counter] & _ & Hrun).
  apply bind_inr in Hrun as ([gs ckpt] & Hupd & Hrun).
  apply bind_inr in Hrun as (val & _ & Hrun).
  injection Hrun as <-. unfold checkpoints_at_sync. rewrite micro_batches_snoc.
  apply Forall_app. split; [exact Hinv|]. constructor; [|constructor]. simpl.
  intros Hckpt. destruct sync; [reflexivity|].
  injection Hupd as _ <-. discriminate Hckpt.
Qed.

Lemma micro_batch_bounded (args : Args) (acc : Accelerator) (plan : TrainPlan)
    (epoch step : nat) (st st' : LoopState) :
  steps_bounded st ->
  micro_batch args acc plan epoch step st = inr st' ->
  steps_bounded st'.
Proof.
  intros Hinv Hrun. unfold micro_batch in Hrun.
  apply bind_inr in Hrun as ([sync counter] & _ & Hrun).
  apply bind_inr in Hrun as ([gs ckpt] & Hupd & Hrun).
  apply bind_inr in Hrun as (val & _ & Hrun).
  assert (Hgs : global_step st <= gs).
  { destruct sync.
    - destruct (is_deepspeed acc || is_main_process acc)%bool.
      + apply bind_inr in Hupd as (r & _ & Hupd). injection Hupd as <- _. lia.
      + injection Hupd as <- _. lia.
    - injection Hupd as <- _. lia. }
  injection Hrun as <-. unfold steps_bounded. rewrite micro_batches_snoc. simpl.
  apply Forall_app. split.
  - eapply Forall_impl; [exact Hinv|]. simpl. intros m Hm. lia.
  - constructor; [simpl; lia | constructor].
Qed.

Lemma epoch_validation_micro_batches (st : LoopState) (epoch : nat) :
  micro_batches {| global_step := global_step st;
                   accelerator_step := accelerator_step st;
                   loop_trace := loop_trace st ++ [EpochValidation epoch (global_step st)] |}
  = micro_batches st.
Proof. unfold micro_batches. simpl. rewrite omap_app. simpl. apply app_nil_r. Qed.

(** Every checkpoint of a run is saved on a micro-batch that synchronised
    gradients (lines 741-753), and [global_step] never decreases. *)
Lemma train_checkpoints_at_sync (args : Args) (acc : Accelerator) (plan : TrainPlan)
    (resume_step : option nat) (counter : nat) (st : LoopState) :
  train args acc plan resume_step counter = inr st ->
  checkpoints_at_sync st /\ steps_bounded st.
Proof.
  unfold train.
  destruct (get_latest_ckpt_path_to_resume_from _ _) as [[initial gs] first_epoch].
  intros Hrun. split.
  - apply (epoch_loop_invariant checkpoints_at_sync args acc plan) in Hrun.
    + exact Hrun.
    + intros epoch step. apply micro_batch_checkpoints.
    + intros epoch st0 Hinv. unfold checkpoints_at_sync.
      rewrite epoch_validation_micro_batches. exact Hinv.
    + constructor.
  - apply (epoch_loop_invariant steps_bounded args acc plan) in Hrun.
    + exact Hrun.
    + intros epoch step. apply micro_batch_bounded.
    + intros epoch st0 Hinv. unfold steps_bounded.
      rewrite epoch_validation_micro_batches. exact Hinv.
    + constructor.
Qed.

(** *** A fresh run stops at [train_steps] *)

Lemma div_succ (k G : nat) :
  G <> 0 -> (k + 1) / G = k / G + (if (k + 1) mod G =? 0 then 1 else 0).
Proof.
  intros HG.
  pose proof (Nat.div_mod_eq k G) as Hk.
  pose proof (Nat.mod_upper_bound k G HG) as Hr.
  destruct (Nat.eq_dec (k mod G + 1) G) as [Hlast|Hmid].
  - assert (Hd : (k + 1) / G = k / G + 1)
      by (symmetry; apply (Nat.div_unique (k + 1) G (k / G + 1) 0); nia).
    assert (Hm : (k + 1) mod G = 0)
      by (symmetry; apply (Nat.mod_unique (k + 1) G (k / G + 1) 0); nia).
    rewrite Hd, Hm. reflexivity.
  - assert (Hd : (k + 1) / G = k / G)
      by (symmetry; apply (Nat.div_unique (k + 1) G (k / G) (k mod G + 1)); nia).
    assert (Hm : (k + 1) mod G = k mod G + 1)
      by (symmetry; apply (Nat.mod_unique (k + 1) G (k / G) (k mod G + 1)); nia).
    rewrite Hd, Hm. destruct (Nat.eqb_spec (k mod G + 1) 0); lia.
Qed.

Lemma ceil_last (k G : nat) : G <> 0 -> (k + 1 + G - 1) / G = k / G + 1.
Proof.
  intros HG. replace (k + 1 + G - 1) with (k + 1 * G) by lia.
  apply Nat.div_add. exact HG.
Qed.

Lemma ceil_bounds (T E : nat) :
  E <> 0 -> T <= ((T + E - 1) / E) * E /\ (0 < T -> ((T + E - 1) / E - 1) * E < T).
Proof.
  intros HE.
  pose proof (Nat.div_mod_eq (T + E - 1) E) as Hd.
  pose proof (Nat.mod_upper_bound (T + E - 1) E HE) as Hr.
  split; [nia|]. intros HT. nia.
Qed.

(** The updates of an epoch are [ceil(len / accumulation_steps)]. *)
Lemma syncs_from (G L : nat) :
  G <> 0 ->
  forall n k, k + n = L ->
    (if n =? 0 then (L + G - 1) / G else k / G) + syncs G L k n = (L + G - 1) / G.
Proof.
  intros HG. induction n as [|n IH]; intros k Hk; [simpl; lia|].
  simpl syncs. specialize (IH (S k) ltac:(lia)).
  change (S n =? 0) with false. cbv iota. unfold sync_at.
  destruct n as [|n].
  - replace (k + 1 =? L) with true by (symmetry; apply Nat.eqb_eq; lia).
    simpl. subst L. rewrite ceil_last by exact HG. lia.
  - replace (k + 1 =? L) with false by (symmetry; apply Nat.eqb_neq; lia).
    change (S (S n) =? 0) with false in *. simpl orb.
    change (S n =? 0) with false in IH. cbv iota in IH.
    replace (S k / G) with ((k + 1) / G) in IH by (f_equal; lia).
    rewrite (div_succ k G HG) in IH.
    destruct ((k + 1) mod G =? 0); lia.
Qed.

Lemma syncs_epoch (G L : nat) :
  G <> 0 -> 1 <= L -> syncs G L 0 L = (L + G - 1) / G.
Proof.
  intros HG HL. pose proof (syncs_from G L HG L 0 eq_refl) as H.
  destruct (Nat.eqb_spec L 0); [lia|]. rewrite Nat.Div0.div_0_l in H. lia.
Qed.

Lemma do_sync_at (G L k : nat) :
  G <> 0 ->
  do_sync G L k k = inr (sync_at G L k, if k + 1 =? L then 0 else k + 1).
Proof.
  intros HG. unfold do_sync, sync_at. destruct (k + 1 =? L); [reflexivity|].
  rewrite (py_mod_pos _ _ HG). reflexivity.
Qed.

Lemma micro_batch_result (args : Args) (acc : Accelerator) (plan : TrainPlan)
    (epoch step : nat) (st : LoopState) (sync : bool) (counter : nat) :
  valid_divisors args ->
  do_sync (gradient_accumulation_steps args) (dataloader_length plan)
          (accelerator_step st) step = inr (sync, counter) ->
  exists st',
    micro_batch args acc plan epoch step st = inr st'
    /\ global_step st' = global_step st + (if sync then 1 else 0)
    /\ accelerator_step st' = counter.
Proof.
  intros (HG & Hck & Hval & _) Hsync. unfold micro_batch. rewrite Hsync. simpl.
  assert (Hupd : exists ckpt,
             (if sync
              then if (is_deepspeed acc || is_main_process acc)%bool
                   then bind (py_mod (global_step st + 1) (checkpointing_steps args))
                             (fun r => ret (global_step st + 1, r =? 0))
                   else ret (global_step st + 1, false)
              else ret (global_step st, false))
             = inr (global_step st + (if sync then 1 else 0), ckpt)).
  { destruct sync.
    - destruct (is_deepspeed acc || is_main_process acc)%bool.
      + rewrite (py_mod_pos _ _ Hck). simpl. eauto.
      + simpl. eauto.
    - simpl. rewrite Nat.add_0_r. eauto. }
  destruct Hupd as (ckpt & ->). simpl.
  destruct (validation_every_n_steps args) as [n|] eqn:Hn.
  - rewrite (py_mod_pos _ _ (Hval n eq_refl)). simpl. eauto.
  - simpl. eauto.
Qed.

Lemma step_loop_fresh (args : Args) (acc : Accelerator) (plan : TrainPlan) (epoch : nat) :
  valid_divisors args ->
  forall n k st,
    k + n = dataloader_length plan ->
    (0 < n -> accelerator_step st = k) ->
    global_step st < train_steps plan ->
    exists st',
      step_loop args acc plan epoch (seq k n) st = inr st'
      /\ (global_step st
          + syncs (gradient_accumulation_steps args) (dataloader_length plan) k n
          < train_steps plan ->
          global_step st'
          = global_step st
            + syncs (gradient_accumulation_steps args) (dataloader_length plan) k n
          /\ (0 < n -> accelerator_step st' = 0))
      /\ (train_steps plan
          <= global_step st
             + syncs (gradient_accumulation_steps args) (dataloader_length plan) k n ->
          global_step st' = train_steps plan).
Proof.
  intros Hvalid. induction n as [|n IH]; intros k st Hk Hcounter Hlt.
  - exists st. simpl. split; [reflexivity|]. split; intros; [split|]; lia.
  - simpl seq. simpl step_loop. simpl syncs.
    pose proof (do_sync_at (gradient_accumulation_steps args) (dataloader_length plan) k
                  (proj1 Hvalid)) as Hsync.
    rewrite <- (Hcounter ltac:(lia)) in Hsync at 1.
    destruct (micro_batch_result args acc plan epoch k st _ _ Hvalid Hsync)
      as (st1 & -> & Hgs1 & Hc1).
    simpl. set (d := if sync_at _ _ k then 1 else 0) in *.
    assert (Hd : d <= 1) by (unfold d; destruct (sync_at _ _ k); lia).
    destruct (Nat.leb_spec (train_steps plan) (global_step st1)) as [Hbreak|Hgo].
    + exists st1. split; [reflexivity|]. split; intros; [split|]; lia.
    + destruct (IH (S k) st1) as (st' & Hloop & Hbelow & Hreach); [lia| |exact Hgo|].
      * intros Hn. rewrite Hc1.
        destruct (Nat.eqb_spec (k + 1) (dataloader_length plan)); lia.
      * exists st'. split; [exact Hloop|]. rewrite Hgs1 in Hbelow, Hreach.
        split.
        -- intros Hb. destruct (Hbelow ltac:(lia)) as [Hg Hz]. split; [lia|].
           intros _. destruct n as [|n].
           ++ simpl in Hloop. injection Hloop as <-. rewrite Hc1.
              replace (k + 1 =? dataloader_length plan) with true
                by (symmetry; apply Nat.eqb_eq; lia).
              reflexivity.
           ++ apply Hz. lia.
        -- intros Hr. apply Hreach. lia.
Qed.

Lemma epoch_body_fresh (args : Args) (acc : Accelerator) (plan : TrainPlan)
    (epoch : nat) (st : LoopState) :
  valid_divisors args ->
  1 <= dataloader_length plan ->
  accelerator_step st = 0 ->
  global_step st < train_steps plan ->
  exists st',
    epoch_body args acc plan epoch st = inr st'
    /\ (global_step st
        + (dataloader_length plan + gradient_accumulation_steps args - 1)
          / gradient_accumulation_steps args < train_steps plan ->
        global_step st'
        = global_step st
          + (dataloader_length plan + gradient_accumulation_steps args - 1)
            / gradient_accumulation_steps args
        /\ accelerator_step st' = 0)
    /\ (train_steps plan
        <= global_step st
           + (dataloader_length plan + gradient_accumulation_steps args - 1)
             / gradient_accumulation_steps args ->
        global_step st' = train_steps plan).
Proof.
  intros Hvalid HL Hc Hlt. unfold epoch_body.
  destruct (step_loop_fresh args acc plan epoch Hvalid (dataloader_length plan) 0 st
              eq_refl (fun _ => Hc) Hlt) as (st1 & -> & Hbelow & Hreach).
  rewrite (syncs_epoch _ _ (proj1 Hvalid) HL) in Hbelow, Hreach. simpl.
  assert (Hv : exists v,
             match validation_every_n_epochs args with
             | None => ret false
             | Some n => bind (py_mod (epoch + 1) n) (fun r => ret (r =? 0))
             end = inr v).
  { destruct Hvalid as (_ & _ & _ & Hep).
    destruct (validation_every_n_epochs args) as [n|].
    - rewrite (py_mod_pos _ _ (Hep n eq_refl)). simpl. eauto.
    - eauto. }
  destruct Hv as (v & ->). simpl. eexists. split; [reflexivity|].
  destruct v; simpl;
    (split; [intros H; destruct (Hbelow H) as [Hg Hz]; split; [exact Hg | apply Hz; lia]
            | exact Hreach]).
Qed.

Lemma epoch_loop_fresh (args : Args) (acc : Accelerator) (plan : TrainPlan) :
  valid_divisors args ->
  1 <= dataloader_length plan ->
  let per_epoch :=
    (dataloader_length plan + gradient_accumulation_steps args - 1)
    / gradient_accumulation_steps args in
  train_steps plan <= train_epochs plan * per_epoch ->
  (train_epochs plan - 1) * per_epoch < train_steps plan ->
  forall n e st,
    e + n = train_epochs plan ->
    accelerator_step st = 0 ->
    global_step st = e * per_epoch ->
    0 < n ->
    exists st', epoch_loop args acc plan (seq e n) st = inr st'
                /\ global_step st' = train_steps plan.
Proof.
  intros Hvalid HL per_epoch Hup Hlow.
  induction n as [|n IH]; intros e st He Hc Hg Hn; [lia|].
  simpl seq. simpl epoch_loop.
  assert (Hlt : global_step st < train_steps plan) by nia.
  destruct (epoch_body_fresh args acc plan e st Hvalid HL Hc Hlt)
    as (st1 & -> & Hbelow & Hreach).
  fold per_epoch in Hbelow, Hreach. simpl.
  destruct (Nat.lt_ge_cases (global_step st + per_epoch) (train_steps plan)) as [Hb|Hr].
  - destruct (Hbelow Hb) as [Hg1 Hc1].
    apply (IH (S e) st1); [lia | exact Hc1 | nia |].
    destruct n; [|lia]. exfalso. nia.
  - specialize (Hreach Hr). destruct n as [|n].
    + exists st1. split; [reflexivity | exact Hreach].
    + exfalso. nia.
Qed.

(** X1: on a fresh run with non-zero moduli and a non-empty dataloader, the
    loop of [train] returns with [global_step = train_steps] and no
    micro-batch is left above it: the epoch in which the step loop breaks
    is the last one. *)
Lemma train_fresh_run_stops_at_train_steps (args : Args) (acc : Accelerator)
    (len_dataloader steps epochs : nat) (plan : TrainPlan) :
  valid_divisors args ->
  1 <= len_dataloader ->
  prepare_for_training args len_dataloader steps epochs false = inr plan ->
  train_steps plan = steps
  /\ exists st,
       train args acc plan None 0 = inr st
       /\ global_step st = steps
       /\ Forall (fun m => mb_global_step m <= steps) (micro_batches st).
Proof.
  intros Hvalid HL Hplan. unfold prepare_for_training, ceil_div in Hplan.
  destruct (Nat.eqb_spec (gradient_accumulation_steps args) 0) as [HG|HG];
    [discriminate Hplan|]. simpl in Hplan.
  set (per_epoch := (len_dataloader + gradient_accumulation_steps args - 1)
                    / gradient_accumulation_steps args) in *.
  assert (HE : per_epoch <> 0).
  { unfold per_epoch.
    pose proof (Nat.div_mod_eq (len_dataloader + gradient_accumulation_steps args - 1)
                  (gradient_accumulation_steps args)).
    pose proof (Nat.mod_upper_bound
                  (len_dataloader + gradient_accumulation_steps args - 1)
                  (gradient_accumulation_steps args) HG). nia. }
  destruct (Nat.eqb_spec per_epoch 0) as [|_]; [contradiction|].
  injection Hplan as <-. simpl. split; [reflexivity|].
  unfold train. simpl. rewrite Nat.sub_0_r.
  destruct (ceil_bounds steps per_epoch HE) as [Hup Hlow].
  destruct (Nat.eq_dec ((steps + per_epoch - 1) / per_epoch) 0) as [Hz|Hnz].
  - rewrite Hz in *. simpl. eexists. split; [reflexivity|]. simpl.
    split; [lia | constructor].
  - assert (Hpos : 0 < steps).
    { destruct steps; [|lia]. exfalso. apply Hnz. apply Nat.div_small. lia. }
    specialize (Hlow Hpos).
    match goal with |- context [epoch_loop args acc ?p _ ?s0] =>
      destruct (epoch_loop_fresh args acc p Hvalid HL Hup Hlow
                  ((steps + per_epoch - 1) / per_epoch) 0 s0
                  eq_refl eq_refl eq_refl ltac:(lia)) as (st & Hrun & Hgs)
    end.
    exists st. split; [exact Hrun|]. split; [exact Hgs|].
    assert (Hb : steps_bounded st).
    { apply (epoch_loop_invariant steps_bounded args acc _) in Hrun.
      - exact Hrun.
      - intros epoch step. apply micro_batch_bounded.
      - intros epoch st0 Hinv. unfold steps_bounded.
        rewrite epoch_validation_micro_batches. exact Hinv.
      - constructor. }
    unfold steps_bounded in Hb. rewrite Hgs in Hb. exact Hb.
Qed.

(** C3: a run of 10 steps over a dataloader of 4 batches (3 epochs),
    resumed from the checkpoint of step 7, reaches [global_step = 10] on
    the third batch of epoch 1 and leaves the step loop there, but the epoch
    loop goes on: the first batch of epoch 2 updates the parameters once
    more and the run ends with [global_step = 11]. *)
Theorem C3_resumed_run_steps_past_train_steps :
  exists plan st,
    prepare_for_training resumed_args 4 10 3 false = inr plan
    /\ train_steps plan = 10
    /\ train resumed_args (process 1 0) plan (Some 7) 0 = inr st
    /\ map (fun m => (mb_epoch m, mb_step m, mb_sync_gradients m, mb_global_step m))
           (micro_batches st)
       = [(1, 0, true, 8); (1, 1, true, 9); (1, 2, true, 10); (2, 0, true, 11)]
    /\ global_step st = 11.
Proof.
  eexists. eexists. split; [reflexivity|]. split; [reflexivity|].
  split; [vm_compute; reflexivity|]. split; reflexivity.
Qed.

(** C4: with two accumulation steps and validation every second step, a
    fresh run of 4 steps calls [validate] on micro-batches that do not
    synchronise gradients: on the first micro-batch of the run
    ([global_step] still 0) and on the first micro-batch of epoch 1
    ([global_step] still 2, already validated on the micro-batch before);
    no checkpoint is saved on either. *)
Theorem C4_validation_inside_accumulation_window :
  exists plan st,
    prepare_for_training accumulating_args 4 4 1 false = inr plan
    /\ train accumulating_args (process 1 0) plan None 0 = inr st
    /\ map (fun m => (mb_epoch m, mb_step m, mb_sync_gradients m, mb_global_step m,
                      mb_checkpoint m, mb_validation m))
           (micro_batches st)
       = [(0, 0, false, 0, false, true);
          (0, 1, true, 1, true, false);
          (0, 2, false, 1, false, false);
          (0, 3, true, 2, true, true);
          (1, 0, false, 2, false, true);
          (1, 1, true, 3, true, false);
          (1, 2, false, 3, false, false);
          (1, 3, true, 4, true, true)]
    /\ Exists (fun m => mb_sync_gradients m = false /\ mb_validation m = true)
              (micro_batches st).
Proof.
  eexists. eexists. split; [reflexivity|].
  split; [vm_compute; reflexivity|]. split; [reflexivity|].
  apply Exists_cons_hd. split; reflexivity.
Qed.

End TrainLoop.

(** ** Caption dropout *)

Section CaptionDropout.

Lemma all_zero_fill_zero (t : tensor) : all_zero (fill_zero t).
Proof.
  destruct t as [d|d]; simpl; apply Forall_forall; intros row Hrow;
    apply list_elem_of_In, in_map_iff in Hrow as (r & <- & _);
    apply Forall_forall; intros v Hv;
    apply list_elem_of_In, in_map_iff in Hv as (u & <- & _); reflexivity.
Qed.

Lemma tshape_fill_zero (t : tensor) : tshape (fill_zero t) = tshape t.
Proof.
  destruct t as [d|d]; simpl; rewrite map_map; apply map_ext; intros row;
    apply length_map.
Qed.

Lemma zero_embeds_fires (args : Args) (tc : gmap string tensor) (rng : Random)
    (embeds mask : tensor) :
  caption_dropout_technique args = "zero"%string ->
  Qltb (draws rng (cursor rng)) (caption_dropout_p args) = true ->
  tc !! "prompt_embeds"%string = Some embeds ->
  tc !! "prompt_attention_mask"%string = Some mask ->
  exists tc',
    zero_embeds args tc rng = inr (tc', advance rng, [EmbedsZeroed])
    /\ tc' !! "prompt_embeds"%string = Some (fill_zero embeds)
    /\ tc' !! "prompt_attention_mask"%string = Some (fill_zero mask)
    /\ (forall pooled, tc !! "pooled_prompt_embeds"%string = Some pooled ->
          tc' !! "pooled_prompt_embeds"%string = Some (fill_zero pooled)).
Proof.
  intros Htech Hfire Hembeds Hmask. unfold zero_embeds.
  rewrite Htech. simpl String.eqb. unfold random_random. rewrite Hfire.
  unfold dict_get. rewrite Hembeds. simpl.
  rewrite lookup_insert_ne by discriminate. rewrite Hmask. simpl.
  rewrite !lookup_insert_ne by discriminate.
  destruct (tc !! "pooled_prompt_embeds"%string) as [pooled|] eqn:Hpooled.
  - eexists. split; [reflexivity|]. split; [|split].
    + rewrite !lookup_insert_ne by discriminate. apply lookup_insert_eq.
    + rewrite lookup_insert_ne by discriminate. apply lookup_insert_eq.
    + intros pooled' Heq. injection Heq as <-. apply lookup_insert_eq.
  - eexists. split; [reflexivity|]. split; [|split].
    + rewrite lookup_insert_ne by discriminate. apply lookup_insert_eq.
    + apply lookup_insert_eq.
    + intros pooled' Heq. discriminate Heq.
Qed.

Lemma zero_embeds_skips (args : Args) (tc : gmap string tensor) (rng : Random) :
  caption_dropout_technique args = "zero"%string ->
  Qltb (draws rng (cursor rng)) (caption_dropout_p args) = false ->
  zero_embeds args tc rng = inr (tc, advance rng, []).
Proof.
  intros Htech Hskip. unfold zero_embeds.
  rewrite Htech. simpl String.eqb. unfold random_random. rewrite Hskip. reflexivity.
Qed.

Lemma zero_embeds_other (args : Args) (tc : gmap string tensor) (rng : Random) :
  caption_dropout_technique args <> "zero"%string ->
  zero_embeds args tc rng = inr (tc, rng, []).
Proof.
  intros Htech. unfold zero_embeds.
  destruct (String.eqb_spec (caption_dropout_technique args) "zero");
    [contradiction | reflexivity].
Qed.

Lemma zero_embeds_events (args : Args) (tc tc' : gmap string tensor)
    (rng rng' : Random) (events : list StepEvent) :
  zero_embeds args tc rng = inr (tc', rng', events) ->
  ~ In PromptsReplaced events
  /\ (In EmbedsZeroed events -> caption_dropout_technique args = "zero"%string).
Proof.
  unfold zero_embeds.
  destruct (String.eqb_spec (caption_dropout_technique args) "zero") as [Htech|Htech].
  - unfold random_random. destruct (Qltb _ _).
    + intros Hrun.
      apply bind_inr in Hrun as (embeds & _ & Hrun).
      apply bind_inr in Hrun as (mask & _ & Hrun).
      injection Hrun as _ _ <-. split; [|auto].
      intros [H|[]]. discriminate H.
    + intros Hrun. injection Hrun as _ _ <-. split; [intros []|intros []].
  - intros Hrun. injection Hrun as _ _ <-. split; [intros []|intros []].
Qed.

Lemma drop_prompts_events (args : Args) (prompts prompts' : list string)
    (n : nat) (rng rng' : Random) (events : list StepEvent) :
  drop_prompts args prompts n rng = (prompts', rng', events) ->
  ~ In EmbedsZeroed events
  /\ (In PromptsReplaced events -> caption_dropout_technique args = "empty"%string).
Proof.
  unfold drop_prompts.
  destruct (String.eqb_spec (caption_dropout_technique args) "empty") as [Htech|Htech].
  - unfold random_random. destruct (Qltb _ _); intros Hrun; injection Hrun as _ _ <-.
    + split; [|auto]. intros [H|[]]. discriminate H.
    + split; intros [].
  - intros Hrun. injection Hrun as _ _ <-. split; intros [].
Qed.

Lemma batch_conditions_events (ext : Externals) (mc : ModelConfig) (args : Args)
    (batch : Batch) (rng : Random) (sc : StepConditions) :
  batch_conditions ext mc args batch rng = inr sc ->
  ~ In EmbedsZeroed (sc_events sc)
  /\ (In PromptsReplaced (sc_events sc) -> caption_dropout_technique args = "empty"%string).
Proof.
  unfold batch_conditions. destruct (negb (precompute_conditions args)).
  - destruct batch as [videos prompts|lc tc]; [|discriminate].
    destruct (drop_prompts args prompts (length prompts) rng) as [[prompts' rng'] dropped] eqn:Hdrop.
    intros Hrun. injection Hrun as <-. simpl.
    destruct (drop_prompts_events _ _ _ _ _ _ _ Hdrop) as [Hz He].
    split.
    + intros Hin. apply in_app_or in Hin as [Hin|[Hin|[Hin|[]]]];
        [exact (Hz Hin) | discriminate Hin | discriminate Hin].
    + intros Hin. apply in_app_or in Hin as [Hin|[Hin|[Hin|[]]]];
        [exact (He Hin) | discriminate Hin | discriminate Hin].
  - destruct batch as [videos prompts|lc tc]; [discriminate|].
    intros Hrun.
    apply bind_inr in Hrun as (l1 & _ & Hrun).
    apply bind_inr in Hrun as (l2 & _ & Hrun).
    injection Hrun as <-. simpl. split; intros [].
Qed.

Lemma batch_conditions_precomputed (ext : Externals) (mc : ModelConfig) (args : Args)
    (lc tc : gmap string tensor) (rng : Random) (sc : StepConditions) :
  precompute_conditions args = true ->
  batch_conditions ext mc args (PrecomputedBatch lc tc) rng = inr sc ->
  sc_text_conditions sc = tc /\ sc_events sc = [] /\ sc_random sc = rng.
Proof.
  intros Hpre. unfold batch_conditions. rewrite Hpre. simpl. intros Hrun.
  apply bind_inr in Hrun as (l1 & _ & Hrun).
  apply bind_inr in Hrun as (l2 & _ & Hrun).
  injection Hrun as <-. auto.
Qed.

Lemma batch_conditions_live_empty (ext : Externals) (mc : ModelConfig) (args : Args)
    (videos : ftensor) (prompts : list string) (rng : Random) :
  precompute_conditions args = false ->
  caption_dropout_technique args = "empty"%string ->
  Qltb (draws rng (cursor rng)) (caption_dropout_p args) = true ->
  batch_conditions ext mc args (LiveBatch videos prompts) rng
  = inr {| sc_latent_conditions := prepare_latents mc false videos;
           sc_text_conditions := prepare_conditions mc (replicate (length prompts) EmptyString);
           sc_batch_size := length prompts;
           sc_random := advance rng;
           sc_events := [PromptsReplaced; PrepareLatentsCall videos;
                         PrepareConditionsCall (replicate (length prompts) EmptyString)] |}.
Proof.
  intros Hpre Htech Hfire. unfold batch_conditions, drop_prompts.
  rewrite Hpre, Htech. simpl negb. simpl String.eqb. unfold random_random.
  rewrite Hfire. reflexivity.
Qed.

Lemma batch_conditions_draws (ext : Externals) (mc : ModelConfig) (args : Args)
    (batch : Batch) (rng : Random) (sc : StepConditions) :
  batch_conditions ext mc args batch rng = inr sc ->
  draws (sc_random sc) = draws rng.
Proof.
  unfold batch_conditions. destruct (negb (precompute_conditions args)).
  - destruct batch as [videos prompts|lc tc]; [|discriminate].
    unfold drop_prompts, random_random.
    destruct (String.eqb _ _); [destruct (Qltb _ _)|];
      intros Hrun; injection Hrun as <-; reflexivity.
  - destruct batch as [videos prompts|lc tc]; [discriminate|].
    intros Hrun.
    apply bind_inr in Hrun as (l1 & _ & Hrun).
    apply bind_inr in Hrun as (l2 & _ & Hrun).
    injection Hrun as <-. reflexivity.
Qed.

Lemma step_conditions_unfold (ext : Externals) (mc : ModelConfig) (args : Args)
    (batch : Batch) (rng : Random) (sc0 : StepConditions) :
  batch_conditions ext mc args batch rng = inr sc0 ->
  step_conditions ext mc args batch rng
  = do '(text_conditions, rng', zeroed) <-
       zero_embeds args (make_contiguous ext (sc_text_conditions sc0)) (sc_random sc0);
    ret {| sc_latent_conditions := make_contiguous ext (sc_latent_conditions sc0);
           sc_text_conditions := text_conditions;
           sc_batch_size := sc_batch_size sc0;
           sc_random := rng';
           sc_events := sc_events sc0 ++ zeroed |}.
Proof. intros Hbc. unfold step_conditions. rewrite Hbc. reflexivity. Qed.

Lemma dropout_fires_at_one (p u : Q) :
  (p == 1)%Q -> (0 <= u < 1)%Q -> Qltb u p = true.
Proof.
  intros Hp [_ Hu]. apply Qltb_true. rewrite Hp. exact Hu.
Qed.

(** C8 (amended): with dropout probability 1 (and [random.random()] in
    [0, 1)) the dropout of the configured technique is applied on every
    batch the code applies it to.  Under "empty" that is every batch whose
    conditions are encoded during training: the prompts handed to
    [prepare_conditions] are all the empty string, one per example, and the
    text conditions are the encoding of those empty prompts; on a batch of
    precomputed conditions "empty" does nothing, the stored text conditions
    are used, no prompt is replaced and no random number is drawn.  Under
    "zero" the prompt embeddings and the attention mask of the text
    conditions, encoded or loaded, are overwritten with zeros (false for a
    boolean mask), and so is the pooled embedding when the key is present.
    No step applies both techniques. *)
Theorem C8_caption_dropout_at_probability_one (ext : Externals) (mc : ModelConfig)
    (args : Args) (batch : Batch) (rng : Random) :
  ((caption_dropout_p args == 1)%Q ->
   (forall k, (0 <= draws rng k < 1)%Q) ->
   (caption_dropout_technique args = "empty"%string ->
    (forall sc, step_conditions ext mc args batch rng = inr sc ->
       forall ps, In (PrepareConditionsCall ps) (sc_events sc) ->
         ps = replicate (sc_batch_size sc) EmptyString)
    /\ (forall videos prompts,
          precompute_conditions args = false -> batch = LiveBatch videos prompts ->
          exists sc,
            step_conditions ext mc args batch rng = inr sc
            /\ sc_events sc
               = [PromptsReplaced; PrepareLatentsCall videos;
                  PrepareConditionsCall (replicate (length prompts) EmptyString)]
            /\ sc_text_conditions sc
               = make_contiguous ext
                   (prepare_conditions mc (replicate (length prompts) EmptyString))))
   /\ (caption_dropout_technique args = "zero"%string ->
       forall sc0 embeds mask,
         batch_conditions ext mc args batch rng = inr sc0 ->
         make_contiguous ext (sc_text_conditions sc0) !! "prompt_embeds"%string
         = Some embeds ->
         make_contiguous ext (sc_text_conditions sc0) !! "prompt_attention_mask"%string
         = Some mask ->
         exists sc,
           step_conditions ext mc args batch rng = inr sc
           /\ In EmbedsZeroed (sc_events sc)
           /\ sc_text_conditions sc !! "prompt_embeds"%string = Some (fill_zero embeds)
           /\ all_zero (fill_zero embeds)
           /\ tshape (fill_zero embeds) = tshape embeds
           /\ sc_text_conditions sc !! "prompt_attention_mask"%string
              = Some (fill_zero mask)
           /\ all_zero (fill_zero mask)
           /\ tshape (fill_zero mask) = tshape mask
           /\ (forall pooled,
                 make_contiguous ext (sc_text_conditions sc0)
                   !! "pooled_prompt_embeds"%string = Some pooled ->
                 sc_text_conditions sc !! "pooled_prompt_embeds"%string
                 = Some (fill_zero pooled)
                 /\ all_zero (fill_zero pooled))))
  /\ (forall sc, step_conditions ext mc args batch rng = inr sc ->
        ~ (In PromptsReplaced (sc_events sc) /\ In EmbedsZeroed (sc_events sc)))
  /\ (caption_dropout_technique args = "empty"%string ->
      precompute_conditions args = true ->
      forall sc, step_conditions ext mc args batch rng = inr sc ->
        exists lc tc,
          batch = PrecomputedBatch lc tc
          /\ sc_events sc = []
          /\ sc_text_conditions sc = make_contiguous ext tc
          /\ sc_random sc = rng).
Proof.
  split; [|split].
  - intros Hp Hrange. split.
    + intros Htech.
      assert (Hnz : caption_dropout_technique args <> "zero"%string)
        by (rewrite Htech; discriminate).
      split.
      * intros sc Hstep ps Hin.
        destruct (batch_conditions ext mc args batch rng) as [e|sc0] eqn:Hbc.
        { unfold step_conditions in Hstep. rewrite Hbc in Hstep. discriminate Hstep. }
        rewrite (step_conditions_unfold _ _ _ _ _ _ Hbc), (zero_embeds_other _ _ _ Hnz)
          in Hstep.
        injection Hstep as <-. simpl in *. rewrite app_nil_r in Hin.
        destruct (precompute_conditions args) eqn:Hpre.
        -- destruct batch as [videos prompts|lc tc].
           ++ unfold batch_conditions in Hbc. rewrite Hpre in Hbc. discriminate Hbc.
           ++ destruct (batch_conditions_precomputed _ _ _ _ _ _ _ Hpre Hbc) as (_ & Hev & _).
              rewrite Hev in Hin. destruct Hin.
        -- destruct batch as [videos prompts|lc tc].
           ++ rewrite (batch_conditions_live_empty ext mc args videos prompts rng Hpre Htech)
                in Hbc by (apply dropout_fires_at_one; [exact Hp | apply Hrange]).
              injection Hbc as <-. simpl in *.
              destruct Hin as [Hin|[Hin|[Hin|[]]]]; try discriminate Hin.
              injection Hin as <-. reflexivity.
           ++ unfold batch_conditions in Hbc. rewrite Hpre in Hbc. discriminate Hbc.
      * intros videos prompts Hpre ->.
        rewrite (step_conditions_unfold _ _ _ _ _ _
                   (batch_conditions_live_empty ext mc args videos prompts rng Hpre Htech
                      (dropout_fires_at_one _ _ Hp (Hrange _)))).
        rewrite (zero_embeds_other _ _ _ Hnz). simpl.
        eexists. split; [reflexivity|]. split; reflexivity.
    + intros Htech sc0 embeds mask Hbc Hembeds Hmask.
      rewrite (step_conditions_unfold _ _ _ _ _ _ Hbc).
      assert (Hfire : Qltb (draws (sc_random sc0) (cursor (sc_random sc0)))
                           (caption_dropout_p args) = true).
      { rewrite (batch_conditions_draws _ _ _ _ _ _ Hbc).
        apply dropout_fires_at_one; [exact Hp | apply Hrange]. }
      destruct (zero_embeds_fires args _ (sc_random sc0) embeds mask Htech Hfire
                  Hembeds Hmask)
        as (tc' & -> & He & Hm & Hpooled).
      simpl. eexists. split; [reflexivity|]. simpl.
      split; [apply in_or_app; right; left; reflexivity|].
      split; [exact He|]. split; [apply all_zero_fill_zero|].
      split; [apply tshape_fill_zero|]. split; [exact Hm|].
      split; [apply all_zero_fill_zero|]. split; [apply tshape_fill_zero|].
      intros pooled Hp'. split; [apply Hpooled, Hp' | apply all_zero_fill_zero].
  - intros sc Hstep [Hempty Hzero].
    destruct (batch_conditions ext mc args batch rng) as [e|sc0] eqn:Hbc.
    { unfold step_conditions in Hstep. rewrite Hbc in Hstep. discriminate Hstep. }
    rewrite (step_conditions_unfold _ _ _ _ _ _ Hbc) in Hstep.
    apply bind_inr in Hstep as ([[tc' rng'] zeroed] & Hz & Hstep).
    injection Hstep as <-. simpl in *.
    destruct (batch_conditions_events _ _ _ _ _ _ Hbc) as [Hbz Hbe].
    destruct (zero_embeds_events _ _ _ _ _ _ Hz) as [Hze Hzz].
    apply in_app_or in Hempty as [Hempty|Hempty]; [|exact (Hze Hempty)].
    apply in_app_or in Hzero as [Hzero|Hzero]; [exact (Hbz Hzero)|].
    specialize (Hbe Hempty). specialize (Hzz Hzero). rewrite Hbe in Hzz.
    discriminate Hzz.
  - intros Htech Hpre sc Hstep.
    destruct (batch_conditions ext mc args batch rng) as [e|sc0] eqn:Hbc.
    { unfold step_conditions in Hstep. rewrite Hbc in Hstep. discriminate Hstep. }
    destruct batch as [videos prompts|lc tc].
    { unfold batch_conditions in Hbc. rewrite Hpre in Hbc. discriminate Hbc. }
    destruct (batch_conditions_precomputed _ _ _ _ _ _ _ Hpre Hbc) as (Htc & Hev & Hrng).
    rewrite (step_conditions_unfold _ _ _ _ _ _ Hbc), Htc, Hev, Hrng in Hstep.
    rewrite zero_embeds_other in Hstep by (rewrite Htech; discriminate).
    injection Hstep as <-. exists lc, tc. repeat split.
Qed.

Lemma C8_caption_dropout_at_probability_one_witness :
  (caption_dropout_p (dropout_args false "zero" 1) == 1)%Q
  /\ (forall k, (0 <= draws toy_random k < 1)%Q)
  /\ caption_dropout_technique (dropout_args false "zero" 1) = "zero"%string
  /\ exists sc,
       step_conditions toy_externals toy_model_config (dropout_args false "zero" 1)
         (LiveBatch [[1; 2; 3]]%Q ["a prompt"%string]) toy_random = inr sc
       /\ sc_text_conditions sc !! "prompt_embeds"%string = Some (FloatTensor [[0; 0]]%Q)
       /\ sc_text_conditions sc !! "prompt_attention_mask"%string
          = Some (BoolTensor [[false; false]]).
Proof.
  assert (Hp : (caption_dropout_p (dropout_args false "zero" 1) == 1)%Q) by reflexivity.
  assert (Hrange : forall k, (0 <= draws toy_random k < 1)%Q)
    by (intros k; split; [discriminate | reflexivity]).
  split; [exact Hp|]. split; [exact Hrange|]. split; [reflexivity|].
  destruct (C8_caption_dropout_at_probability_one
              toy_externals toy_model_config (dropout_args false "zero" 1)
              (LiveBatch [[1; 2; 3]]%Q ["a prompt"%string]) toy_random) as [Hfires _].
  destruct (Hfires Hp Hrange) as [_ Hzero].
  destruct (Hzero eq_refl _ (FloatTensor [[8; 1]]%Q) (BoolTensor [[true; true]])
              eq_refl eq_refl eq_refl)
    as (sc & Hstep & _ & Hembeds & _ & _ & Hmask & _).
  exists sc. split; [exact Hstep|]. split; [exact Hembeds | exact Hmask].
Defined.

(** C8 as stated fails for "empty" on precomputed conditions: with
    probability 1 the step replaces no prompt, calls no encoder, draws no
    random number, and works with the stored text conditions, which are not
    the encoding of the empty prompt. *)
Lemma C8_empty_dropout_skipped_when_precomputed :
  (caption_dropout_p (dropout_args true "empty" 1) == 1)%Q
  /\ caption_dropout_technique (dropout_args true "empty" 1) = "empty"%string
  /\ (forall k, (0 <= draws toy_random k < 1)%Q)
  /\ exists sc,
       step_conditions toy_externals toy_model_config (dropout_args true "empty" 1)
         (PrecomputedBatch toy_latent_conditions toy_text_conditions) toy_random = inr sc
       /\ sc_events sc = []
       /\ ~ In PromptsReplaced (sc_events sc)
       /\ sc_text_conditions sc = toy_text_conditions
       /\ sc_text_conditions sc !! "prompt_embeds"%string
          <> make_contiguous toy_externals
               (prepare_conditions toy_model_config [EmptyString])
             !! "prompt_embeds"%string
       /\ cursor (sc_random sc) = cursor toy_random.
Proof.
  split; [reflexivity|]. split; [reflexivity|].
  split; [intros k; split; [discriminate | reflexivity]|].
  destruct (step_conditions toy_externals toy_model_config (dropout_args true "empty" 1)
              (PrecomputedBatch toy_latent_conditions toy_text_conditions) toy_random)
    as [e|sc] eqn:Hstep; [vm_compute in Hstep; discriminate Hstep|].
  exists sc. split; [reflexivity|].
  vm_compute in Hstep. injection Hstep as <-.
  split; [reflexivity|]. split; [intros []|]. split; [reflexivity|].
  split; [|reflexivity].
  vm_compute. intros Heq. discriminate Heq.
Qed.

(** C10: when training from precomputed conditions, the "zero" technique
    acts on the loaded text conditions: with [u] the value of
    [random.random()], if [u < caption_dropout_p] the loaded prompt
    embeddings and the attention mask are overwritten with zeros, and
    otherwise they are used as loaded.  The "empty" technique leaves the
    loaded text conditions as they are, takes no branch and draws no random
    number; when precomputation runs with it (and a positive probability)
    the warning of line 236 is logged and the prompts encoded are those of
    the dataset. *)
Theorem C10_dropout_with_precomputed_conditions (ext : Externals) (mc : ModelConfig)
    (args : Args) (lc tc : gmap string tensor) (rng : Random) (sc0 : StepConditions) :
  precompute_conditions args = true ->
  batch_conditions ext mc args (PrecomputedBatch lc tc) rng = inr sc0 ->
  (caption_dropout_technique args = "zero"%string ->
   forall embeds mask,
     make_contiguous ext tc !! "prompt_embeds"%string = Some embeds ->
     make_contiguous ext tc !! "prompt_attention_mask"%string = Some mask ->
     ((draws rng (cursor rng) < caption_dropout_p args)%Q ->
      exists sc,
        step_conditions ext mc args (PrecomputedBatch lc tc) rng = inr sc
        /\ sc_events sc = [EmbedsZeroed]
        /\ sc_text_conditions sc !! "prompt_embeds"%string = Some (fill_zero embeds)
        /\ all_zero (fill_zero embeds)
        /\ sc_text_conditions sc !! "prompt_attention_mask"%string = Some (fill_zero mask)
        /\ all_zero (fill_zero mask))
     /\ (~ (draws rng (cursor rng) < caption_dropout_p args)%Q ->
         exists sc,
           step_conditions ext mc args (PrecomputedBatch lc tc) rng = inr sc
           /\ sc_events sc = []
           /\ sc_text_conditions sc = make_contiguous ext tc))
  /\ (caption_dropout_technique args = "empty"%string ->
      (exists sc,
          step_conditions ext mc args (PrecomputedBatch lc tc) rng = inr sc
          /\ sc_events sc = []
          /\ sc_text_conditions sc = make_contiguous ext tc
          /\ sc_random sc = rng)
      /\ (forall acc dataset w,
            batch_size args = 1 ->
            should_perform_precomputation ext (w_files w) = true ->
            (0 < caption_dropout_p args)%Q ->
            exists new,
              w_trace (snd (prepare_precomputations ext args acc dataset w))
              = w_trace w ++ new
              /\ In (LogWarning dropout_warning) new
              /\ forall s, In (PrepareConditions s) new -> In s (map prompt dataset))).
Proof.
  intros Hpre Hbc.
  destruct (batch_conditions_precomputed _ _ _ _ _ _ _ Hpre Hbc) as (Htc & Hev & Hrng).
  rewrite (step_conditions_unfold _ _ _ _ _ _ Hbc), Htc, Hev, Hrng. split.
  - intros Htech embeds mask Hembeds Hmask. split.
    + intros Hlt.
      destruct (zero_embeds_fires args _ rng embeds mask Htech (Qltb_true _ _ Hlt)
                  Hembeds Hmask) as (tc' & -> & He & Hm & _).
      simpl. eexists. split; [reflexivity|]. simpl.
      split; [reflexivity|]. split; [exact He|]. split; [apply all_zero_fill_zero|].
      split; [exact Hm | apply all_zero_fill_zero].
    + intros Hnlt. rewrite (zero_embeds_skips args _ rng Htech (Qltb_false _ _ Hnlt)).
      simpl. eexists. split; [reflexivity|]. split; reflexivity.
  - intros Htech. split.
    + rewrite zero_embeds_other by (rewrite Htech; discriminate).
      simpl. eexists. split; [reflexivity|]. repeat split.
    + intros acc dataset w Hbs Hrun Hp.
      apply precomputation_warns_and_keeps_prompts; assumption.
Qed.

Lemma C10_dropout_with_precomputed_conditions_witness :
  precompute_conditions (dropout_args true "zero" (3 # 4)) = true
  /\ (draws toy_random (cursor toy_random)
      < caption_dropout_p (dropout_args true "zero" (3 # 4)))%Q
  /\ exists sc,
       step_conditions toy_externals toy_model_config (dropout_args true "zero" (3 # 4))
         (PrecomputedBatch toy_latent_conditions toy_text_conditions) toy_random = inr sc
       /\ sc_text_conditions sc !! "prompt_embeds"%string = Some (FloatTensor [[0; 0]]%Q)
       /\ sc_text_conditions sc !! "prompt_attention_mask"%string
          = Some (BoolTensor [[false; false]]).
Proof.
  assert (Hlt : (draws toy_random (cursor toy_random)
                 < caption_dropout_p (dropout_args true "zero" (3 # 4)))%Q)
    by reflexivity.
  split; [reflexivity|]. split; [exact Hlt|].
  destruct (C10_dropout_with_precomputed_conditions
              toy_externals toy_model_config (dropout_args true "zero" (3 # 4))
              toy_latent_conditions toy_text_conditions toy_random _ eq_refl eq_refl)
    as [Hzero _].
  destruct (Hzero eq_refl (FloatTensor [[4; 5]]%Q) (BoolTensor [[true; true]])
              eq_refl eq_refl) as [Hfires _].
  destruct (Hfires Hlt) as (sc & Hstep & _ & Hembeds & _ & Hmask & _).
  exists sc. split; [exact Hstep|]. split; [exact Hembeds | exact Hmask].
Defined.

End CaptionDropout.


(** ** The training loop: counters and triggers *)

Section LoopAccounting.

Lemma py_mod_inr (a b r : nat) : py_mod a b = inr r -> b <> 0 /\ r = a mod b.
Proof.
  unfold py_mod. destruct (Nat.eqb_spec b 0) as [Hb|Hb]; intros H; [discriminate H|].
  injection H as <-. auto.
Qed.

Lemma micro_batch_inv (args : Args) (acc : Accelerator) (plan : TrainPlan)
    (epoch step : nat) (st st' : LoopState) :
  micro_batch args acc plan epoch step st = inr st' ->
  exists m,
    loop_trace st' = loop_trace st ++ [Micro m]
    /\ mb_epoch m = epoch /\ mb_step m = step
    /\ mb_global_step m = global_step st'
    /\ global_step st' = global_step st + (if mb_sync_gradients m then 1 else 0)
    /\ triggers_as_coded args acc m.
Proof.
  intros Hrun. unfold micro_batch in Hrun.
  apply bind_inr in Hrun as ([sync counter] & _ & Hrun).
  apply bind_inr in Hrun as ([gs ckpt] & Hupd & Hrun).
  apply bind_inr in Hrun as (val & Hval & Hrun).
  injection Hrun as <-. eexists. split; [reflexivity|]. simpl.
  split; [reflexivity|]. split; [reflexivity|]. split; [reflexivity|].
  assert (Hgs : gs = global_step st + (if sync then 1 else 0)
                /\ ckpt = (sync && (is_deepspeed acc || is_main_process acc)
                           && (gs mod checkpointing_steps args =? 0))%bool).
  { destruct sync; simpl.
    - destruct (is_deepspeed acc || is_main_process acc)%bool; simpl.
      + apply bind_inr in Hupd as (r & Hr & Hupd). injection Hupd as <- <-.
        apply py_mod_inr in Hr as [_ ->]. auto.
      + injection Hupd as <- <-. auto.
    - injection Hupd as <- <-. split; [lia | reflexivity]. }
  destruct Hgs as [Hgs Hckpt]. split; [exact Hgs|].
  split; simpl; [exact Hckpt|].
  destruct (validation_every_n_steps args) as [n|].
  - apply bind_inr in Hval as (r & Hr & Hval). injection Hval as <-.
    apply py_mod_inr in Hr as [_ ->]. reflexivity.
  - injection Hval as <-. reflexivity.
Qed.

Lemma micro_batches_app_micro (st st' : LoopState) (m : MicroBatch) :
  loop_trace st' = loop_trace st ++ [Micro m] ->
  micro_batches st' = micro_batches st ++ [m].
Proof.
  intros Htr. unfold micro_batches. rewrite Htr, omap_app. reflexivity.
Qed.

Lemma train_invariant (I : LoopState -> Prop) (args : Args) (acc : Accelerator)
    (plan : TrainPlan) (resume_step : option nat) (counter : nat) (st : LoopState) :
  (forall epoch step st st',
      I st -> micro_batch args acc plan epoch step st = inr st' -> I st') ->
  (forall epoch st,
      I st ->
      I {| global_step := global_step st;
           accelerator_step := accelerator_step st;
           loop_trace := loop_trace st ++ [EpochValidation epoch (global_step st)] |}) ->
  I {| global_step := start_step resume_step;
       accelerator_step := counter;
       loop_trace := [] |} ->
  train args acc plan resume_step counter = inr st ->
  I st.
Proof.
  intros Hmb Hval Hinit. unfold train.
  destruct resume_step as [s|]; simpl in *; intros Hrun;
    apply (epoch_loop_invariant I args acc plan Hmb Hval) in Hrun; auto.
Qed.

(** X2: in every run that returns, each micro-batch saved a checkpoint
    exactly when it synchronised gradients on the main process (or under
    DeepSpeed) with [global_step] a multiple of [checkpointing_steps], and
    called [validate] exactly when [global_step] was a multiple of
    [validation_every_n_steps], whether or not it synchronised. *)
Theorem train_triggers_as_coded (args : Args) (acc : Accelerator) (plan : TrainPlan)
    (resume_step : option nat) (counter : nat) (st : LoopState) :
  train args acc plan resume_step counter = inr st ->
  Forall (triggers_as_coded args acc) (micro_batches st).
Proof.
  apply (train_invariant (fun st => Forall (triggers_as_coded args acc) (micro_batches st))).
  - intros epoch step st0 st1 Hinv Hrun.
    apply micro_batch_inv in Hrun as (m & Htr & _ & _ & _ & _ & Hm).
    rewrite (micro_batches_app_micro _ _ _ Htr). apply Forall_app. split; [exact Hinv|].
    constructor; [exact Hm | constructor].
  - intros epoch st0 Hinv. rewrite epoch_validation_micro_batches. exact Hinv.
  - constructor.
Qed.

Lemma train_triggers_as_coded_witness :
  match train accumulating_args (process 1 0)
          {| train_steps := 4; train_epochs := 2;
             num_update_steps_per_epoch := 2; dataloader_length := 4 |} None 0 with
  | inr st => length (micro_batches st) = 8
              /\ Forall (triggers_as_coded accumulating_args (process 1 0)) (micro_batches st)
  | inl _ => False
  end.
Proof.
  destruct (train accumulating_args (process 1 0)
              {| train_steps := 4; train_epochs := 2;
                 num_update_steps_per_epoch := 2; dataloader_length := 4 |} None 0)
    as [e|st] eqn:Hrun.
  - vm_compute in Hrun. discriminate Hrun.
  - split.
    + vm_compute in Hrun. injection Hrun as <-. reflexivity.
    + apply (train_triggers_as_coded _ _ _ _ _ _ Hrun).
Defined.

(** X4: when a run returns, [global_step] is the step it started from (0,
    or the step of the checkpoint resumed from) plus the number of
    micro-batches that synchronised gradients, and no micro-batch was left
    with a larger [global_step]. *)
Theorem train_global_step_counts_updates (args : Args) (acc : Accelerator)
    (plan : TrainPlan) (resume_step : option nat) (counter : nat) (st : LoopState) :
  train args acc plan resume_step counter = inr st ->
  global_step st = start_step resume_step + updates st
  /\ Forall (fun m => start_step resume_step <= mb_global_step m <= global_step st)
            (micro_batches st).
Proof.
  apply (train_invariant
           (fun st => global_step st = start_step resume_step + updates st
                      /\ Forall (fun m => start_step resume_step <= mb_global_step m
                                          <= global_step st) (micro_batches st))).
  - intros epoch step st0 st1 [Hcount Hbound] Hrun.
    apply micro_batch_inv in Hrun as (m & Htr & _ & _ & Hm & Hgs & _).
    unfold updates in *. rewrite (micro_batches_app_micro _ _ _ Htr).
    rewrite filter_app, length_app, filter_cons, filter_nil. split.
    + destruct (mb_sync_gradients m) eqn:Hsync.
      * rewrite decide_True by reflexivity. simpl. lia.
      * rewrite decide_False by discriminate. simpl. lia.
    + apply Forall_app. split.
      * eapply Forall_impl; [exact Hbound|]. simpl. intros m0 Hm0.
        destruct (mb_sync_gradients m); lia.
      * constructor; [|constructor]. destruct (mb_sync_gradients m); lia.
  - intros epoch st0 Hinv. unfold updates. rewrite epoch_validation_micro_batches.
    exact Hinv.
  - simpl. split; [unfold updates; simpl; lia | constructor].
Qed.

Lemma train_global_step_counts_updates_witness :
  match train resumed_args (process 1 0)
          {| train_steps := 10; train_epochs := 3;
             num_update_steps_per_epoch := 4; dataloader_length := 4 |} (Some 7) 0 with
  | inr st => global_step st = 7 + updates st /\ updates st = 4
  | inl _ => False
  end.
Proof.
  destruct (train resumed_args (process 1 0)
              {| train_steps := 10; train_epochs := 3;
                 num_update_steps_per_epoch := 4; dataloader_length := 4 |} (Some 7) 0)
    as [e|st] eqn:Hrun.
  - vm_compute in Hrun. discriminate Hrun.
  - split.
    + apply (train_global_step_counts_updates _ _ _ _ _ _ Hrun).
    + vm_compute in Hrun. injection Hrun as <-. reflexivity.
Defined.

Lemma do_sync_total (G L counter step : nat) :
  G <> 0 -> exists sync counter', do_sync G L counter step = inr (sync, counter').
Proof.
  intros HG. unfold do_sync. destruct (step + 1 =? L); [eauto|].
  rewrite (py_mod_pos _ _ HG). simpl. eauto.
Qed.

(** X3: the [break] of line 769 is tested after the body of the step loop.
    An epoch entered with [global_step >= train_steps] (non-empty
    dataloader, non-zero moduli) therefore still runs exactly one
    micro-batch, the first of the dataloader, before it is left; with one
    accumulation step that micro-batch is an optimizer update, so
    [global_step] grows by one. *)
Theorem step_loop_runs_a_batch_past_train_steps (args : Args) (acc : Accelerator)
    (plan : TrainPlan) (epoch : nat) (st : LoopState) :
  valid_divisors args ->
  1 <= dataloader_length plan ->
  train_steps plan <= global_step st ->
  exists st' m,
    step_loop args acc plan epoch (seq 0 (dataloader_length plan)) st = inr st'
    /\ micro_batches st' = micro_batches st ++ [m]
    /\ mb_epoch m = epoch /\ mb_step m = 0
    /\ (gradient_accumulation_steps args = 1 -> global_step st' = global_step st + 1).
Proof.
  intros Hvalid HL Hpast.
  destruct (dataloader_length plan) as [|L] eqn:Hlen; [lia|]. simpl seq. simpl step_loop.
  destruct (do_sync_total (gradient_accumulation_steps args) (S L) (accelerator_step st) 0
              (proj1 Hvalid)) as (sync & counter & Hsync).
  rewrite <- Hlen in Hsync.
  destruct (micro_batch_result args acc plan epoch 0 st sync counter Hvalid Hsync)
    as (st1 & Hmb & Hgs & _).
  rewrite Hmb. simpl.
  destruct (Nat.leb_spec (train_steps plan) (global_step st1)) as [_|Hlt];
    [|destruct sync; lia].
  pose proof (micro_batch_inv _ _ _ _ _ _ _ Hmb) as (m & Htr & He & Hs & _ & _ & _).
  exists st1, m. split; [reflexivity|].
  split; [apply micro_batches_app_micro, Htr|].
  split; [exact He|]. split; [exact Hs|].
  intros HG. rewrite Hgs. rewrite HG, Hlen in Hsync. unfold do_sync in Hsync.
  destruct (0 + 1 =? S L).
  - injection Hsync as <- _. reflexivity.
  - rewrite py_mod_pos in Hsync by discriminate. unfold bind, ret in Hsync.
    rewrite Nat.mod_1_r in Hsync. injection Hsync as <- _. reflexivity.
Qed.

Lemma step_loop_runs_a_batch_past_train_steps_witness :
  valid_divisors resumed_args
  /\ exists st',
       step_loop resumed_args (process 1 0)
         {| train_steps := 10; train_epochs := 3;
            num_update_steps_per_epoch := 4; dataloader_length := 4 |}
         2 (seq 0 4)
         {| global_step := 10; accelerator_step := 3; loop_trace := [] |} = inr st'
       /\ global_step st' = 11.
Proof.
  assert (Hvalid : valid_divisors resumed_args).
  { split; [discriminate|]. split; [discriminate|]. split; intros n Hn; discriminate Hn. }
  split; [exact Hvalid|].
  destruct (step_loop_runs_a_batch_past_train_steps resumed_args (process 1 0)
              {| train_steps := 10; train_epochs := 3;
                 num_update_steps_per_epoch := 4; dataloader_length := 4 |}
              2 {| global_step := 10; accelerator_step := 3; loop_trace := [] |}
              Hvalid ltac:(simpl; lia) ltac:(simpl; lia))
    as (st' & m & Hrun & _ & _ & _ & Hgs).
  exists st'. split; [exact Hrun|]. apply (Hgs eq_refl).
Defined.

End LoopAccounting.


(** ** The step budget *)

Section StepBudget.

Lemma train_fresh_run_stops_at_train_steps_witness :
  valid_divisors accumulating_args
  /\ 1 <= 4
  /\ prepare_for_training accumulating_args 4 5 1 false
     = inr {| train_steps := 5; train_epochs := 3;
              num_update_steps_per_epoch := 2; dataloader_length := 4 |}
  /\ exists st,
       train accumulating_args (process 1 0)
         {| train_steps := 5; train_epochs := 3;
            num_update_steps_per_epoch := 2; dataloader_length := 4 |} None 0 = inr st
       /\ global_step st = 5.
Proof.
  assert (Hvalid : valid_divisors accumulating_args).
  { split; [discriminate|]. split; [discriminate|].
    split; intros n Hn; [injection Hn as <-|]; discriminate. }
  assert (HL : 1 <= 4) by lia.
  split; [exact Hvalid|]. split; [exact HL|]. split; [reflexivity|].
  destruct (train_fresh_run_stops_at_train_steps accumulating_args (process 1 0) 4 5 1
              _ Hvalid HL eq_refl) as (_ & st & Hrun & Hgs & _).
  exists st. split; [exact Hrun | exact Hgs].
Defined.

Lemma ceil_div_pos (a b : nat) : b <> 0 -> ceil_div a b = ret ((a + b - 1) / b).
Proof.
  intros Hb. unfold ceil_div. destruct (Nat.eqb_spec b 0); [contradiction | reflexivity].
Qed.

Lemma ceil_div_multiple (e E : nat) : E <> 0 -> (e * E + E - 1) / E = e.
Proof.
  intros HE. symmetry. apply (Nat.div_unique (e * E + E - 1) E e (E - 1)); nia.
Qed.

Lemma ceil_pos (L G : nat) : G <> 0 -> 1 <= L -> (L + G - 1) / G <> 0.
Proof.
  intros HG HL.
  pose proof (Nat.div_mod_eq (L + G - 1) G) as Hd.
  pose proof (Nat.mod_upper_bound (L + G - 1) G HG) as Hr. nia.
Qed.

(** X5: with a non-zero number of accumulation steps and a non-empty
    prepared dataloader, the step budget is as follows.  When only epochs
    are configured, [train_steps] becomes the configured epochs times the
    updates per epoch of the prepared dataloader, whatever the length of
    the dataloader seen by [prepare_optimizer], and [train_epochs] stays as
    configured.  When [train_steps] is configured, it is kept and
    [train_epochs] is replaced by the least number of epochs whose updates
    reach it. *)
Theorem prepare_steps_budget (args : Args) (len_before len_after : nat)
    (steps : option nat) (epochs : nat) :
  gradient_accumulation_steps args <> 0 ->
  1 <= len_after ->
  exists plan,
    prepare_steps args len_before len_after steps epochs false = inr plan
    /\ num_update_steps_per_epoch plan
       = (len_after + gradient_accumulation_steps args - 1)
         / gradient_accumulation_steps args
    /\ dataloader_length plan = len_after
    /\ match steps with
       | None =>
           train_steps plan = epochs * num_update_steps_per_epoch plan
           /\ train_epochs plan = epochs
       | Some t =>
           train_steps plan = t
           /\ t <= train_epochs plan * num_update_steps_per_epoch plan
           /\ (0 < t -> (train_epochs plan - 1) * num_update_steps_per_epoch plan < t)
           /\ (t = 0 -> train_epochs plan = 0)
       end.
Proof.
  intros HG HL. unfold prepare_steps, prepare_optimizer_steps, prepare_for_training.
  rewrite !(ceil_div_pos _ _ HG). simpl.
  pose proof (ceil_pos len_after _ HG HL) as HE.
  set (per_epoch := (len_after + gradient_accumulation_steps args - 1)
                    / gradient_accumulation_steps args) in *.
  destruct steps as [t|]; simpl.
  - rewrite (ceil_div_pos _ _ HE). simpl. eexists. split; [reflexivity|]. simpl.
    split; [reflexivity|]. split; [reflexivity|]. split; [reflexivity|].
    destruct (ceil_bounds t per_epoch HE) as [Hup Hlow].
    split; [exact Hup|]. split; [exact Hlow|].
    intros ->. apply Nat.div_small. lia.
  - rewrite (ceil_div_pos _ _ HE). simpl. eexists. split; [reflexivity|]. simpl.
    split; [reflexivity|]. split; [reflexivity|]. split; [reflexivity|].
    apply ceil_div_multiple, HE.
Qed.

Lemma prepare_steps_budget_witness :
  gradient_accumulation_steps accumulating_args <> 0
  /\ 1 <= 5
  /\ exists plan,
       prepare_steps accumulating_args 20 5 None 7 false = inr plan
       /\ train_steps plan = 21 /\ train_epochs plan = 7.
Proof.
  assert (HG : gradient_accumulation_steps accumulating_args <> 0) by discriminate.
  assert (HL : 1 <= 5) by lia.
  split; [exact HG|]. split; [exact HL|].
  destruct (prepare_steps_budget accumulating_args 20 5 None 7 HG HL)
    as (plan & Hrun & Hper & _ & Hsteps & Hepochs).
  exists plan. split; [exact Hrun|]. split; [|exact Hepochs].
  rewrite Hsteps, Hper. reflexivity.
Defined.

(** X6: an empty prepared dataloader makes [prepare_for_training] raise
    ZeroDivisionError (the updates per epoch are 0 and [train_steps] is
    divided by them), and so do zero accumulation steps. *)
Theorem prepare_for_training_division_by_zero (args : Args) (len_dataloader : nat)
    (steps epochs : nat) (overwrote : bool) :
  gradient_accumulation_steps args = 0 \/ len_dataloader = 0 ->
  prepare_for_training args len_dataloader steps epochs overwrote
  = inl ZeroDivisionError.
Proof.
  intros Hzero. unfold prepare_for_training, ceil_div.
  destruct (Nat.eqb_spec (gradient_accumulation_steps args) 0) as [HG|HG]; [reflexivity|].
  destruct Hzero as [Hzero| ->]; [contradiction|]. simpl.
  rewrite (Nat.div_small (gradient_accumulation_steps args - 1)) by lia.
  reflexivity.
Qed.

Lemma prepare_for_training_division_by_zero_witness :
  prepare_for_training accumulating_args 0 10 1 false = inl ZeroDivisionError.
Proof.
  apply (prepare_for_training_division_by_zero accumulating_args 0 10 1 false).
  right. reflexivity.
Defined.

End StepBudget.


(** ** The encoding phases of precomputation *)

Section Sharding.

Lemma add_files_elem (fs files : list Artifact) (f : Artifact) :
  f ∈ add_files files fs <-> f ∈ files \/ f ∈ fs.
Proof.
  revert files. induction fs as [|g fs IH]; intros files; simpl.
  - rewrite elem_of_nil. tauto.
  - unfold add_files in *. simpl. rewrite IH, elem_of_cons.
    destruct (decide (g ∈ files)) as [Hg|Hg].
    + split; [tauto|]. intros [H|[->|H]]; auto.
    + rewrite elem_of_app, list_elem_of_singleton. tauto.
Qed.

Lemma add_files_NoDup (fs files : list Artifact) :
  NoDup files -> NoDup (add_files files fs).
Proof.
  revert files. induction fs as [|g fs IH]; intros files Hnd; [exact Hnd|].
  unfold add_files in *. simpl. apply IH.
  destruct (decide (g ∈ files)) as [Hg|Hg]; [exact Hnd|].
  apply NoDup_app. split; [exact Hnd|]. split.
  - intros x Hx Hxg. apply list_elem_of_singleton in Hxg as ->. contradiction.
  - apply NoDup_singleton.
Qed.

Lemma kept_cons (acc : Accelerator) (i : nat) (d : Sample) (rest : list Sample) :
  kept acc i (d :: rest)
  = if decide (i mod num_processes acc = process_index acc)
    then (i, d) :: kept acc (S i) rest
    else kept acc (S i) rest.
Proof. unfold kept. simpl. rewrite filter_cons. reflexivity. Qed.

Lemma kept_indices (acc : Accelerator) (i : nat) (items : list Sample) :
  map fst (kept acc i items)
  = filter (fun j => j mod num_processes acc = process_index acc)
           (seq i (length items)).
Proof.
  revert i. induction items as [|d rest IH]; intros i; [reflexivity|].
  rewrite kept_cons. simpl length. simpl seq. rewrite filter_cons.
  destruct (decide (i mod num_processes acc = process_index acc)); simpl;
    rewrite IH; reflexivity.
Qed.

Lemma conditions_loop_spec (acc : Accelerator) (items : list Sample) :
  num_processes acc <> 0 ->
  forall i index w,
  exists new,
    conditions_loop acc i items index w
    = (inr tt, {| w_files := add_files (w_files w) (saved new);
                  w_dataloader := w_dataloader w;
                  w_trace := w_trace w ++ new |})
    /\ saved new = imap (fun k p => ConditionsFile p.1 (index + k)) (kept acc i items)
    /\ encoded_prompts new = map (fun p => prompt p.2) (kept acc i items)
    /\ encoded_videos new = [].
Proof.
  intros HP. induction items as [|d rest IH]; intros i index w.
  - exists []. simpl. rewrite app_nil_r. destruct w. auto.
  - simpl conditions_loop. rewrite kept_cons. unfold mbind at 1, lift.
    rewrite (py_mod_pos i _ HP). cbn [ret fst snd].
    destruct (Nat.eqb_spec (i mod num_processes acc) (process_index acc)) as [Heq|Hne].
    + rewrite decide_True by exact Heq. cbn [negb mbind emit torch_save ret].
      match goal with |- context [conditions_loop acc (S i) rest (index + 1) ?w0] =>
        destruct (IH (S i) (index + 1) w0) as (new & -> & Hsaved & Hprompts & Hvideos)
      end.
      exists (PrepareConditions (prompt d) :: TorchSave (ConditionsFile i index) :: new).
      cbn [w_files w_dataloader w_trace].
      split; [|split; [|split]].
      * f_equal. f_equal. rewrite <- !app_assoc. reflexivity.
      * change (saved (PrepareConditions (prompt d) :: TorchSave (ConditionsFile i index) :: new))
          with (ConditionsFile i index :: saved new).
        rewrite Hsaved, imap_cons. simpl. rewrite Nat.add_0_r. f_equal.
        apply imap_ext. intros k p _. simpl. f_equal. lia.
      * change (encoded_prompts
                  (PrepareConditions (prompt d) :: TorchSave (ConditionsFile i index) :: new))
          with (prompt d :: encoded_prompts new).
        rewrite Hprompts. reflexivity.
      * exact Hvideos.
    + rewrite decide_False by exact Hne. cbn [negb]. apply IH.
Qed.

Lemma latents_loop_spec (acc : Accelerator) (items : list Sample) :
  num_processes acc <> 0 ->
  forall i index w,
  exists new,
    latents_loop acc i items index w
    = (inr tt, {| w_files := add_files (w_files w) (saved new);
                  w_dataloader := w_dataloader w;
                  w_trace := w_trace w ++ new |})
    /\ saved new
       = map (LatentsFile (process_index acc)) (seq index (length (kept acc i items)))
    /\ encoded_videos new = map (fun p => video p.2) (kept acc i items)
    /\ encoded_prompts new = [].
Proof.
  intros HP. induction items as [|d rest IH]; intros i index w.
  - exists []. simpl. rewrite app_nil_r. destruct w. auto.
  - simpl latents_loop. rewrite kept_cons. unfold mbind at 1, lift.
    rewrite (py_mod_pos i _ HP). cbn [ret fst snd].
    destruct (Nat.eqb_spec (i mod num_processes acc) (process_index acc)) as [Heq|Hne].
    + rewrite decide_True by exact Heq. cbn [negb mbind emit torch_save ret].
      match goal with |- context [latents_loop acc (S i) rest (index + 1) ?w0] =>
        destruct (IH (S i) (index + 1) w0) as (new & -> & Hsaved & Hvideos & Hprompts)
      end.
      exists (PrepareLatents (video d)
              :: TorchSave (LatentsFile (process_index acc) index) :: new).
      cbn [w_files w_dataloader w_trace].
      split; [|split; [|split]].
      * f_equal. f_equal. rewrite <- !app_assoc. reflexivity.
      * change (saved (PrepareLatents (video d)
                       :: TorchSave (LatentsFile (process_index acc) index) :: new))
          with (LatentsFile (process_index acc) index :: saved new).
        rewrite Hsaved. simpl. replace (index + 1) with (S index) by lia. reflexivity.
      * change (encoded_videos
                  (PrepareLatents (video d)
                   :: TorchSave (LatentsFile (process_index acc) index) :: new))
          with (video d :: encoded_videos new).
        rewrite Hvideos. reflexivity.
      * exact Hprompts.
    + rewrite decide_False by exact Hne. cbn [negb]. apply IH.
Qed.

Lemma kept_lookup (acc : Accelerator) (items : list Sample) :
  forall i, Forall (fun p : nat * Sample => i <= p.1 /\ items !! (p.1 - i) = Some p.2)
                   (kept acc i items).
Proof.
  induction items as [|d rest IH]; intros i; [constructor|].
  rewrite kept_cons.
  assert (Htail : Forall (fun p : nat * Sample =>
                            i <= p.1 /\ (d :: rest) !! (p.1 - i) = Some p.2)
                         (kept acc (S i) rest)).
  { eapply Forall_impl; [apply (IH (S i))|]. intros [j e]. simpl. intros [Hle Hj].
    split; [lia|]. replace (j - i) with (S (j - S i)) by lia. exact Hj. }
  destruct (decide (i mod num_processes acc = process_index acc)); [|exact Htail].
  constructor; [|exact Htail]. simpl. rewrite Nat.sub_diag. auto.
Qed.

Lemma kept_fields {A : Type} (field : Sample -> A) (acc : Accelerator)
    (dataset : list Sample) :
  map (fun p => field p.2) (kept acc 0 dataset)
  = omap (fun i => field <$> dataset !! i)
         (shard (num_processes acc) (process_index acc) (length dataset)).
Proof.
  unfold shard. rewrite <- (kept_indices acc 0 dataset).
  pose proof (kept_lookup acc dataset 0) as Hall.
  induction (kept acc 0 dataset) as [|[j d] l IH]; [reflexivity|].
  apply Forall_cons_1 in Hall as [[_ Hj] Hall]. simpl in *.
  rewrite Nat.sub_0_r in Hj. rewrite Hj. simpl. f_equal. apply IH, Hall.
Qed.

Lemma saved_app (tr1 tr2 : list Event) : saved (tr1 ++ tr2) = saved tr1 ++ saved tr2.
Proof. apply omap_app. Qed.

Lemma encoded_prompts_app (tr1 tr2 : list Event) :
  encoded_prompts (tr1 ++ tr2) = encoded_prompts tr1 ++ encoded_prompts tr2.
Proof. apply omap_app. Qed.

Lemma encoded_videos_app (tr1 tr2 : list Event) :
  encoded_videos (tr1 ++ tr2) = encoded_videos tr1 ++ encoded_videos tr2.
Proof. apply omap_app. Qed.

(** [encode_and_store] is the encoding phases followed by the construction
    of the dataloader. *)
Lemma encode_and_store_phases (args : Args) (acc : Accelerator)
    (dataset : list Sample) (w : World) :
  encode_and_store args acc dataset w
  = (encode_phases acc dataset >> set_dataloader (PrecomputedLoader (batch_size args))) w.
Proof.
  unfold encode_and_store, encode_phases, mbind, emit.
  destruct (conditions_loop acc 0 dataset 0 w) as [[e|[]] w1]; [reflexivity|].
  cbn [ret fst snd].
  destruct (latents_loop acc 0 dataset 0 _) as [[e|[]] w2]; reflexivity.
Qed.

(** The two encoding phases, for a process among at least one. *)
Lemma encode_phases_spec (acc : Accelerator) (dataset : list Sample) (w : World) :
  num_processes acc <> 0 ->
  exists first second w',
    encode_phases acc dataset w = (inr tt, w')
    /\ w_trace w'
       = w_trace w ++ first
         ++ [DeleteComponents; LogInfo "Memory after precomputing conditions";
             LoadLatentModels]
         ++ second
         ++ [DeleteComponents; WaitForEveryone; LogInfo "Precomputation complete";
             LogInfo "Memory after precomputing latents"]
    /\ saved first
       = imap (fun k i => ConditionsFile i k)
              (shard (num_processes acc) (process_index acc) (length dataset))
    /\ encoded_prompts first
       = omap (fun i => prompt <$> dataset !! i)
              (shard (num_processes acc) (process_index acc) (length dataset))
    /\ encoded_videos first = []
    /\ saved second
       = map (LatentsFile (process_index acc))
             (seq 0 (length (shard (num_processes acc) (process_index acc)
                                   (length dataset))))
    /\ encoded_videos second
       = omap (fun i => video <$> dataset !! i)
              (shard (num_processes acc) (process_index acc) (length dataset))
    /\ encoded_prompts second = []
    /\ w_dataloader w' = w_dataloader w
    /\ w_files w' = add_files (add_files (w_files w) (saved first)) (saved second).
Proof.
  intros HP.
  destruct (conditions_loop_spec acc dataset HP 0 0 w) as (nc & Hc & Hcs & Hcp & Hcv).
  unfold encode_phases. unfold mbind at 1. rewrite Hc.
  cbn [mbind emit ret fst snd w_files w_dataloader w_trace].
  unfold mbind at 1.
  match goal with |- context [latents_loop acc 0 dataset 0 ?w0] =>
    destruct (latents_loop_spec acc dataset HP 0 0 w0) as (nl & Hl & Hls & Hlv & Hlp);
    rewrite Hl
  end.
  cbn [mbind emit ret fst snd w_files w_dataloader w_trace].
  exists nc, nl. eexists. split; [reflexivity|]. cbn [w_files w_dataloader w_trace].
  split; [rewrite <- !app_assoc; reflexivity|].
  split.
  { rewrite Hcs. unfold shard. rewrite <- (kept_indices acc 0 dataset).
    change (map fst (kept acc 0 dataset)) with (fst <$> kept acc 0 dataset).
    rewrite imap_fmap. apply imap_ext. intros k p _. reflexivity. }
  split; [rewrite Hcp; apply kept_fields|].
  split; [exact Hcv|].
  split.
  { rewrite Hls. unfold shard. rewrite <- (kept_indices acc 0 dataset), length_map.
    reflexivity. }
  split; [rewrite Hlv; apply kept_fields|].
  split; [exact Hlp|].
  split; reflexivity.
Qed.

(** X7: with at least one process, the two encoding phases (lines 240-331)
    run up to the barrier without raising, also for an empty dataset or an
    empty shard.  In the first phase the process encodes the prompts of the
    samples whose index is congruent to its rank, in dataset order, and
    writes [conditions-<i>-<k>] for its [k]-th sample, of index [i]; no
    video is encoded in it.  The condition models are then released and the
    latent models loaded, and the second phase encodes the videos of the
    same samples in the same order and writes [latents-<rank>-<k>]; no
    prompt is encoded in it.  The phases leave the dataloader as it was, and
    the files the process found or wrote are in the directory afterwards. *)
Theorem encode_phases_write_shard (acc : Accelerator) (dataset : list Sample) (w : World) :
  num_processes acc <> 0 ->
  exists first second w',
    encode_phases acc dataset w = (inr tt, w')
    /\ w_trace w'
       = w_trace w ++ first
         ++ [DeleteComponents; LogInfo "Memory after precomputing conditions";
             LoadLatentModels]
         ++ second
         ++ [DeleteComponents; WaitForEveryone; LogInfo "Precomputation complete";
             LogInfo "Memory after precomputing latents"]
    /\ saved first
       = imap (fun k i => ConditionsFile i k)
              (shard (num_processes acc) (process_index acc) (length dataset))
    /\ encoded_prompts first
       = omap (fun i => prompt <$> dataset !! i)
              (shard (num_processes acc) (process_index acc) (length dataset))
    /\ encoded_videos first = []
    /\ saved second
       = map (LatentsFile (process_index acc))
             (seq 0 (length (shard (num_processes acc) (process_index acc)
                                   (length dataset))))
    /\ encoded_videos second
       = omap (fun i => video <$> dataset !! i)
              (shard (num_processes acc) (process_index acc) (length dataset))
    /\ encoded_prompts second = []
    /\ w_dataloader w' = w_dataloader w
    /\ (forall f,
          f ∈ w_files w
          \/ f ∈ shard_files (num_processes acc) (process_index acc) (length dataset) ->
          f ∈ w_files w').
Proof.
  intros HP.
  destruct (encode_phases_spec acc dataset w HP)
    as (first & second & w' & Hrun & Htr & Hcs & Hcp & Hcv & Hls & Hlv & Hlp & Hdl & Hfiles).
  exists first, second, w'.
  split; [exact Hrun|]. split; [exact Htr|]. split; [exact Hcs|]. split; [exact Hcp|].
  split; [exact Hcv|]. split; [exact Hls|]. split; [exact Hlv|]. split; [exact Hlp|].
  split; [exact Hdl|].
  intros f Hf. rewrite Hfiles, !add_files_elem, Hcs, Hls.
  unfold shard_files in Hf. rewrite elem_of_app in Hf. tauto.
Qed.

Lemma encode_phases_write_shard_witness :
  num_processes (process 2 1) <> 0
  /\ exists first second w',
       encode_phases (process 2 1) (two_samples ++ two_samples) empty_world = (inr tt, w')
       /\ saved first = [ConditionsFile 1 0; ConditionsFile 3 1]
       /\ encoded_prompts first = ["a dog"; "a dog"]%string
       /\ saved second = [LatentsFile 1 0; LatentsFile 1 1]
       /\ encoded_prompts second = [].
Proof.
  assert (HP : num_processes (process 2 1) <> 0) by discriminate.
  split; [exact HP|].
  destruct (encode_phases_write_shard (process 2 1) (two_samples ++ two_samples)
              empty_world HP)
    as (first & second & w' & Hrun & _ & Hcs & Hcp & _ & Hls & _ & Hlp & _).
  exists first, second, w'. split; [exact Hrun|]. split; [exact Hcs|].
  split; [exact Hcp|]. split; [exact Hls | exact Hlp].
Defined.

Lemma written_encode_and_store (args : Args) (acc : Accelerator)
    (dataset : list Sample) (w : World) :
  num_processes acc <> 0 ->
  written (encode_and_store args acc dataset) w
  = shard_files (num_processes acc) (process_index acc) (length dataset).
Proof.
  intros HP.
  destruct (encode_phases_spec acc dataset w HP)
    as (first & second & w' & Hrun & Htr & Hcs & _ & _ & Hls & _).
  unfold written. rewrite encode_and_store_phases. unfold mbind at 1. rewrite Hrun.
  cbn [set_dataloader snd w_trace]. rewrite Htr, drop_app_length, !saved_app.
  cbn [saved omap list_omap]. rewrite Hcs, Hls. unfold shard_files.
  rewrite app_nil_r. reflexivity.
Qed.

Lemma shard_lookup (P rank n k i : nat) :
  shard P rank n !! k = Some i -> i < n /\ i mod P = rank.
Proof.
  intros Hk. apply list_elem_of_lookup_2 in Hk. unfold shard in Hk.
  apply list_elem_of_filter in Hk as [Hmod Hseq]. apply elem_of_seq in Hseq. lia.
Qed.

Lemma shard_NoDup (P rank n : nat) : NoDup (shard P rank n).
Proof. apply NoDup_filter, NoDup_seq. Qed.

Lemma shard_files_conditions (P rank n i k : nat) :
  ConditionsFile i k ∈ shard_files P rank n <-> shard P rank n !! k = Some i.
Proof.
  unfold shard_files. rewrite elem_of_app, elem_of_lookup_imap. split.
  - intros [(k' & i' & Heq & Hk')|Hlat].
    + injection Heq as -> ->. exact Hk'.
    + apply list_elem_of_In, in_map_iff in Hlat as (k' & Heq & _). discriminate Heq.
  - intros Hk. left. eauto.
Qed.

Lemma shard_files_latents (P rank n r k : nat) :
  LatentsFile r k ∈ shard_files P rank n <-> r = rank /\ k < length (shard P rank n).
Proof.
  unfold shard_files. rewrite elem_of_app, elem_of_lookup_imap. split.
  - intros [(k' & i' & Heq & _)|Hlat]; [discriminate Heq|].
    apply list_elem_of_In, in_map_iff in Hlat as (k' & Heq & Hk').
    injection Heq as -> ->. apply in_seq in Hk'. lia.
  - intros [-> Hk]. right. apply list_elem_of_In, in_map_iff. exists k.
    split; [reflexivity|]. apply in_seq. lia.
Qed.

Lemma shard_files_NoDup (P rank n : nat) : NoDup (shard_files P rank n).
Proof.
  unfold shard_files. apply NoDup_app. split; [|split].
  - apply NoDup_alt. intros a b f Ha Hb.
    apply list_lookup_imap_Some in Ha as (i & _ & ->).
    apply list_lookup_imap_Some in Hb as (j & _ & Heq).
    injection Heq as _ Hab. exact Hab.
  - intros f Hf Hlat. apply elem_of_lookup_imap in Hf as (k & i & -> & _).
    apply list_elem_of_In, in_map_iff in Hlat as (k' & Heq & _). discriminate Heq.
  - apply NoDup_fmap_2; [|apply NoDup_seq]. intros a b Heq. injection Heq as ->.
    reflexivity.
Qed.

(** X8: the files written by the encoding phases never collide.  A process
    writes no file twice; two processes of different rank (among the same
    number of processes) write no file in common; a process writes
    [conditions-<i>-<k>] exactly when sample [i] is the [k]-th sample of its
    shard (so [i] is below the dataset length and congruent to its rank),
    and [latents-<r>-<k>] exactly when [r] is its rank and [k] is below the
    size of its shard. *)
Theorem shards_do_not_collide (args : Args) (acc acc' : Accelerator)
    (dataset : list Sample) (w w' : World) :
  num_processes acc <> 0 ->
  num_processes acc' = num_processes acc ->
  NoDup (written (encode_and_store args acc dataset) w)
  /\ (process_index acc <> process_index acc' ->
      forall f, f ∈ written (encode_and_store args acc dataset) w ->
                f ∉ written (encode_and_store args acc' dataset) w')
  /\ (forall i k,
        ConditionsFile i k ∈ written (encode_and_store args acc dataset) w
        <-> shard (num_processes acc) (process_index acc) (length dataset) !! k = Some i)
  /\ (forall i k,
        shard (num_processes acc) (process_index acc) (length dataset) !! k = Some i ->
        i < length dataset /\ i mod num_processes acc = process_index acc)
  /\ (forall r k,
        LatentsFile r k ∈ written (encode_and_store args acc dataset) w
        <-> r = process_index acc
            /\ k < length (shard (num_processes acc) (process_index acc) (length dataset))).
Proof.
  intros HP Hsame.
  rewrite (written_encode_and_store args acc dataset w HP).
  rewrite (written_encode_and_store args acc' dataset w') by (rewrite Hsame; exact HP).
  rewrite Hsame.
  split; [apply shard_files_NoDup|]. split; [|split; [|split]].
  - intros Hrank [i k|r k] Hf Hf'.
    + apply shard_files_conditions, shard_lookup in Hf as [_ Hf].
      apply shard_files_conditions, shard_lookup in Hf' as [_ Hf']. congruence.
    + apply shard_files_latents in Hf as [Hf _].
      apply shard_files_latents in Hf' as [Hf' _]. congruence.
  - intros i k. apply shard_files_conditions.
  - intros i k. apply shard_lookup.
  - intros r k. apply shard_files_latents.
Qed.

Lemma shards_do_not_collide_witness :
  num_processes (process 2 0) <> 0
  /\ num_processes (process 2 1) = num_processes (process 2 0)
  /\ process_index (process 2 0) <> process_index (process 2 1)
  /\ forall f,
       f ∈ written (encode_and_store launch_args (process 2 0) two_samples) empty_world ->
       f ∉ written (encode_and_store launch_args (process 2 1) two_samples) cached_world.
Proof.
  assert (HP : num_processes (process 2 0) <> 0) by discriminate.
  assert (Hsame : num_processes (process 2 1) = num_processes (process 2 0))
    by reflexivity.
  assert (Hrank : process_index (process 2 0) <> process_index (process 2 1))
    by discriminate.
  split; [exact HP|]. split; [exact Hsame|]. split; [exact Hrank|].
  destruct (shards_do_not_collide launch_args (process 2 0) (process 2 1) two_samples
              empty_world cached_world HP Hsame) as (_ & Hdisj & _).
  exact (Hdisj Hrank).
Defined.

End Sharding.


(** ** collate_fn *)

Section Collate.

Lemma map_result_inr {A B : Type} (f : A -> result B) (l : list A) (bs : list B) :
  map_result f l = inr bs <-> Forall2 (fun a b => f a = inr b) l bs.
Proof.
  revert bs. induction l as [|a l IH]; intros bs; simpl.
  - split.
    + intros H. injection H as <-. constructor.
    + intros H. apply Forall2_nil_inv_l in H as ->. reflexivity.
  - split.
    + intros H. apply bind_inr in H as (b & Hb & H).
      apply bind_inr in H as (bs' & Hbs & H). injection H as <-.
      constructor; [exact Hb | apply IH, Hbs].
    + intros H. apply Forall2_cons_inv_l in H as (b & bs' & Hb & Hbs & ->).
      rewrite Hb. simpl. apply IH in Hbs. rewrite Hbs. reflexivity.
Qed.

Lemma collate_fields_inr (cat : list stored -> result stored) (dicts : list pydict)
    (first out : pydict) :
  collate_fields cat first dicts = inr out <-> Forall2 (collated cat dicts) first out.
Proof.
  revert out. induction first as [|[key v0] rest IH]; intros out; simpl.
  - split.
    + intros H. injection H as <-. constructor.
    + intros H. apply Forall2_nil_inv_l in H as ->. reflexivity.
  - split.
    + intros H. apply bind_inr in H as (values & Hvalues & H).
      apply bind_inr in H as (v & Hv & H).
      apply bind_inr in H as (rest' & Hrest & H). injection H as <-.
      constructor; [|apply IH, Hrest].
      split; [reflexivity|]. exists values. split; [exact Hvalues|]. simpl.
      destruct (is_tensor v0); [exact Hv|].
      destruct values as [|v' values]; [discriminate Hv|]. injection Hv as ->. reflexivity.
    + intros H. apply Forall2_cons_inv_l in H as ([k v] & rest' & Hc & Hrest & ->).
      destruct Hc as (Hk & values & Hvalues & Hv). simpl in *. subst k.
      rewrite Hvalues. simpl.
      assert (Hv' : (if is_tensor v0 then cat values
                     else match values with
                          | v1 :: _ => ret v1
                          | [] => raise IndexError
                          end) = inr v).
      { destruct (is_tensor v0); [exact Hv|].
        destruct values as [|v1 values]; [discriminate Hv|].
        injection Hv as ->. reflexivity. }
      rewrite Hv'. simpl. apply IH in Hrest. rewrite Hrest. reflexivity.
Qed.

Lemma collated_keys (cat : list stored -> result stored) (dicts : list pydict)
    (first out : pydict) :
  Forall2 (collated cat dicts) first out -> map fst out = map fst first.
Proof.
  induction 1 as [|entry o first out [Hk _] _ IH]; [reflexivity|].
  simpl. rewrite Hk, IH. reflexivity.
Qed.

Lemma collated_present (cat : list stored -> result stored) (dicts : list pydict)
    (first out : pydict) :
  Forall2 (collated cat dicts) first out ->
  forall k, In k (map fst first) ->
    Forall (fun x => exists v, pydict_get x k = inr v) dicts.
Proof.
  induction 1 as [|entry o first out (_ & values & Hvalues & _) _ IH]; intros k Hk;
    [destruct Hk|].
  destruct Hk as [<-|Hk]; [|apply IH, Hk].
  apply map_result_inr in Hvalues. clear -Hvalues.
  induction Hvalues; constructor; eauto.
Qed.

(** X9: [collate_fn] raises IndexError on an empty batch.  On a non-empty
    batch it returns exactly when, for every key of the first item in
    order, every item has the key and the values combine: a tensor entry
    becomes the concatenation over all items, any other entry keeps the
    value of the first item.  The result then has the keys of the first
    item, in its order, and every item has each of them; keys that only
    later items have are dropped. *)
Theorem collate_fn_follows_first_item (cat : list stored -> result stored)
    (first : Item) (rest : list Item) (out : Item) :
  collate_fn cat [] = inl IndexError
  /\ (collate_fn cat (first :: rest) = inr out
      <-> Forall2 (collated cat (map item_latent_conditions (first :: rest)))
                  (item_latent_conditions first) (item_latent_conditions out)
          /\ Forall2 (collated cat (map item_text_conditions (first :: rest)))
                     (item_text_conditions first) (item_text_conditions out))
  /\ (collate_fn cat (first :: rest) = inr out ->
      map fst (item_latent_conditions out) = map fst (item_latent_conditions first)
      /\ map fst (item_text_conditions out) = map fst (item_text_conditions first)
      /\ (forall k, In k (map fst (item_latent_conditions first)) ->
            Forall (fun x => exists v, pydict_get (item_latent_conditions x) k = inr v)
                   (first :: rest))
      /\ (forall k, In k (map fst (item_text_conditions first)) ->
            Forall (fun x => exists v, pydict_get (item_text_conditions x) k = inr v)
                   (first :: rest))).
Proof.
  assert (Hiff : collate_fn cat (first :: rest) = inr out
                 <-> Forall2 (collated cat (map item_latent_conditions (first :: rest)))
                             (item_latent_conditions first) (item_latent_conditions out)
                     /\ Forall2 (collated cat (map item_text_conditions (first :: rest)))
                                (item_text_conditions first) (item_text_conditions out)).
  { unfold collate_fn. cbn [map]. split.
    - intros H. apply bind_inr in H as (bl & Hl & H).
      apply bind_inr in H as (bt & Ht & H). injection H as <-. simpl.
      split; apply collate_fields_inr; assumption.
    - intros [Hl Ht]. apply collate_fields_inr in Hl, Ht. cbn [map] in Hl, Ht.
      rewrite Hl. simpl. rewrite Ht. simpl. destruct out. reflexivity. }
  split; [reflexivity|]. split; [exact Hiff|].
  intros Hrun. apply Hiff in Hrun as [Hl Ht].
  split; [apply (collated_keys _ _ _ _ Hl)|].
  split; [apply (collated_keys _ _ _ _ Ht)|]. split.
  - intros k Hk. pose proof (collated_present _ _ _ _ Hl k Hk) as Hall.
    apply (proj1 (List.Forall_map item_latent_conditions _ (first :: rest))) in Hall.
    exact Hall.
  - intros k Hk. pose proof (collated_present _ _ _ _ Ht k Hk) as Hall.
    apply (proj1 (List.Forall_map item_text_conditions _ (first :: rest))) in Hall.
    exact Hall.
Qed.

Lemma collate_fn_follows_first_item_witness :
  exists out,
    collate_fn float_cat [item_a; item_b] = inr out
    /\ map fst (item_latent_conditions out) = ["latents"; "num_frames"]%string
    /\ pydict_get (item_latent_conditions out) "num_frames" = inr (StoredOther "49")
    /\ pydict_get (item_latent_conditions out) "latents"
       = inr (StoredTensor (FloatTensor [[1; 2]; [5; 6]]%Q)).
Proof.
  destruct (collate_fn float_cat [item_a; item_b]) as [e|out] eqn:Hrun.
  - vm_compute in Hrun. discriminate Hrun.
  - exists out. split; [reflexivity|].
    destruct (collate_fn_follows_first_item float_cat item_a [item_b] out)
      as (_ & _ & Hkeys).
    destruct (Hkeys Hrun) as (Hl & _). split; [exact Hl|].
    vm_compute in Hrun. injection Hrun as <-. split; reflexivity.
Defined.

Lemma pydict_get_entry (d : pydict) (k : string) (v : stored) :
  NoDup (map fst d) -> In (k, v) d -> pydict_get d k = inr v.
Proof.
  induction d as [|[k' v'] d IH]; intros Hnd Hin; [destruct Hin|].
  simpl in Hnd. apply NoDup_cons in Hnd as [Hk' Hnd]. simpl.
  destruct Hin as [Heq|Hin].
  - injection Heq as -> ->. rewrite String.eqb_refl. reflexivity.
  - destruct (String.eqb_spec k' k) as [->|Hne].
    + exfalso. apply Hk'. apply list_elem_of_In, in_map_iff. exists (k, v). auto.
    + apply IH; assumption.
Qed.

Lemma collate_fields_single (cat : list stored -> result stored) (d suffix : pydict) :
  (forall t, cat [StoredTensor t] = inr (StoredTensor t)) ->
  (forall k v, In (k, v) suffix -> pydict_get d k = inr v) ->
  collate_fields cat suffix [d] = inr suffix.
Proof.
  intros Hcat. induction suffix as [|[k v] suffix IH]; intros Hget; [reflexivity|].
  simpl. rewrite (Hget k v) by (left; reflexivity). simpl.
  rewrite IH by (intros k' v' Hin; apply Hget; right; exact Hin).
  destruct v as [t|o]; simpl; [rewrite Hcat|]; reflexivity.
Qed.

(** X10: a batch of one item collates to that item, as long as
    concatenating a single tensor gives the tensor back (which [torch.cat]
    does) and the dictionaries of the item have no repeated key. *)
Theorem collate_fn_single_item (cat : list stored -> result stored) (x : Item) :
  (forall t, cat [StoredTensor t] = inr (StoredTensor t)) ->
  NoDup (map fst (item_latent_conditions x)) ->
  NoDup (map fst (item_text_conditions x)) ->
  collate_fn cat [x] = inr x.
Proof.
  intros Hcat Hl Ht. unfold collate_fn. simpl.
  rewrite (collate_fields_single cat _ _ Hcat (fun k v => pydict_get_entry _ k v Hl)).
  simpl.
  rewrite (collate_fields_single cat _ _ Hcat (fun k v => pydict_get_entry _ k v Ht)).
  simpl. destruct x. reflexivity.
Qed.

Lemma collate_fn_single_item_witness :
  (forall t, toy_cat [StoredTensor t] = inr (StoredTensor t))
  /\ NoDup (map fst (item_latent_conditions item_b))
  /\ NoDup (map fst (item_text_conditions item_b))
  /\ collate_fn toy_cat [item_b] = inr item_b.
Proof.
  assert (Hcat : forall t, toy_cat [StoredTensor t] = inr (StoredTensor t))
    by (intros t; reflexivity).
  assert (Hlatent : NoDup (map fst (item_latent_conditions item_b)))
    by (repeat constructor; rewrite ?elem_of_cons, ?elem_of_nil; intuition discriminate).
  assert (Htext : NoDup (map fst (item_text_conditions item_b)))
    by (repeat constructor; rewrite ?elem_of_cons, ?elem_of_nil; intuition discriminate).
  split; [exact Hcat|]. split; [exact Hlatent|]. split; [exact Htext|].
  exact (collate_fn_single_item toy_cat item_b Hcat Hlatent Htext).
Defined.

End Collate.


(** ** The adapter hooks: errors and bookkeeping *)

Section Hooks.

Lemma pop_weight_take {W : Type} (weights : list W) :
  pop_weight weights = take (length weights - 1) weights.
Proof. destruct weights; reflexivity. Qed.

Lemma save_loop_all {W SD : Type} (cls : string) (get_state : Model -> SD)
    (models : list Model) :
  Forall (fun m => m_class m = cls) models ->
  forall (layers : option SD) (weights : list W),
    save_loop cls get_state models layers weights
    = (ret (from_option Some layers (get_state <$> last models)),
       take (length weights - length models) weights).
Proof.
  induction models as [|m rest IH]; intros Hall layers weights.
  - simpl. rewrite Nat.sub_0_r, firstn_all. reflexivity.
  - apply Forall_cons_1 in Hall as [Hm Hall]. simpl.
    rewrite Hm, String.eqb_refl, (IH Hall), pop_weight_take, (last_cons m rest).
    f_equal.
    + destruct (last rest); reflexivity.
    + rewrite length_take, take_take. f_equal. lia.
Qed.

Lemma save_loop_unexpected {W SD : Type} (cls : string) (get_state : Model -> SD)
    (models : list Model) :
  Exists (fun m => m_class m <> cls) models ->
  forall (layers : option SD) (weights : list W),
    fst (save_loop cls get_state models layers weights)
    = inl (ValueError "Unexpected save model").
Proof.
  induction models as [|m rest IH]; intros Hex layers weights.
  - apply Exists_nil in Hex. destruct Hex.
  - simpl. destruct (String.eqb_spec (m_class m) cls) as [Heq|Hne]; [|reflexivity].
    apply Exists_cons in Hex as [Hm|Hex]; [contradiction|]. apply (IH Hex).
Qed.

(** X11: the save hook does nothing on a process that is not the main one.
    On the main process, when every model is of the class of the
    transformer, it calls [save_lora_weights] once, with the adapter state
    of the last model (with no layers for an empty list), and pops one
    weight per model from the end of [weights] as long as there are any;
    when some model is of another class it raises ValueError and
    [save_lora_weights] is not called. *)
Theorem save_model_hook_cases {W SD : Type} (acc : Accelerator) (transformer : Model)
    (get_state : Model -> SD) (models : list Model) (weights : list W) :
  (is_main_process acc = false ->
   save_model_hook acc transformer get_state models weights = (inr None, weights))
  /\ (is_main_process acc = true ->
      Forall (fun m => m_class m = m_class transformer) models ->
      save_model_hook acc transformer get_state models weights
      = (inr (Some (get_state <$> last models)),
         take (length weights - length models) weights))
  /\ (is_main_process acc = true ->
      Exists (fun m => m_class m <> m_class transformer) models ->
      fst (save_model_hook acc transformer get_state models weights)
      = inl (ValueError "Unexpected save model")).
Proof.
  unfold save_model_hook. split; [|split].
  - intros ->. reflexivity.
  - intros -> Hall. rewrite (save_loop_all _ get_state models Hall None weights).
    simpl. destruct (last models); reflexivity.
  - intros -> Hex.
    pose proof (save_loop_unexpected (m_class transformer) get_state models Hex None weights)
      as Hraise.
    destruct (save_loop _ _ _ _ _) as [[e|layers] ws]; simpl in *;
      [injection Hraise as ->; reflexivity|discriminate Hraise].
Qed.

Lemma save_model_hook_cases_witness :
  is_main_process (process 2 0) = true
  /\ Forall (fun m => m_class m = m_class bf16_transformer) [fp16_transformer; bf16_transformer]
  /\ save_model_hook (process 2 0) bf16_transformer m_parameters
       [fp16_transformer; bf16_transformer] ["w1"; "w2"; "w3"]%string
     = (inr (Some (Some (m_parameters bf16_transformer))), ["w1"%string]).
Proof.
  assert (Hall : Forall (fun m => m_class m = m_class bf16_transformer)
                        [fp16_transformer; bf16_transformer])
    by (repeat constructor).
  split; [reflexivity|]. split; [exact Hall|].
  destruct (save_model_hook_cases (process 2 0) bf16_transformer m_parameters
              [fp16_transformer; bf16_transformer] ["w1"; "w2"; "w3"]%string)
    as (_ & Hmain & _).
  exact (Hmain eq_refl Hall).
Defined.

Lemma pop_models_unexpected (cls : string) (popped : list Model) :
  Exists (fun m => m_class m <> cls) popped ->
  forall found, pop_models cls popped found = inl (ValueError "Unexpected save model").
Proof.
  induction popped as [|m rest IH]; intros Hex found.
  - apply Exists_nil in Hex. destruct Hex.
  - simpl. destruct (String.eqb_spec (m_class m) cls) as [Heq|Hne]; [|reflexivity].
    apply Exists_cons in Hex as [Hm|Hex]; [contradiction|]. apply (IH Hex).
Qed.

(** X12: how the load hook fails.  Under ordinary replication it raises
    UnboundLocalError for an empty list of models ([transformer_] is never
    assigned) and ValueError as soon as some model, at any position, is not
    of the class of the transformer; in both cases no adapter is loaded.
    Under DeepSpeed the list of models is not looked at. *)
Theorem load_model_hook_failures (args : Args) (acc : Accelerator)
    (transformer from_pretrained : Model) (load_adapter : Model -> Model)
    (models : list Model) :
  (is_deepspeed acc = false ->
   load_model_hook args acc transformer from_pretrained load_adapter []
   = inl (UnboundLocalError "transformer_"))
  /\ (is_deepspeed acc = false ->
      Exists (fun m => m_class m <> m_class transformer) models ->
      load_model_hook args acc transformer from_pretrained load_adapter models
      = inl (ValueError "Unexpected save model"))
  /\ (is_deepspeed acc = true ->
      load_model_hook args acc transformer from_pretrained load_adapter models
      = load_model_hook args acc transformer from_pretrained load_adapter []).
Proof.
  unfold load_model_hook. split; [|split].
  - intros ->. reflexivity.
  - intros -> Hex. simpl.
    rewrite (pop_models_unexpected (m_class transformer) (rev models)); [reflexivity|].
    apply Exists_exists in Hex as (m & Hm & Hclass). apply Exists_exists.
    exists m. split; [|exact Hclass].
    apply list_elem_of_In, in_rev. rewrite rev_involutive. apply list_elem_of_In, Hm.
  - intros ->. reflexivity.
Qed.

Lemma load_model_hook_failures_witness :
  is_deepspeed (process 1 0) = false
  /\ Exists (fun m => m_class m <> m_class bf16_transformer)
            [bf16_transformer; {| m_class := "AutoencoderKL"; m_parameters := [] |}]
  /\ load_model_hook launch_args (process 1 0) bf16_transformer bf16_transformer
       (fun m => m) [bf16_transformer; {| m_class := "AutoencoderKL"; m_parameters := [] |}]
     = inl (ValueError "Unexpected save model").
Proof.
  assert (Hex : Exists (fun m => m_class m <> m_class bf16_transformer)
                  [bf16_transformer; {| m_class := "AutoencoderKL"; m_parameters := [] |}])
    by (apply Exists_cons_tl, Exists_cons_hd; discriminate).
  split; [reflexivity|]. split; [exact Hex|].
  destruct (load_model_hook_failures launch_args (process 1 0) bf16_transformer
              bf16_transformer (fun m => m)
              [bf16_transformer; {| m_class := "AutoencoderKL"; m_parameters := [] |}])
    as (_ & Hbad & _).
  exact (Hbad eq_refl Hex).
Defined.



End Hooks.


(** ** Loading the components *)

Section ComponentLoading.

Context {C Cfg : Type}.

Lemma set_components_component (components : gmap string (option C)) (self : Components C)
    (name : string) :
  name ∈ component_names ->
  component (_set_components components self) name
  = get_default components name (component self name).
Proof.
  intros Hname. unfold component_names in Hname.
  repeat (apply elem_of_cons in Hname as [->|Hname]; [reflexivity|]).
  apply elem_of_nil in Hname. destruct Hname.
Qed.

Lemma get_default_update (components other : gmap string (option C)) (key : string)
    (default : option C) :
  get_default (dict_update components other) key default
  = get_default other key (get_default components key default).
Proof.
  unfold get_default, dict_update. rewrite lookup_union.
  destruct (other !! key), (components !! key); reflexivity.
Qed.

Lemma get_default_empty (key : string) (default : option C) :
  get_default ∅ key default = default.
Proof. unfold get_default. rewrite lookup_empty. reflexivity. Qed.

(** X14: which object a component ends up as.  With precomputation
    requested no loader result is used and every component stays what it
    was.  Otherwise, for each of the ten component names, the value from
    the diffusion loader wins over the one from the latent loader, which
    wins over the one from the condition loader (a key present with value
    None counts), and a name none of them returns keeps the old component.
    In both cases [transformer_config] is the configuration of the
    resulting transformer, and nothing is called on the VAE when there is
    none. *)
Theorem prepare_models_precedence (args : Args) (slicing tiling : bool) (config_of : C -> Cfg)
    (cond lat diff : gmap string (option C)) (self : Components C) :
  let '(self', calls, config) :=
    prepare_models args slicing tiling config_of cond lat diff self in
  (precompute_conditions args = true -> self' = self)
  /\ (precompute_conditions args = false ->
      forall name, name ∈ component_names ->
        component self' name
        = get_default diff name
            (get_default lat name (get_default cond name (component self name))))
  /\ config = config_of <$> self_transformer self'
  /\ (self_vae self' = None -> calls = []).
Proof.
  unfold prepare_models.
  destruct (precompute_conditions args); simpl negb; cbv iota beta zeta.
  - split; [|split; [|split]].
    + intros _. unfold _set_components.
      rewrite !get_default_update, !get_default_empty. destruct self; reflexivity.
    + discriminate.
    + reflexivity.
    + intros ->. reflexivity.
  - split; [|split; [|split]].
    + discriminate.
    + intros _ name Hname.
      rewrite (set_components_component _ self name Hname), !get_default_update,
        get_default_empty.
      reflexivity.
    + reflexivity.
    + intros ->. reflexivity.
Qed.

End ComponentLoading.

Lemma prepare_models_precedence_witness :
  precompute_conditions (dropout_args false "empty" 0) = false
  /\ component
       (fst (fst (prepare_models (dropout_args false "empty" 0) true false String.length
                    toy_condition_models toy_latent_models toy_diffusion_models
                    toy_components))) "vae"
     = Some "latent vae"%string.
Proof.
  split; [reflexivity|].
  pose proof (prepare_models_precedence (C := string) (Cfg := nat)
                (dropout_args false "empty" 0) true false String.length
                toy_condition_models toy_latent_models toy_diffusion_models
                toy_components) as H.
  destruct (prepare_models _ _ _ _ _ _ _ _) as [[self' calls] config].
  destruct H as (_ & Hprec & _).
  simpl fst. rewrite (Hprec eq_refl "vae"%string) by (unfold component_names; set_solver).
  reflexivity.
Defined.


(** ** Flow matching: geometry, sign of the loss, sigma lookup *)

Section FlowGeometry.

Local Open Scope Q_scope.

Lemma same_shape_sym (A B : ftensor) : same_shape A B -> same_shape B A.
Proof. unfold same_shape. intros H. symmetry. exact H. Qed.

(** X15: entry by entry, the noisy latents are the clean latents moved by
    sigma times the regression target, and the noise is the noisy latents
    moved by (1 - sigma) times the target: the target [noise - latents] is
    the direction of the straight path from the clean latents (sigma 0) to
    the noise (sigma 1) on which the noisy latents lie. *)
Theorem noisy_latents_along_target (sigmas : list Q) (x n : ftensor) :
  same_shape x n ->
  forall (b j : nat) (s xv nv : Q),
    sigmas !! b = Some s -> tget x b j = Some xv -> tget n b j = Some nv ->
    exists v tv,
      tget (noisy_latents sigmas x n) b j = Some v
      /\ tget (target n x) b j = Some tv
      /\ v == xv + s * tv
      /\ v + (1 - s) * tv == nv.
Proof.
  intros Hshape b j s xv nv Hs Hx Hn.
  exists ((1 - s) * xv + s * nv), (nv - xv).
  split; [apply (noisy_latents_tget sigmas x n Hshape b j s xv nv Hs Hx Hn)|].
  split; [apply (bcast_tget Qminus n x (same_shape_sym x n Hshape) b j nv xv Hn Hx)|].
  split; ring.
Qed.

Lemma noisy_latents_along_target_witness :
  same_shape toy_latents toy_noise
  /\ exists v tv,
       tget (noisy_latents toy_sigmas toy_latents toy_noise) 2 1 = Some v
       /\ tget (target toy_noise toy_latents) 2 1 = Some tv
       /\ v == 6 + (1 # 2) * tv
       /\ v + (1 - (1 # 2)) * tv == 12.
Proof.
  assert (Hshape : same_shape toy_latents toy_noise) by reflexivity.
  split; [exact Hshape|].
  apply (noisy_latents_along_target toy_sigmas toy_latents toy_noise Hshape 2 1
           (1 # 2) 6 12); reflexivity.
Defined.

Lemma sum_nonneg (l : list Q) : Forall (fun e => 0 <= e) l -> 0 <= sum l.
Proof.
  induction 1 as [|e l He _ IH]; simpl; [discriminate|].
  change 0 with (0 + 0). apply Qplus_le_compat; assumption.
Qed.

Lemma sum_zero (l : list Q) : Forall (fun e => e == 0) l -> sum l == 0.
Proof.
  induction 1 as [|e l He _ IH]; simpl; [reflexivity|].
  rewrite He, IH. reflexivity.
Qed.

Lemma mean_nonneg (l : list Q) : Forall (fun e => 0 <= e) l -> 0 <= mean l.
Proof.
  intros Hl. unfold mean, Qdiv. apply Qmult_le_0_compat; [apply sum_nonneg, Hl|].
  apply Qinv_le_0_compat. unfold Qle. simpl. lia.
Qed.

Lemma mean_zero (l : list Q) : Forall (fun e => e == 0) l -> mean l == 0.
Proof.
  intros Hl. unfold mean, Qdiv. rewrite (sum_zero l Hl). apply Qmult_0_l.
Qed.

Lemma square_nonneg (a : Q) : 0 <= a ^ 2.
Proof.
  assert (Hsq : a ^ 2 == a * a) by (simpl; reflexivity).
  rewrite Hsq. destruct (Qlt_le_dec a 0) as [Hneg|Hpos].
  - assert (H : a * a == (- a) * (- a)) by ring. rewrite H.
    apply Qmult_le_0_compat; lra.
  - apply Qmult_le_0_compat; assumption.
Qed.

Lemma example_errors_nonneg (w : Q) (p n x : list Q) :
  0 <= w -> Forall (fun e => 0 <= e) (example_errors w p n x).
Proof.
  intros Hw. revert n x. induction p as [|pv p IH]; intros [|nv n] [|xv x];
    try (apply Forall_nil_2).
  cbn [example_errors]. apply Forall_cons_2; [|apply IH].
  apply Qmult_le_0_compat; [exact Hw | apply square_nonneg].
Qed.

Lemma example_errors_zero (w : Q) (p n x : list Q) :
  Forall2 Qeq p (zip_with Qminus n x) ->
  Forall (fun e => e == 0) (example_errors w p n x).
Proof.
  revert n x. induction p as [|pv p IH]; intros [|nv n] [|xv x] Hp;
    try (apply Forall_nil_2).
  cbn [zip_with] in Hp. apply Forall2_cons_1 in Hp as [Hv Hp].
  cbn [example_errors]. apply Forall_cons_2; [|apply IH, Hp].
  assert (Hsq : (pv - (nv - xv)) ^ 2 == (pv - (nv - xv)) * (pv - (nv - xv)))
    by (simpl; reflexivity).
  rewrite Hsq, Hv. ring.
Qed.

Lemma batch_errors_nonneg (weighting : Q -> Q) (sigmas : list Q) (pred noise latents : ftensor) :
  Forall (fun s => 0 <= weighting s) sigmas ->
  Forall (fun e => 0 <= e) (batch_errors weighting sigmas pred noise latents).
Proof.
  intros Hw. revert pred noise latents.
  induction Hw as [|s ss Hs _ IH]; intros [|p ps] [|n ns] [|x xs];
    try (apply Forall_nil_2).
  cbn [batch_errors]. apply Forall_cons_2; [|apply IH].
  apply mean_nonneg, example_errors_nonneg, Hs.
Qed.

Lemma batch_errors_zero (weighting : Q -> Q) (sigmas : list Q) (pred noise latents : ftensor) :
  same_shape noise latents ->
  tensor_eq pred (target noise latents) ->
  Forall (fun e => e == 0) (batch_errors weighting sigmas pred noise latents).
Proof.
  revert pred noise latents.
  induction sigmas as [|s ss IH]; intros [|p ps] [|n ns] [|x xs] Hshape Heq;
    try (apply Forall_nil_2).
  apply same_shape_cons_inv in Hshape as [Hrow Hshape].
  unfold tensor_eq, target, tsub, bcast in Heq. cbn [zip_with] in Heq.
  apply Forall2_cons_1 in Heq as [Hp Heq].
  rewrite (bcast_row_same_length Qminus n x Hrow) in Hp.
  cbn [batch_errors]. apply Forall_cons_2.
  - apply mean_zero, example_errors_zero, Hp.
  - apply IH; [exact Hshape | exact Heq].
Qed.

(** X16: the sign of the loss.  For tensors of one shape, the loss is not
    negative as soon as the weighting is not negative at the sigmas of the
    batch, and it is zero for a prediction equal to the target
    [noise - latents]. *)
Theorem flow_matching_loss_sign (weighting : Q -> Q) (sigmas : list Q)
    (pred noise latents : ftensor) :
  same_shape noise latents -> same_shape pred latents ->
  (Forall (fun s => 0 <= weighting s) sigmas ->
   0 <= flow_matching_loss weighting sigmas pred noise latents)
  /\ (tensor_eq pred (target noise latents) ->
      flow_matching_loss weighting sigmas pred noise latents == 0).
Proof.
  intros Hn Hp. unfold flow_matching_loss.
  rewrite (flow_matching_loss_rows weighting sigmas pred noise latents Hn Hp).
  split.
  - intros Hw. apply mean_nonneg, batch_errors_nonneg, Hw.
  - intros Heq. apply mean_zero, batch_errors_zero; assumption.
Qed.

Lemma flow_matching_loss_sign_witness :
  same_shape pair_noise pair_latents
  /\ same_shape (target pair_noise pair_latents) pair_latents
  /\ 0 <= flow_matching_loss pair_weighting pair_sigmas pair_pred pair_noise pair_latents
  /\ flow_matching_loss pair_weighting pair_sigmas (target pair_noise pair_latents)
       pair_noise pair_latents == 0.
Proof.
  assert (Hn : same_shape pair_noise pair_latents) by reflexivity.
  assert (Hp : same_shape pair_pred pair_latents) by reflexivity.
  assert (Ht : same_shape (target pair_noise pair_latents) pair_latents) by reflexivity.
  split; [exact Hn|]. split; [exact Ht|]. split.
  - apply (flow_matching_loss_sign pair_weighting pair_sigmas pair_pred pair_noise
             pair_latents Hn Hp).
    repeat constructor; discriminate.
  - apply (flow_matching_loss_sign pair_weighting pair_sigmas
             (target pair_noise pair_latents) pair_noise pair_latents Hn Ht).
    repeat constructor; reflexivity.
Defined.

Lemma long_floor (q : Q) : 0 <= q -> long q = Qfloor q.
Proof.
  intros Hq. unfold long. destruct q as [num den]. unfold Qfloor.
  apply Z.quot_div_nonneg; [|lia].
  unfold Qle in Hq. simpl in Hq. lia.
Qed.

Lemma py_index_error (table : list Q) (i : Z) (e : exn) :
  py_index table i = inl e -> e = IndexError.
Proof.
  unfold py_index. destruct (_ && _)%bool; [destruct (table !! _)|]; intros H.
  - discriminate H.
  - injection H as <-. reflexivity.
  - injection H as <-. reflexivity.
Qed.

Lemma py_index_in_range (table : list Q) (i : Z) :
  (0 <= i < Z.of_nat (length table))%Z ->
  exists v, table !! Z.to_nat i = Some v /\ py_index table i = inr v.
Proof.
  intros Hi. unfold py_index.
  destruct (Z.ltb_spec i 0) as [Hneg|_]; [lia|].
  destruct (Z.leb_spec 0 i) as [_|Hneg]; [|lia].
  destruct (Z.ltb_spec i (Z.of_nat (length table))) as [_|Hbig]; [|lia].
  simpl. destruct (lookup_lt_is_Some_2 table (Z.to_nat i)) as [v Hv]; [lia|].
  exists v. rewrite Hv. split; reflexivity.
Qed.

Lemma py_index_past_end (table : list Q) (i : Z) :
  (Z.of_nat (length table) <= i)%Z -> py_index table i = inl IndexError.
Proof.
  intros Hi. unfold py_index.
  destruct (Z.ltb_spec i 0) as [Hneg|_]; [lia|].
  destruct (Z.ltb_spec i (Z.of_nat (length table))) as [Hsmall|_]; [lia|].
  rewrite andb_false_r. reflexivity.
Qed.

Lemma map_result_index_error (table : list Q) (indices : list Z) :
  Exists (fun i => py_index table i = inl IndexError) indices ->
  map_result (py_index table) indices = inl IndexError.
Proof.
  induction indices as [|i indices IH]; intros Hex.
  - apply Exists_nil in Hex. destruct Hex.
  - cbn [map_result]. destruct (py_index table i) as [e|v] eqn:Hi.
    + apply py_index_error in Hi as ->. reflexivity.
    + apply Exists_cons in Hex as [Hhd|Htl]; [rewrite Hi in Hhd; discriminate Hhd|].
      unfold bind at 1. rewrite (IH Htl). reflexivity.
Qed.

Lemma train_step_sigmas (ext : Externals) (mc : ModelConfig) (args : Args)
    (scheduler : Scheduler) (gauss : nat -> nat -> Q) (batch : Batch) (rng : Random)
    (out : StepOutput) :
  train_step ext mc args scheduler gauss batch rng = inr out ->
  sample_sigmas scheduler
    (compute_density_for_timestep_sampling ext (sc_batch_size (so_conditions out)))
  = inr (so_sigmas out).
Proof.
  unfold train_step. intros Hrun.
  apply bind_inr in Hrun as (sc & _ & Hrun).
  apply bind_inr in Hrun as (sigmas & Hsigmas & Hrun).
  apply bind_inr in Hrun as (latents & _ & Hrun).
  apply bind_inr in Hrun as (pred & _ & Hrun).
  injection Hrun as <-. exact Hsigmas.
Qed.

(** X17: the sigma lookup of a step.  The sigmas a step works with are the
    result of indexing the scheduler's table at
    [floor(weight * num_train_timesteps)].  The lookup succeeds, entry by
    entry, when every density weight lies in [0, 1) and the table has at
    least [num_train_timesteps] entries; a single weight with
    [weight * num_train_timesteps] at or beyond the length of the table
    (a weight of 1 for a table of [num_train_timesteps] entries) makes the
    lookup raise IndexError, so that the step does not return. *)
Theorem sigma_lookup (ext : Externals) (mc : ModelConfig) (args : Args)
    (scheduler : Scheduler) (gauss : nat -> nat -> Q) (batch : Batch) (rng : Random)
    (weights : list Q) :
  let table := scheduler_sigmas scheduler in
  let T := num_train_timesteps scheduler in
  (forall out,
     train_step ext mc args scheduler gauss batch rng = inr out ->
     sample_sigmas scheduler
       (compute_density_for_timestep_sampling ext (sc_batch_size (so_conditions out)))
     = inr (so_sigmas out))
  /\ ((0 < T)%Z -> (T <= Z.of_nat (length table))%Z ->
      Forall (fun w => 0 <= w < 1) weights ->
      exists sigmas,
        sample_sigmas scheduler weights = inr sigmas
        /\ Forall2 (fun w s => table !! Z.to_nat (Qfloor (w * inject_Z T)) = Some s)
                   weights sigmas)
  /\ (Exists (fun w => inject_Z (Z.of_nat (length table)) <= w * inject_Z T) weights ->
      sample_sigmas scheduler weights = inl IndexError).
Proof.
  intros table T. split; [|split].
  - intros out. apply train_step_sigmas.
  - intros HT Hlen Hw. unfold sample_sigmas. fold table T.
    induction Hw as [|w ws [Hw0 Hw1] _ IH].
    + exists []. split; [reflexivity | constructor].
    + destruct IH as (sigmas & Hsigmas & Hall).
      assert (Hq0 : 0 <= w * inject_Z T).
      { apply Qmult_le_0_compat; [exact Hw0|]. unfold Qle. simpl. lia. }
      assert (Hq1 : w * inject_Z T < inject_Z T).
      { apply Qlt_le_trans with (1 * inject_Z T).
        - apply Qmult_lt_compat_r; [|exact Hw1]. unfold Qlt. simpl. lia.
        - rewrite Qmult_1_l. apply Qle_refl. }
      assert (Hfloor : (0 <= Qfloor (w * inject_Z T) < Z.of_nat (length table))%Z).
      { split.
        - change 0%Z with (Qfloor 0). apply Qfloor_resp_le, Hq0.
        - apply Z.lt_le_trans with T; [|exact Hlen].
          rewrite Zlt_Qlt. apply Qle_lt_trans with (w * inject_Z T); [|exact Hq1].
          apply Qfloor_le. }
      destruct (py_index_in_range table _ Hfloor) as (v & Hv & Hindex).
      exists (v :: sigmas). split.
      * cbn [map map_result]. rewrite (long_floor _ Hq0), Hindex.
        unfold bind at 1. rewrite Hsigmas. reflexivity.
      * constructor; [exact Hv | exact Hall].
  - intros Hex. unfold sample_sigmas. apply map_result_index_error.
    apply Exists_exists in Hex as (w & Hin & Hbig). apply Exists_exists.
    exists (long (w * inject_Z T)). split.
    + apply list_elem_of_In, in_map_iff. exists w. split; [reflexivity|].
      apply list_elem_of_In, Hin.
    + assert (Hq0 : 0 <= w * inject_Z T).
      { apply Qle_trans with (inject_Z (Z.of_nat (length table))); [|exact Hbig].
        unfold Qle. simpl. lia. }
      rewrite (long_floor _ Hq0). apply py_index_past_end.
      pose proof (Qfloor_resp_le _ _ Hbig) as Hfloor. rewrite Qfloor_Z in Hfloor.
      exact Hfloor.
Qed.

Lemma sigma_lookup_witness :
  exists sigmas,
    sample_sigmas toy_scheduler [0; 1 # 2; 7 # 8]%Q = inr sigmas
    /\ Forall2 (fun w s => scheduler_sigmas toy_scheduler
                           !! Z.to_nat (Qfloor (w * inject_Z 4)) = Some s)
               [0; 1 # 2; 7 # 8]%Q sigmas.
Proof.
  destruct (sigma_lookup toy_externals toy_model_config launch_args toy_scheduler
              (fun _ _ => 0) (LiveBatch [] []) toy_random [0; 1 # 2; 7 # 8]%Q)
    as (_ & Hok & _).
  apply Hok; [reflexivity | simpl; lia |].
  repeat constructor; discriminate.
Defined.

End FlowGeometry.


(** ** Caption dropout: what it touches and what it draws *)

Section DropoutFootprint.

Local Open Scope Q_scope.

Lemma dict_get_inr (d : gmap string tensor) (k : string) (v : tensor) :
  dict_get d k = inr v -> d !! k = Some v.
Proof.
  unfold dict_get. destruct (d !! k); intros H; [injection H as ->; reflexivity|discriminate H].
Qed.

Lemma zero_embeds_result (args : Args) (tc tc' : gmap string tensor) (rng rng' : Random)
    (events : list StepEvent) :
  zero_embeds args tc rng = inr (tc', rng', events) ->
  (tc' = tc /\ events = [])
  \/ (exists embeds mask,
        tc !! "prompt_embeds"%string = Some embeds
        /\ tc !! "prompt_attention_mask"%string = Some mask
        /\ events = [EmbedsZeroed]
        /\ let zeroed := <["prompt_attention_mask"%string := fill_zero mask]>
                           (<["prompt_embeds"%string := fill_zero embeds]> tc) in
           tc' = match tc !! "pooled_prompt_embeds"%string with
                 | Some pooled => <["pooled_prompt_embeds"%string := fill_zero pooled]> zeroed
                 | None => zeroed
                 end).
Proof.
  unfold zero_embeds. destruct (String.eqb _ _).
  - unfold random_random. destruct (Qltb _ _).
    + intros Hrun.
      apply bind_inr in Hrun as (embeds & Hembeds & Hrun).
      apply bind_inr in Hrun as (mask & Hmask & Hrun).
      apply dict_get_inr in Hembeds, Hmask.
      rewrite lookup_insert_ne in Hmask by discriminate.
      right. exists embeds, mask. split; [exact Hembeds|]. split; [exact Hmask|].
      injection Hrun as <- _ <-. split; [reflexivity|].
      cbv zeta. rewrite !lookup_insert_ne by discriminate. reflexivity.
    + intros Hrun. injection Hrun as <- _ <-. left. split; reflexivity.
  - intros Hrun. injection Hrun as <- _ <-. left. split; reflexivity.
Qed.

(** X18: the footprint of the "zero" technique on the text conditions.
    Whatever the configuration and the random draw, the dictionary after
    the dropout stage has the keys it had before, every tensor in it is the
    one that was there or that one filled with zeros, so every tensor keeps
    its shape, and all keys other than "prompt_embeds",
    "prompt_attention_mask" and "pooled_prompt_embeds" keep their
    tensor. *)
Theorem zero_dropout_footprint (args : Args) (tc tc' : gmap string tensor)
    (rng rng' : Random) (events : list StepEvent) :
  zero_embeds args tc rng = inr (tc', rng', events) ->
  (forall k, is_Some (tc' !! k) <-> is_Some (tc !! k))
  /\ (forall k t', tc' !! k = Some t' ->
        exists t, tc !! k = Some t /\ (t' = t \/ t' = fill_zero t) /\ tshape t' = tshape t)
  /\ (forall k, k ∉ zeroed_keys -> tc' !! k = tc !! k).
Proof.
  intros Hrun.
  assert (Hkey : forall k,
            tc' !! k = tc !! k
            \/ (k ∈ zeroed_keys /\ exists t, tc !! k = Some t /\ tc' !! k = Some (fill_zero t))).
  { intros k. apply zero_embeds_result in Hrun as [[-> _]|(embeds & mask & He & Hm & _ & ->)];
      [left; reflexivity|].
    cbv zeta. unfold zeroed_keys.
    destruct (decide (k = "pooled_prompt_embeds"%string)) as [->|Hpooled].
    - destruct (tc !! "pooled_prompt_embeds"%string) as [pooled|] eqn:Hp.
      + right. split; [set_solver|]. exists pooled. split; [reflexivity|].
        apply lookup_insert_eq.
      + left. rewrite !lookup_insert_ne by discriminate. exact Hp.
    - assert (Hskip : forall m : gmap string tensor,
                match tc !! "pooled_prompt_embeds"%string with
                | Some pooled => <["pooled_prompt_embeds"%string := fill_zero pooled]> m
                | None => m
                end !! k = m !! k).
      { intros m. destruct (tc !! "pooled_prompt_embeds"%string); [|reflexivity].
        apply lookup_insert_ne. congruence. }
      rewrite Hskip.
      destruct (decide (k = "prompt_attention_mask"%string)) as [->|Hmask].
      + right. split; [set_solver|]. exists mask. split; [exact Hm|].
        apply lookup_insert_eq.
      + rewrite lookup_insert_ne by congruence.
        destruct (decide (k = "prompt_embeds"%string)) as [->|Hembeds].
        * right. split; [set_solver|]. exists embeds. split; [exact He|].
          apply lookup_insert_eq.
        * left. apply lookup_insert_ne. congruence. }
  split; [|split].
  - intros k. destruct (Hkey k) as [->|(_ & t & -> & ->)]; [reflexivity|].
    split; intros _; eexists; reflexivity.
  - intros k t' Ht'. destruct (Hkey k) as [Hsame|(_ & t & Ht & Hzero)].
    + exists t'. rewrite <- Hsame. split; [exact Ht'|]. split; [left|]; reflexivity.
    + exists t. split; [exact Ht|]. rewrite Hzero in Ht'. injection Ht' as <-.
      split; [right; reflexivity | apply tshape_fill_zero].
  - intros k Hk. destruct (Hkey k) as [Hsame|[Hin _]]; [exact Hsame | contradiction].
Qed.

Lemma zero_dropout_footprint_witness :
  exists tc' rng' events,
    zero_embeds (dropout_args true "zero" 1) toy_text_conditions toy_random
    = inr (tc', rng', events)
    /\ (forall k, is_Some (tc' !! k) <-> is_Some (toy_text_conditions !! k))
    /\ (forall k, k ∉ zeroed_keys -> tc' !! k = toy_text_conditions !! k).
Proof.
  destruct (zero_embeds_fires (dropout_args true "zero" 1) toy_text_conditions toy_random
              (FloatTensor [[4; 5]]) (BoolTensor [[true; true]])
              eq_refl eq_refl eq_refl eq_refl) as (tc' & Hrun & _).
  exists tc', (advance toy_random), [EmbedsZeroed]. split; [exact Hrun|].
  destruct (zero_dropout_footprint _ _ _ _ _ _ Hrun) as (Hkeys & _ & Hother).
  split; [exact Hkeys | exact Hother].
Defined.

Lemma drop_prompts_cursor (args : Args) (prompts prompts' : list string) (n : nat)
    (rng rng' : Random) (events : list StepEvent) :
  drop_prompts args prompts n rng = (prompts', rng', events) ->
  cursor rng' = (cursor rng
                 + if String.eqb (caption_dropout_technique args) "empty" then 1 else 0)%nat
  /\ (Qltb (draws rng (cursor rng)) (caption_dropout_p args) = false ->
      prompts' = prompts /\ events = []).
Proof.
  unfold drop_prompts. destruct (String.eqb _ _).
  - unfold random_random. destruct (Qltb _ _); intros Hrun; injection Hrun as <- <- <-;
      simpl; (split; [lia|]); [discriminate | auto].
  - intros Hrun. injection Hrun as <- <- <-. split; [lia | auto].
Qed.

Lemma zero_embeds_cursor (args : Args) (tc tc' : gmap string tensor)
    (rng rng' : Random) (events : list StepEvent) :
  zero_embeds args tc rng = inr (tc', rng', events) ->
  cursor rng' = (cursor rng
                 + if String.eqb (caption_dropout_technique args) "zero" then 1 else 0)%nat
  /\ (Qltb (draws rng (cursor rng)) (caption_dropout_p args) = false ->
      tc' = tc /\ events = []).
Proof.
  unfold zero_embeds. destruct (String.eqb _ _).
  - unfold random_random. destruct (Qltb _ _); intros Hrun.
    + apply bind_inr in Hrun as (embeds & _ & Hrun).
      apply bind_inr in Hrun as (mask & _ & Hrun).
      injection Hrun as _ <- _. simpl. split; [lia | discriminate].
    + injection Hrun as <- <- <-. simpl. split; [lia | auto].
  - intros Hrun. injection Hrun as <- <- <-. split; [lia | auto].
Qed.

Lemma batch_conditions_cursor (ext : Externals) (mc : ModelConfig) (args : Args)
    (batch : Batch) (rng : Random) (sc : StepConditions) :
  batch_conditions ext mc args batch rng = inr sc ->
  cursor (sc_random sc)
  = (cursor rng
     + if (negb (precompute_conditions args)
           && String.eqb (caption_dropout_technique args) "empty")%bool then 1 else 0)%nat
  /\ (Qltb (draws rng (cursor rng)) (caption_dropout_p args) = false ->
      ~ In PromptsReplaced (sc_events sc)).
Proof.
  unfold batch_conditions. destruct (negb (precompute_conditions args)).
  - destruct batch as [videos prompts|lc tc]; [|discriminate].
    destruct (drop_prompts args prompts (length prompts) rng)
      as [[prompts' rng'] dropped] eqn:Hdrop.
    intros Hrun. injection Hrun as <-. simpl.
    destruct (drop_prompts_cursor _ _ _ _ _ _ _ Hdrop) as [Hcursor Hskip].
    split; [exact Hcursor|].
    intros Hno. destruct (Hskip Hno) as [_ ->]. simpl.
    intros [H|[H|[]]]; discriminate H.
  - destruct batch as [videos prompts|lc tc]; [discriminate|].
    intros Hrun.
    apply bind_inr in Hrun as (l1 & _ & Hrun).
    apply bind_inr in Hrun as (l2 & _ & Hrun).
    injection Hrun as <-. simpl. split; [lia|]. intros _ [].
Qed.

(** X19: the random numbers of the dropout stage.  A step whose conditions
    stage returns has called [random.random()] exactly [dropout_draws]
    times: once under "empty" with live encoding, once under "zero", never
    otherwise, and that whatever the probability is and whether or not the
    dropout applied.  With a probability of zero or less (and draws that
    are not negative) no prompt is replaced and no embedding is zeroed, yet
    the number is drawn all the same. *)
Theorem dropout_random_draws (ext : Externals) (mc : ModelConfig) (args : Args)
    (batch : Batch) (rng : Random) (sc : StepConditions) :
  step_conditions ext mc args batch rng = inr sc ->
  cursor (sc_random sc) = (cursor rng + dropout_draws args)%nat
  /\ draws (sc_random sc) = draws rng
  /\ (dropout_draws args <= 1)%nat
  /\ (caption_dropout_p args <= 0 -> (forall k, 0 <= draws rng k) ->
      ~ In PromptsReplaced (sc_events sc) /\ ~ In EmbedsZeroed (sc_events sc)).
Proof.
  intros Hrun.
  destruct (batch_conditions ext mc args batch rng) as [e|sc0] eqn:Hbc;
    [unfold step_conditions in Hrun; rewrite Hbc in Hrun; discriminate Hrun|].
  rewrite (step_conditions_unfold _ _ _ _ _ _ Hbc) in Hrun.
  apply bind_inr in Hrun as ([[tc' rng'] zeroed] & Hzero & Hrun).
  injection Hrun as <-. simpl.
  destruct (batch_conditions_cursor _ _ _ _ _ _ Hbc) as [Hc0 Hskip0].
  destruct (zero_embeds_cursor _ _ _ _ _ _ Hzero) as [Hc1 Hskip1].
  pose proof (batch_conditions_draws _ _ _ _ _ _ Hbc) as Hd0.
  destruct (batch_conditions_events _ _ _ _ _ _ Hbc) as [Hnz _].
  destruct (zero_embeds_events _ _ _ _ _ _ Hzero) as [Hnr _].
  split; [|split; [|split]].
  - unfold dropout_draws. lia.
  - rewrite <- Hd0. apply zero_embeds_result in Hzero as Hres.
    unfold zero_embeds in Hzero. unfold random_random in Hzero.
    destruct (String.eqb _ _); [destruct (Qltb _ _)|].
    + apply bind_inr in Hzero as (embeds & _ & Hzero).
      apply bind_inr in Hzero as (mask & _ & Hzero).
      injection Hzero as _ <- _. reflexivity.
    + injection Hzero as _ <- _. reflexivity.
    + injection Hzero as _ <- _. reflexivity.
  - unfold dropout_draws.
    destruct (String.eqb_spec (caption_dropout_technique args) "empty") as [->|_];
      [|rewrite andb_false_r; destruct (String.eqb _ _); simpl; lia].
    simpl String.eqb. destruct (negb _); simpl; lia.
  - intros Hp Hdraws.
    assert (Hno : forall r, draws r = draws rng ->
                    Qltb (draws r (cursor r)) (caption_dropout_p args) = false).
    { intros r Hr. apply Qltb_false. rewrite Hr. intros Hlt.
      specialize (Hdraws (cursor r)). lra. }
    split.
    + intros Hin. apply in_app_or in Hin as [Hin|Hin].
      * exact (Hskip0 (Hno rng eq_refl) Hin).
      * exact (Hnr Hin).
    + intros Hin. apply in_app_or in Hin as [Hin|Hin].
      * exact (Hnz Hin).
      * destruct (Hskip1 (Hno (sc_random sc0) Hd0)) as [_ ->]. destruct Hin.
Qed.

Lemma dropout_random_draws_witness :
  exists sc,
    step_conditions toy_externals toy_model_config (dropout_args false "empty" 0)
      (LiveBatch [[1; 2; 3]] ["a prompt"%string]) toy_random = inr sc
    /\ cursor (sc_random sc) = 1%nat
    /\ ~ In PromptsReplaced (sc_events sc).
Proof.
  destruct (step_conditions toy_externals toy_model_config (dropout_args false "empty" 0)
              (LiveBatch [[1; 2; 3]] ["a prompt"%string]) toy_random) as [e|sc] eqn:Hrun;
    [discriminate Hrun|].
  exists sc. split; [reflexivity|].
  destruct (dropout_random_draws _ _ _ _ _ _ Hrun) as (Hcursor & _ & _ & Hnone).
  split; [exact Hcursor|].
  apply Hnone; [discriminate | intros k; discriminate].
Defined.

End DropoutFootprint.

(** ** Validation: where the artifacts of a sample are written *)

Section ValidationArtifacts.

Context {V : Type}.

Lemma save_artifact_inv (step rank : nat) (prompt_filename prompt : string)
    (entry : string * option V) (file : ArtifactFile) (value : V) (logged : Logged) :
  save_artifact step rank prompt_filename prompt entry = Some (file, value, logged) ->
  snd entry = Some value
  /\ ((fst entry = "image"%string
       /\ file = {| af_step := step; af_process := rank; af_prompt := prompt_filename;
                    af_extension := "png" |}
       /\ logged = WandbImage file)
      \/ (fst entry = "video"%string
          /\ file = {| af_step := step; af_process := rank; af_prompt := prompt_filename;
                       af_extension := "mp4" |}
          /\ logged = WandbVideo file prompt)).
Proof.
  destruct entry as [artifact_type [v|]]; [|discriminate]. simpl.
  destruct (String.eqb_spec artifact_type "image") as [->|Himage].
  - simpl. intros H. injection H as <- <- <-. split; [reflexivity|]. left. auto.
  - destruct (String.eqb_spec artifact_type "video") as [->|Hvideo]; [|discriminate].
    simpl. intros H. injection H as <- <- <-. split; [reflexivity|]. right. auto.
Qed.

Lemma saved_values_of_type (step rank : nat) (prompt_filename prompt : string)
    (artifact_type extension : string) (entries : list (string * option V)) :
  (artifact_type = "image"%string /\ extension = "png"%string)
  \/ (artifact_type = "video"%string /\ extension = "mp4"%string) ->
  (fun w => snd (fst w))
    <$> filter (fun w => fst (fst w)
                         = {| af_step := step; af_process := rank;
                              af_prompt := prompt_filename; af_extension := extension |})
               (omap (save_artifact step rank prompt_filename prompt) entries)
  = values_of_type artifact_type entries.
Proof.
  intros Hkind. induction entries as [|[ty [v|]] entries IH].
  - reflexivity.
  - cbn [omap list_omap values_of_type fst snd] in *.
    unfold values_of_type in IH. fold (@omap list _ (string * option V) V) in *.
    unfold save_artifact at 1.
    destruct (String.eqb_spec ty "image") as [->|Himage].
    + cbn [orb negb]. destruct Hkind as [[-> ->]|[-> ->]].
      * simpl String.eqb. rewrite filter_cons_True by reflexivity.
        cbn [fmap list_fmap fst snd]. f_equal. exact IH.
      * simpl String.eqb. rewrite filter_cons_False by (simpl; congruence). exact IH.
    + destruct (String.eqb_spec ty "video") as [->|Hvideo].
      * cbn [orb negb]. destruct Hkind as [[-> ->]|[-> ->]].
        -- simpl String.eqb. rewrite filter_cons_False by (simpl; congruence). exact IH.
        -- simpl String.eqb. rewrite filter_cons_True by reflexivity.
           cbn [fmap list_fmap fst snd]. f_equal. exact IH.
      * cbn [orb negb].
        assert (Hty : String.eqb ty artifact_type = false).
        { apply String.eqb_neq. destruct Hkind as [[-> _]|[-> _]]; assumption. }
        rewrite Hty. exact IH.
  - cbn [omap list_omap values_of_type fst snd] in *.
    unfold values_of_type in IH. fold (@omap list _ (string * option V) V) in *.
    unfold save_artifact at 1.
    destruct (String.eqb ty artifact_type); exact IH.
Qed.

Lemma last_fmap_list {A B : Type} (f : A -> B) (l : list A) :
  f <$> last l = last (f <$> l).
Proof.
  induction l as [|a [|b l] IH]; [reflexivity | reflexivity |].
  change (f <$> last (b :: l) = last (f <$> b :: l)). exact IH.
Qed.

(** X20: the files of one validation sample.  Whatever the pipeline
    returns, every artifact of the sample is written to one of two files,
    the png and the mp4 named after the step, the process and the first 25
    characters of the prompt's file name; entries of another type or with
    value None are skipped.  One object is logged per value written, but
    each file holds only the last value written to it: the png ends up
    with the last image among the input image and the images returned, the
    mp4 with the last video, so an earlier artifact of the same kind is
    overwritten although it is still logged. *)
Theorem validation_artifacts_share_files (string_to_filename : string -> string)
    (step rank : nat) (prompt : string) (image video : option V)
    (validation_artifacts : list (string * option V)) :
  let saved := save_artifacts string_to_filename step rank prompt image video
                 validation_artifacts in
  let entries := artifact_entries image video validation_artifacts in
  let png := validation_file string_to_filename step rank prompt "png" in
  let mp4 := validation_file string_to_filename step rank prompt "mp4" in
  Forall (fun w => (fst (fst w) = png /\ snd w = WandbImage png)
                   \/ (fst (fst w) = mp4 /\ snd w = WandbVideo mp4 prompt)) saved
  /\ length saved
     = length (values_of_type "image" entries) + length (values_of_type "video" entries)
  /\ file_content saved png = last (values_of_type "image" entries)
  /\ file_content saved mp4 = last (values_of_type "video" entries).
Proof.
  intros saved entries png mp4. split; [|split; [|split]].
  - apply Forall_forall. intros [[file value] logged] Hin.
    unfold saved, save_artifacts in Hin.
    apply list_elem_of_omap in Hin as (entry & _ & Hsave).
    apply save_artifact_inv in Hsave as [_ [(_ & -> & ->)|(_ & -> & ->)]];
      [left | right]; split; reflexivity.
  - unfold saved, save_artifacts. fold entries.
    induction entries as [|[ty [v|]] rest IH]; [reflexivity| |].
    + cbn [omap list_omap values_of_type fst snd] in *.
      unfold values_of_type in IH. fold (@omap list _ (string * option V) V) in *.
      unfold save_artifact at 1.
      destruct (String.eqb_spec ty "image") as [->|Himage].
      * simpl. rewrite IH. reflexivity.
      * destruct (String.eqb_spec ty "video") as [->|Hvideo]; simpl; rewrite IH; lia.
    + cbn [omap list_omap values_of_type fst snd] in *.
      unfold values_of_type in IH. fold (@omap list _ (string * option V) V) in *.
      unfold save_artifact at 1.
      destruct (String.eqb ty "image"), (String.eqb ty "video"); exact IH.
  - unfold file_content, saved, save_artifacts, png, validation_file. fold entries.
    rewrite last_fmap_list. f_equal. apply saved_values_of_type. left. auto.
  - unfold file_content, saved, save_artifacts, mp4, validation_file. fold entries.
    rewrite last_fmap_list. f_equal. apply saved_values_of_type. right. auto.
Qed.

End ValidationArtifacts.
